(** * A shallow embedding of the platformer core of [web/main.js]

    The development follows the classes of the source file in order:
    [Rectangle], [Circle], [InputManager], [Player], [SegmentEntity],
    [LevelSegment], [SEGMENT_LIBRARY], [Level], [Hud] and [Game].  Methods
    that mutate [this] become functions returning the updated object;
    methods that mutate several objects return all of them.

    Numbers.  JavaScript numbers are IEEE doubles; they are modelled here
    by exact rationals ([Q]).  Every arithmetic expression is transcribed
    operator by operator, so all statements below are statements about the
    exact-arithmetic reading of the source.  The rationals have no
    infinities and no [NaN]; the one division whose divisor can be zero,
    in [#checkSpikeCollision], has that case written out.  Where a
    statement turns on the frame in which a timer reaches zero, it is
    made frame by frame, on the values the code computes: in a sum of
    time steps over many frames rounding could move that frame.  Source
    comparisons ([<=], [>], [===], ...) are the boolean tests of module
    [Js]; propositional statements use the setoid equality [==] of [Q]
    wherever the source compares or computes, and Leibniz equality where
    the source stores a value unchanged. *)

From Stdlib Require Import QArith Qminmax Qabs Qround Lqa Lia ZArith List Bool.
From Stdlib Require String.
Import ListNotations.

Local Open Scope Q_scope.

(** ** JavaScript operators on numbers *)

Module Js.

(** [a <= b], [a >= b], [a < b], [a > b] and [a === b] on numbers. *)
Definition le (a b : Q) : bool := Qle_bool a b.
Definition ge (a b : Q) : bool := Qle_bool b a.
Definition lt (a b : Q) : bool := negb (Qle_bool b a).
Definition gt (a b : Q) : bool := negb (Qle_bool a b).
Definition seq (a b : Q) : bool := Qeq_bool a b.

(** [value ?? fallback]: the fallback replaces an absent ([undefined] or
    [null]) value only. *)
Definition nullish {A : Type} (value : option A) (fallback : A) : A :=
  match value with
  | Some v => v
  | None => fallback
  end.

(** Truthiness of an optional number, as tested by [if (x)]: absent
    values and zero are falsy. *)
Definition truthy (value : option Q) : bool :=
  match value with
  | Some v => negb (seq v 0)
  | None => false
  end.

End Js.

Notation "a <=? b" := (Js.le a b) (at level 70, no associativity) : Q_scope.
Notation "a >=? b" := (Js.ge a b) (at level 70, no associativity) : Q_scope.
Notation "a <? b" := (Js.lt a b) (at level 70, no associativity) : Q_scope.
Notation "a >? b" := (Js.gt a b) (at level 70, no associativity) : Q_scope.
Notation "a === b" := (Js.seq a b) (at level 70, no associativity) : Q_scope.
Notation "a ?? b" := (Js.nullish a b) (at level 45, left associativity) : Q_scope.

(** ** World constants *)

Definition WORLD_HEIGHT : Q := 720.
Definition FLOOR_Y : Q := WORLD_HEIGHT - 120.
Definition CEILING_Y : Q := 120.
Definition PLAYER_SIZE : Q := 64.
Definition MAX_DELTA_TIME : Q := 1 / 30.

(** The [event.code] strings the input listeners test. *)
Module KeyCode.
Import String.
Local Open Scope string_scope.

Definition jumpCodes : list string := ["Space"; "ArrowUp"; "KeyW"; "KeyZ"].
Definition KeyR : string := "KeyR".

End KeyCode.

(** The set [JUMP_KEYS] and its [has] test. *)
Definition JUMP_KEYS : list String.string := KeyCode.jumpCodes.

Definition JUMP_KEYS_has (code : String.string) : bool :=
  existsb (String.eqb code) JUMP_KEYS.

(** ** class Rectangle *)

Module Rectangle.

Record t : Type := new { x : Q; y : Q; width : Q; height : Q }.

Definition left (r : t) : Q := x r.
Definition right (r : t) : Q := x r + width r.
Definition top (r : t) : Q := y r.
Definition bottom (r : t) : Q := y r + height r.
Definition centerX (r : t) : Q := x r + width r / 2.
Definition centerY (r : t) : Q := y r + height r / 2.

Definition intersects (this other : t) : bool :=
  negb ((right this <=? left other)
        || (left this >=? right other)
        || (bottom this <=? top other)
        || (top this >=? bottom other)).

End Rectangle.

(** ** class Circle *)

Module Circle.

Record t : Type := new { x : Q; y : Q; radius : Q }.

Definition intersectsRect (this : t) (rect : Rectangle.t) : bool :=
  let closestX := Qmax (Rectangle.left rect) (Qmin (x this) (Rectangle.right rect)) in
  let closestY := Qmax (Rectangle.top rect) (Qmin (y this) (Rectangle.bottom rect)) in
  let dx := x this - closestX in
  let dy := y this - closestY in
  dx * dx + dy * dy <=? radius this * radius this.

End Circle.

(** ** class InputManager

    Only the intent state is kept; the DOM listeners that feed it are
    outside the simulation step. *)

Module InputManager.

Record t : Type := make {
  jumpQueue : nat;
  jumpPressedThisFrame : bool;
  jumpHeld : bool;
  pointerHeld : bool;
  restartRequested : bool
}.

Definition new : t := make 0 false false false false.

(** [#handleJumpPress], run by the pointer and key listeners. *)
Definition handleJumpPress (this : t) : t :=
  make (jumpQueue this + 1) true (jumpHeld this) (pointerHeld this)
       (restartRequested this).

Definition consumeJumpRequest (this : t) : bool * t :=
  if (0 <? jumpQueue this)%nat
  then (true, make 0 (jumpPressedThisFrame this) (jumpHeld this)
                   (pointerHeld this) (restartRequested this))
  else (false, this).

Definition isJumpHeld (this : t) : bool := jumpHeld this || pointerHeld this.

Definition didPressJumpThisFrame (this : t) : bool := jumpPressedThisFrame this.

Definition consumeRestartRequest (this : t) : bool * t :=
  (restartRequested this,
   make (jumpQueue this) (jumpPressedThisFrame this) (jumpHeld this)
        (pointerHeld this) false).

Definition finalizeFrame (this : t) : t :=
  make (jumpQueue this) false (jumpHeld this) (pointerHeld this)
       (restartRequested this).

(** The listeners registered by the constructor, as functions of the
    intent state; pointer capture is left to the host. *)
Definition onPointerDown (this : t) : t :=
  let this := handleJumpPress this in
  make (jumpQueue this) (jumpPressedThisFrame this) (jumpHeld this) true
       (restartRequested this).

Definition onPointerUp (this : t) : t :=
  make (jumpQueue this) (jumpPressedThisFrame this) false false
       (restartRequested this).

Definition onPointerCancel (this : t) : t :=
  make (jumpQueue this) (jumpPressedThisFrame this) false false
       (restartRequested this).

Definition onKeyDown (code : String.string) (this : t) : t :=
  if JUMP_KEYS_has code then
    let this := if negb (jumpHeld this) then handleJumpPress this else this in
    make (jumpQueue this) (jumpPressedThisFrame this) true (pointerHeld this)
         (restartRequested this)
  else if String.eqb code KeyCode.KeyR then
    make (jumpQueue this) (jumpPressedThisFrame this) (jumpHeld this)
         (pointerHeld this) true
  else this.

Definition onKeyUp (code : String.string) (this : t) : t :=
  if JUMP_KEYS_has code then
    make (jumpQueue this) (jumpPressedThisFrame this) false (pointerHeld this)
         (restartRequested this)
  else this.

(** The events a host can deliver, and their dispatch. *)
Inductive Event : Type :=
| PointerDown
| PointerUp
| PointerCancel
| KeyDown (code : String.string)
| KeyUp (code : String.string).

Definition dispatch (event : Event) (this : t) : t :=
  match event with
  | PointerDown => onPointerDown this
  | PointerUp => onPointerUp this
  | PointerCancel => onPointerCancel this
  | KeyDown code => onKeyDown code this
  | KeyUp code => onKeyUp code this
  end.

End InputManager.

(** ** class Player *)

(** The object literals [{ x: ..., y: ... }] used for positions and
    velocities. *)
Record Vec2 : Type := vec { vx : Q; vy : Q }.

Module Player.

Record t : Type := make {
  anchorX : Q;
  size : Q;
  position : Vec2;
  previousPosition : Vec2;
  velocity : Vec2;
  gravityDirection : Q;
  gravity : Q;
  maxFallSpeed : Q;
  maxRiseSpeed : Q;
  jumpStrength : Q;
  coyoteTime : Q;
  jumpBufferTime : Q;
  coyoteTimer : Q;
  jumpBuffer : Q;
  isGrounded : bool;
  isAlive : bool;
  boostTimer : Q;
  speedMultiplier : Q;
  gravityScaleDuringBoost : Q;
  respawnY : Q
}.

(** Field assignments [this.f = v]. *)
Definition set_position (v : Vec2) (p : t) : t :=
  make (anchorX p) (size p) v (previousPosition p) (velocity p)
       (gravityDirection p) (gravity p) (maxFallSpeed p) (maxRiseSpeed p)
       (jumpStrength p) (coyoteTime p) (jumpBufferTime p) (coyoteTimer p)
       (jumpBuffer p) (isGrounded p) (isAlive p) (boostTimer p)
       (speedMultiplier p) (gravityScaleDuringBoost p) (respawnY p).
Definition set_previousPosition (v : Vec2) (p : t) : t :=
  make (anchorX p) (size p) (position p) v (velocity p)
       (gravityDirection p) (gravity p) (maxFallSpeed p) (maxRiseSpeed p)
       (jumpStrength p) (coyoteTime p) (jumpBufferTime p) (coyoteTimer p)
       (jumpBuffer p) (isGrounded p) (isAlive p) (boostTimer p)
       (speedMultiplier p) (gravityScaleDuringBoost p) (respawnY p).
Definition set_velocity (v : Vec2) (p : t) : t :=
  make (anchorX p) (size p) (position p) (previousPosition p) v
       (gravityDirection p) (gravity p) (maxFallSpeed p) (maxRiseSpeed p)
       (jumpStrength p) (coyoteTime p) (jumpBufferTime p) (coyoteTimer p)
       (jumpBuffer p) (isGrounded p) (isAlive p) (boostTimer p)
       (speedMultiplier p) (gravityScaleDuringBoost p) (respawnY p).
Definition set_gravityDirection (v : Q) (p : t) : t :=
  make (anchorX p) (size p) (position p) (previousPosition p) (velocity p)
       v (gravity p) (maxFallSpeed p) (maxRiseSpeed p)
       (jumpStrength p) (coyoteTime p) (jumpBufferTime p) (coyoteTimer p)
       (jumpBuffer p) (isGrounded p) (isAlive p) (boostTimer p)
       (speedMultiplier p) (gravityScaleDuringBoost p) (respawnY p).
Definition set_coyoteTimer (v : Q) (p : t) : t :=
  make (anchorX p) (size p) (position p) (previousPosition p) (velocity p)
       (gravityDirection p) (gravity p) (maxFallSpeed p) (maxRiseSpeed p)
       (jumpStrength p) (coyoteTime p) (jumpBufferTime p) v
       (jumpBuffer p) (isGrounded p) (isAlive p) (boostTimer p)
       (speedMultiplier p) (gravityScaleDuringBoost p) (respawnY p).
Definition set_jumpBuffer (v : Q) (p : t) : t :=
  make (anchorX p) (size p) (position p) (previousPosition p) (velocity p)
       (gravityDirection p) (gravity p) (maxFallSpeed p) (maxRiseSpeed p)
       (jumpStrength p) (coyoteTime p) (jumpBufferTime p) (coyoteTimer p)
       v (isGrounded p) (isAlive p) (boostTimer p)
       (speedMultiplier p) (gravityScaleDuringBoost p) (respawnY p).
Definition set_isGrounded (v : bool) (p : t) : t :=
  make (anchorX p) (size p) (position p) (previousPosition p) (velocity p)
       (gravityDirection p) (gravity p) (maxFallSpeed p) (maxRiseSpeed p)
       (jumpStrength p) (coyoteTime p) (jumpBufferTime p) (coyoteTimer p)
       (jumpBuffer p) v (isAlive p) (boostTimer p)
       (speedMultiplier p) (gravityScaleDuringBoost p) (respawnY p).
Definition set_isAlive (v : bool) (p : t) : t :=
  make (anchorX p) (size p) (position p) (previousPosition p) (velocity p)
       (gravityDirection p) (gravity p) (maxFallSpeed p) (maxRiseSpeed p)
       (jumpStrength p) (coyoteTime p) (jumpBufferTime p) (coyoteTimer p)
       (jumpBuffer p) (isGrounded p) v (boostTimer p)
       (speedMultiplier p) (gravityScaleDuringBoost p) (respawnY p).
Definition set_boostTimer (v : Q) (p : t) : t :=
  make (anchorX p) (size p) (position p) (previousPosition p) (velocity p)
       (gravityDirection p) (gravity p) (maxFallSpeed p) (maxRiseSpeed p)
       (jumpStrength p) (coyoteTime p) (jumpBufferTime p) (coyoteTimer p)
       (jumpBuffer p) (isGrounded p) (isAlive p) v
       (speedMultiplier p) (gravityScaleDuringBoost p) (respawnY p).
Definition set_speedMultiplier (v : Q) (p : t) : t :=
  make (anchorX p) (size p) (position p) (previousPosition p) (velocity p)
       (gravityDirection p) (gravity p) (maxFallSpeed p) (maxRiseSpeed p)
       (jumpStrength p) (coyoteTime p) (jumpBufferTime p) (coyoteTimer p)
       (jumpBuffer p) (isGrounded p) (isAlive p) (boostTimer p)
       v (gravityScaleDuringBoost p) (respawnY p).
Definition set_gravityScaleDuringBoost (v : Q) (p : t) : t :=
  make (anchorX p) (size p) (position p) (previousPosition p) (velocity p)
       (gravityDirection p) (gravity p) (maxFallSpeed p) (maxRiseSpeed p)
       (jumpStrength p) (coyoteTime p) (jumpBufferTime p) (coyoteTimer p)
       (jumpBuffer p) (isGrounded p) (isAlive p) (boostTimer p)
       (speedMultiplier p) v (respawnY p).

(** [this.velocity.y = v] and [this.position.y = v]. *)
Definition set_velocity_y (v : Q) (p : t) : t :=
  set_velocity (vec (vx (velocity p)) v) p.
Definition set_position_y (v : Q) (p : t) : t :=
  set_position (vec (vx (position p)) v) p.
Definition set_position_x (v : Q) (p : t) : t :=
  set_position (vec v (vy (position p))) p.

(** The constructor, without the asset handle (used for drawing only). *)
Definition new : t :=
  let anchorX := 260 in
  let size := PLAYER_SIZE in
  let position := vec anchorX (FLOOR_Y - size / 2) in
  make anchorX size position (vec (vx position) (vy position)) (vec 0 0)
       1 2200 1800 1200 900 0.08 0.12 0 0 false true 0 1 0.65
       (vy position).

Definition reset (this : t) : t :=
  let position := vec (anchorX this) (FLOOR_Y - size this / 2) in
  let this := set_position position this in
  let this := set_previousPosition (vec (vx position) (vy position)) this in
  let this := set_velocity (vec 0 0) this in
  let this := set_gravityDirection 1 this in
  let this := set_isGrounded false this in
  let this := set_isAlive true this in
  let this := set_coyoteTimer 0 this in
  let this := set_jumpBuffer 0 this in
  let this := set_boostTimer 0 this in
  set_speedMultiplier 1 this.

Definition halfSize (this : t) : Q := size this / 2.

Definition getBounds (this : t) : Rectangle.t :=
  Rectangle.new (vx (position this) - halfSize this)
                (vy (position this) - halfSize this)
                (size this) (size this).

Definition getPreviousBounds (this : t) : Rectangle.t :=
  Rectangle.new (vx (previousPosition this) - halfSize this)
                (vy (previousPosition this) - halfSize this)
                (size this) (size this).

(** [update(dt, input)]: the input object is mutated by
    [consumeJumpRequest], so it is returned with the player. *)
Definition update (dt : Q) (input : InputManager.t) (this : t)
  : t * InputManager.t :=
  if negb (isAlive this) then (this, input) else
  let (requested, input) := InputManager.consumeJumpRequest input in
  let this := if requested then set_jumpBuffer (jumpBufferTime this) this
              else this in
  let this := set_previousPosition
                (vec (vx (position this)) (vy (position this))) this in
  let gravityScale := if boostTimer this >? 0
                      then gravityScaleDuringBoost this else 1 in
  let gravityForce := gravity this * gravityDirection this * gravityScale in
  let this := set_velocity_y (vy (velocity this) + gravityForce * dt) this in
  let this := set_velocity_y
                (Qmin (maxFallSpeed this)
                      (Qmax (- maxRiseSpeed this) (vy (velocity this)))) this in
  let this := set_position_y
                (vy (position this) + vy (velocity this) * dt) this in
  let this := set_jumpBuffer (Qmax 0 (jumpBuffer this - dt)) this in
  let this := set_coyoteTimer (Qmax 0 (coyoteTimer this - dt)) this in
  let this :=
    if boostTimer this >? 0 then
      let this := set_boostTimer (Qmax 0 (boostTimer this - dt)) this in
      if boostTimer this === 0 then set_speedMultiplier 1 this else this
    else this in
  (this, input).

Definition performJump (strength : Q) (this : t) : t :=
  let this := set_velocity_y (- strength * gravityDirection this) this in
  let this := set_isGrounded false this in
  set_coyoteTimer 0 this.

Definition performOrbJump (power : Q) (this : t) : t :=
  let this := set_velocity_y (- power * gravityDirection this) this in
  let this := set_isGrounded false this in
  set_coyoteTimer 0 this.

Definition postResolve (this : t) : t :=
  if negb (isAlive this) then this else
  if (jumpBuffer this >? 0) && (isGrounded this || (coyoteTimer this >? 0))
  then
    let this := performJump (jumpStrength this) this in
    set_jumpBuffer 0 this
  else this.

Definition land (surfaceY : Q) (this : t) : t :=
  let this :=
    if gravityDirection this === 1
    then set_position_y (surfaceY - halfSize this) this
    else set_position_y (surfaceY + halfSize this) this in
  let this := set_velocity_y 0 this in
  let this := set_isGrounded true this in
  set_coyoteTimer (coyoteTime this) this.

Definition die (this : t) : t := set_isAlive false this.

(** The argument object of [applyBoost]; each key may be absent. *)
Record Boost : Type := boost {
  multiplier : option Q;
  duration : option Q;
  gravityScale : option Q
}.

Definition applyBoost (b : Boost) (this : t) : t :=
  let this := set_speedMultiplier
                (Qmax (multiplier b ?? 1) (speedMultiplier this)) this in
  let this := set_boostTimer
                (Qmax (duration b ?? 0) (boostTimer this)) this in
  if Js.truthy (gravityScale b)
  then set_gravityScaleDuringBoost (gravityScale b ?? 0) this
  else this.

Definition flipGravity (targetDirection : option Q) (this : t) : t :=
  let newDirection := targetDirection ?? (- gravityDirection this) in
  if newDirection === gravityDirection this then this else
  let this := set_gravityDirection newDirection this in
  let this := set_velocity_y 0 this in
  let this :=
    if newDirection === 1
    then set_position_y (Qmin (vy (position this)) (FLOOR_Y - halfSize this)) this
    else set_position_y (Qmax (vy (position this)) (CEILING_Y + halfSize this)) this in
  let this := set_isGrounded false this in
  set_coyoteTimer 0 this.

End Player.

(** ** Level data: entity blueprints, entity instances, segments *)

(** The [type] strings tested by the resolver's [switch]; [unknown] stands
    for every other string (the [default] case). *)
Inductive EntityType : Type :=
  platform | spike | booster | orb | portal | unknown.

(** The [orientation] strings; the source tests [=== 'up'] only, [down]
    stands for every other string. *)
Inductive Orientation : Type := up | down.

(** The free-form [properties] object: every key may be absent. *)
Record Properties : Type := props {
  p_multiplier : option Q;
  p_duration : option Q;
  p_gravityScale : option Q;
  p_power : option Q;
  p_cooldown : option Q;
  p_gravity : option Q
}.

Definition no_properties : Properties := props None None None None None None.

(** An entity blueprint of a segment template. *)
Record EntityTemplate : Type := blueprint {
  b_type : EntityType;
  b_x : Q;
  b_y : Q;
  b_width : option Q;
  b_height : option Q;
  b_radius : option Q;
  b_orientation : option Orientation;
  b_properties : option Properties
}.

Record SegmentTemplate : Type := template_of {
  t_width : Q;
  t_entities : list EntityTemplate
}.

Module SegmentEntity.

Record t : Type := make {
  type : EntityType;
  x : Q;
  y : Q;
  width : Q;
  height : Q;
  radius : Q;
  orientation : Orientation;
  properties : Properties;
  cooldown : Q
}.

Definition new (template : EntityTemplate) : t :=
  make (b_type template) (b_x template) (b_y template)
       (b_width template ?? 0) (b_height template ?? 0)
       (b_radius template ?? 0) (b_orientation template ?? up)
       (match b_properties template with
        | Some properties => properties
        | None => no_properties
        end)
       0.

Definition set_cooldown (v : Q) (e : t) : t :=
  make (type e) (x e) (y e) (width e) (height e) (radius e)
       (orientation e) (properties e) v.

Definition reset (this : t) : t := set_cooldown 0 this.

Definition updateCooldown (dt : Q) (this : t) : t :=
  if cooldown this >? 0
  then set_cooldown (Qmax 0 (cooldown this - dt)) this
  else this.

End SegmentEntity.

Module LevelSegment.

Record t : Type := make {
  template : SegmentTemplate;
  entities : list SegmentEntity.t;
  offset : Q
}.

Definition new (template : SegmentTemplate) : t :=
  make template (map SegmentEntity.new (t_entities template)) 0.

Definition reset (offset : Q) (this : t) : t :=
  make (template this) (map SegmentEntity.reset (entities this)) offset.

(** The getter [end]. *)
Definition end_ (this : t) : Q := offset this + t_width (template this).

End LevelSegment.

(** ** The segment library *)

Definition platform_at (x y width height : Q) : EntityTemplate :=
  blueprint platform x y (Some width) (Some height) None None None.

Definition spike_at (x y width height : Q) (o : Orientation) : EntityTemplate :=
  blueprint spike x y (Some width) (Some height) None (Some o) None.

Definition booster_at (x y width height multiplier duration gravityScale : Q)
  : EntityTemplate :=
  blueprint booster x y (Some width) (Some height) None None
    (Some (props (Some multiplier) (Some duration) (Some gravityScale)
                 None None None)).

Definition orb_at (x y radius power cooldown : Q) : EntityTemplate :=
  blueprint orb x y None None (Some radius) None
    (Some (props None None None (Some power) (Some cooldown) None)).

Definition portal_at (x y width height gravity cooldown : Q) : EntityTemplate :=
  blueprint portal x y (Some width) (Some height) None None
    (Some (props None None None None (Some cooldown) (Some gravity))).

Definition SEGMENT_LIBRARY : list SegmentTemplate :=
  [ template_of 1400
      [ platform_at 280 (FLOOR_Y - 160) 200 32;
        platform_at 620 (FLOOR_Y - 220) 220 32;
        platform_at 940 (FLOOR_Y - 320) 180 32;
        spike_at 540 (FLOOR_Y - 64) 64 64 up;
        spike_at 860 (FLOOR_Y - 64) 64 64 up;
        booster_at 320 (FLOOR_Y - 120) 80 80 1.35 1.2 0.55;
        orb_at 720 (FLOOR_Y - 240) 28 1050 0.35;
        portal_at 1120 (FLOOR_Y - 200) 64 200 (-1) 1 ];
    template_of 1200
      [ platform_at 120 (CEILING_Y + 120) 240 32;
        platform_at 480 (CEILING_Y + 180) 200 32;
        platform_at 820 (CEILING_Y + 130) 280 32;
        spike_at 360 CEILING_Y 60 60 down;
        spike_at 700 CEILING_Y 60 60 down;
        orb_at 520 (CEILING_Y + 220) 26 980 0.4;
        booster_at 900 (CEILING_Y + 150) 76 76 1.2 1.1 0.75;
        portal_at 1000 CEILING_Y 60 180 1 1 ];
    template_of 1360
      [ platform_at 180 (FLOOR_Y - 140) 200 32;
        platform_at 520 (FLOOR_Y - 220) 240 32;
        platform_at 880 (FLOOR_Y - 160) 200 32;
        platform_at 1080 (FLOOR_Y - 260) 180 32;
        spike_at 420 (FLOOR_Y - 64) 64 64 up;
        spike_at 760 (FLOOR_Y - 64) 64 64 up;
        spike_at 1020 (FLOOR_Y - 64) 64 64 up;
        orb_at 640 (FLOOR_Y - 260) 30 1100 0.3;
        booster_at 260 (FLOOR_Y - 120) 80 80 1.25 1.4 0.6 ];
    template_of 1280
      [ platform_at 160 (FLOOR_Y - 200) 180 32;
        platform_at 480 (FLOOR_Y - 280) 200 32;
        platform_at 800 (FLOOR_Y - 220) 220 32;
        platform_at 1080 (FLOOR_Y - 320) 160 32;
        orb_at 380 (FLOOR_Y - 320) 26 1120 0.35;
        orb_at 960 (FLOOR_Y - 360) 28 1180 0.35;
        spike_at 560 (FLOOR_Y - 64) 64 64 up;
        spike_at 900 (FLOOR_Y - 64) 64 64 up;
        booster_at 680 (FLOOR_Y - 120) 80 80 1.3 1.3 0.6 ] ].

(** ** Host facilities and abrupt completion *)

(** [Math.random()] is an oracle: [sample n] is the value returned by the
    [n]-th call, [cursor] counts the calls made so far. *)
Module Random.

Record t : Type := make { sample : nat -> Q; cursor : nat }.

Definition next (g : t) : Q * t :=
  (sample g (cursor g), make (sample g) (S (cursor g))).

(** The contract of [Math.random]: every value lies in [0, 1). *)
Definition in_unit_interval (g : t) : Prop :=
  forall n, 0 <= sample g n /\ sample g n < 1.

End Random.

(** A call either returns, throws a [TypeError] (a property read on
    [undefined]), or is cut off because the budget of loop iterations
    granted to the model is exhausted. *)
Inductive Outcome (A : Type) : Type :=
| Returned (a : A)
| TypeError
| OutOfFuel.

Arguments Returned {A} a.
Arguments TypeError {A}.
Arguments OutOfFuel {A}.

(** ** class Level *)

Module Level.

Record t : Type := make {
  templates : list SegmentTemplate;
  activeSegments : list LevelSegment.t;
  baseSpeed : Q;
  currentSpeed : Q;
  scrollX : Q;
  viewportWorldWidth : Q;
  recycleMargin : Q
}.

Definition set_activeSegments (v : list LevelSegment.t) (l : t) : t :=
  make (templates l) v (baseSpeed l) (currentSpeed l) (scrollX l)
       (viewportWorldWidth l) (recycleMargin l).
Definition set_currentSpeed (v : Q) (l : t) : t :=
  make (templates l) (activeSegments l) (baseSpeed l) v (scrollX l)
       (viewportWorldWidth l) (recycleMargin l).
Definition set_scrollX (v : Q) (l : t) : t :=
  make (templates l) (activeSegments l) (baseSpeed l) (currentSpeed l) v
       (viewportWorldWidth l) (recycleMargin l).

Definition new (templates : list SegmentTemplate) : t :=
  let baseSpeed := 360 in
  make templates [] baseSpeed baseSpeed 0 1280 640.

Definition setViewport (worldWidth : Q) (this : t) : t :=
  make (templates this) (activeSegments this) (baseSpeed this)
       (currentSpeed this) (scrollX this)
       worldWidth (Qmax 400 (worldWidth * 0.75)).

(** [this.templates[i]] for an index already reduced to a natural
    number; [None] is [undefined]. *)
Definition template_at (this : t) (i : nat) : option SegmentTemplate :=
  nth_error (templates this) i.

(** The [for] loop of [reset]: [count] iterations remain, [index] is the
    loop variable.  With an empty template list the index expression is
    [NaN], the lookup is [undefined] and the [LevelSegment] constructor
    throws; [Nat.modulo] by zero followed by a lookup in the empty list
    fails in the same place. *)
Fixpoint resetLoop (this : t) (count index : nat) (offset : Q)
         (segments : list LevelSegment.t) : Outcome (list LevelSegment.t) :=
  match count with
  | O => Returned segments
  | S count' =>
      match template_at this (index mod length (templates this)) with
      | None => TypeError
      | Some template =>
          let segment := LevelSegment.new template in
          let segment := LevelSegment.reset offset segment in
          resetLoop this count' (index + 1) (offset + t_width template)
                    (segments ++ [segment])
      end
  end.

Definition reset (this : t) : Outcome t :=
  let this := set_scrollX 0 this in
  let this := set_currentSpeed (baseSpeed this) this in
  let this := set_activeSegments [] this in
  match resetLoop this 4 0 0 [] with
  | Returned segments => Returned (set_activeSegments segments this)
  | TypeError => TypeError
  | OutOfFuel => OutOfFuel
  end.

(** [pickNextTemplate]: the index is [Math.floor(Math.random() * length)];
    a negative or too large index reads [undefined]. *)
Definition pickNextTemplate (this : t) (rng : Random.t)
  : option SegmentTemplate * Random.t :=
  let (r, rng) := Random.next rng in
  let randomIndex := Qfloor (r * inject_Z (Z.of_nat (length (templates this)))) in
  ((if (randomIndex <? 0)%Z then None
    else template_at this (Z.to_nat randomIndex)), rng).

(** The scroll part of [update]: speed smoothing and camera advance. *)
Definition advance (Math_exp : Q -> Q) (dt : Q) (player : Player.t) (this : t) : t :=
  let targetSpeed := baseSpeed this * Player.speedMultiplier player in
  let smoothing := 1 - Math_exp (- dt * 6) in
  let this := set_currentSpeed
                (currentSpeed this + (targetSpeed - currentSpeed this) * smoothing)
                this in
  set_scrollX (scrollX this + currentSpeed this * dt) this.

(** The body of the [while] loop of [update] once the template is picked:
    the shifted segment [first] receives the template and fresh entities,
    is reset to start at [lastSegment.end], and is ready to be pushed.

    The variable [lastSegment] of the source always denotes the object
    stored last in the array: it is read from there before the loop and
    reassigned to each segment that is pushed.  When the array holds a
    single segment, the shifted segment and [lastSegment] are the same
    object, so [lastSegment.end] is read after its template has been
    replaced; with two or more (distinct) segments it is the end of the
    last remaining one. *)
Definition recycleSegment (first : LevelSegment.t) (rest : list LevelSegment.t)
           (template : SegmentTemplate) : LevelSegment.t :=
  let recycled :=
    LevelSegment.make template
      (map SegmentEntity.new (t_entities template))
      (LevelSegment.offset first) in
  let lastSegment := last rest recycled in
  LevelSegment.reset (LevelSegment.end_ lastSegment) recycled.

(** The [while] loop of [update] on the array of active segments. *)
Fixpoint recycle (fuel : nat) (this : t) (recycleThreshold : Q)
         (segments : list LevelSegment.t) (rng : Random.t)
  : Outcome (list LevelSegment.t * Random.t) :=
  match segments with
  | [] => Returned (segments, rng)
  | first :: rest =>
      if LevelSegment.end_ first <? recycleThreshold then
        match fuel with
        | O => OutOfFuel
        | S fuel' =>
            match pickNextTemplate this rng with
            | (Some template, rng) =>
                recycle fuel' this recycleThreshold
                        (rest ++ [recycleSegment first rest template]) rng
            | (None, _) => TypeError
            end
        end
      else Returned (segments, rng)
  end.

Definition update (Math_exp : Q -> Q) (fuel : nat) (dt : Q)
           (player : Player.t) (rng : Random.t) (this : t)
  : Outcome (t * Random.t) :=
  let this := advance Math_exp dt player this in
  let recycleThreshold := scrollX this - recycleMargin this in
  match recycle fuel this recycleThreshold (activeSegments this) rng with
  | Returned (segments, rng) => Returned (set_activeSegments segments this, rng)
  | TypeError => TypeError
  | OutOfFuel => OutOfFuel
  end.

(** *** Collision queries *)

Definition entityRect (offset : Q) (entity : SegmentEntity.t) : Rectangle.t :=
  Rectangle.new (offset + SegmentEntity.x entity) (SegmentEntity.y entity)
                (SegmentEntity.width entity) (SegmentEntity.height entity).

Definition checkEntityOverlap (playerRect : Rectangle.t) (offset : Q)
           (entity : SegmentEntity.t) : bool :=
  Rectangle.intersects playerRect (entityRect offset entity).

Definition checkOrbCollision (playerRect : Rectangle.t) (offset : Q)
           (entity : SegmentEntity.t) : bool :=
  let circle := Circle.new (offset + SegmentEntity.x entity)
                           (SegmentEntity.y entity)
                           (SegmentEntity.radius entity) in
  Circle.intersectsRect circle playerRect.

(** The two local constants of [#checkSpikeCollision]: the horizontal
    position of the player's centre relative to the spike's rectangle, and
    the height of the hazard line there. *)
Definition relativeX (playerRect rect : Rectangle.t) : Q :=
  (Rectangle.centerX playerRect - Rectangle.left rect) / Rectangle.width rect.

Definition spikeY (orientation : Orientation) (rect : Rectangle.t)
           (relativeX : Q) : Q :=
  match orientation with
  | up => Rectangle.bottom rect
          - Qabs (relativeX - 0.5) * Rectangle.height rect * 2
  | down => Rectangle.top rect
            + Qabs (relativeX - 0.5) * Rectangle.height rect * 2
  end.

(** [#checkSpikeCollision].  The quotient [relativeX] is the one division
    of the program by a value that can be zero, and the rationals have no
    value for its result, so that case is written out.  With
    [rect.width] zero the quotient is [NaN] when the numerator
    [playerRect.centerX - rect.left] is zero and an infinity otherwise.
    [NaN] makes [spikeY] [NaN] and the final comparison false.  An
    infinity makes [Math.abs(relativeX - 0.5)] positive infinity, and its
    product with [rect.height * 2] is positive infinity for a positive
    height, negative infinity for a negative one and [NaN] for zero; only
    for a positive height is [spikeY] negative infinity under [up]
    (positive infinity under [down]) and the comparison true. *)
Definition checkSpikeCollision (playerRect : Rectangle.t) (offset : Q)
           (entity : SegmentEntity.t) : bool :=
  let rect := entityRect offset entity in
  if negb (Rectangle.intersects playerRect rect) then false else
  if Rectangle.width rect === 0 then
    negb (Rectangle.centerX playerRect - Rectangle.left rect === 0)
    && (Rectangle.height rect >? 0)
  else
  let relativeX := relativeX playerRect rect in
  match SegmentEntity.orientation entity with
  | up => Rectangle.bottom playerRect >=? spikeY up rect relativeX
  | down => Rectangle.top playerRect <=? spikeY down rect relativeX
  end.

(** [#resolvePlatform]: [currentRect] is the caller's [playerRect]
    object and is overwritten in place after a landing, so the updated
    rectangle is returned with the player. *)
Definition resolvePlatform (player : Player.t) (entity : SegmentEntity.t)
           (offset : Q) (currentRect previousRect : Rectangle.t)
  : Player.t * Rectangle.t :=
  let rect := entityRect offset entity in
  if negb (Rectangle.intersects currentRect rect) then (player, currentRect)
  else if Player.gravityDirection player === 1 then
    let wasAbove :=
      Rectangle.bottom previousRect
      <=? Rectangle.top rect + Qabs (vy (Player.velocity player)) * 0.02 in
    if wasAbove && (Rectangle.bottom currentRect >=? Rectangle.top rect) then
      let player := Player.land (Rectangle.top rect) player in
      let updated := Player.getBounds player in
      (player, Rectangle.new (Rectangle.x updated) (Rectangle.y updated)
                             (Rectangle.width updated) (Rectangle.height updated))
    else (player, currentRect)
  else
    let wasBelow :=
      Rectangle.top previousRect
      >=? Rectangle.bottom rect - Qabs (vy (Player.velocity player)) * 0.02 in
    if wasBelow && (Rectangle.top currentRect <=? Rectangle.bottom rect) then
      let player := Player.land (Rectangle.bottom rect) player in
      let updated := Player.getBounds player in
      (player, Rectangle.new (Rectangle.x updated) (Rectangle.y updated)
                             (Rectangle.width updated) (Rectangle.height updated))
    else (player, currentRect).

(** *** The resolver *)

(** The state threaded through the entity loops of [resolvePlayer]: the
    player, the local [playerRect], and whether the method has executed
    its early [return]. *)
Record Resolving : Type := resolving {
  r_player : Player.t;
  r_rect : Rectangle.t;
  r_returned : bool
}.

(** One iteration of the inner [for] loop: the cooldown update followed
    by the [switch] on the entity type. *)
Definition resolveEntity (input : InputManager.t) (dt offset : Q)
           (previousRect : Rectangle.t) (player : Player.t)
           (playerRect : Rectangle.t) (entity : SegmentEntity.t)
  : Resolving * SegmentEntity.t :=
  let entity := SegmentEntity.updateCooldown dt entity in
  let properties := SegmentEntity.properties entity in
  match SegmentEntity.type entity with
  | platform =>
      let (player, playerRect) :=
        resolvePlatform player entity offset playerRect previousRect in
      (resolving player playerRect false, entity)
  | spike =>
      if checkSpikeCollision playerRect offset entity
      then (resolving (Player.die player) playerRect true, entity)
      else (resolving player playerRect false, entity)
  | booster =>
      if checkEntityOverlap playerRect offset entity
         && (SegmentEntity.cooldown entity === 0)
      then
        let player :=
          Player.applyBoost
            (Player.boost (Some (p_multiplier properties ?? 1.2))
                          (Some (p_duration properties ?? 1))
                          (Some (p_gravityScale properties ?? 0.7)))
            player in
        let entity :=
          SegmentEntity.set_cooldown
            ((match p_cooldown properties with
              | Some c => c
              | None => p_duration properties ?? 1
              end) + 0.2) entity in
        (resolving player playerRect false, entity)
      else (resolving player playerRect false, entity)
  | orb =>
      if (SegmentEntity.cooldown entity === 0)
         && checkOrbCollision playerRect offset entity
      then
        if InputManager.didPressJumpThisFrame input
           || InputManager.isJumpHeld input
        then
          let player := Player.performOrbJump (p_power properties ?? 1000) player in
          let entity :=
            SegmentEntity.set_cooldown (p_cooldown properties ?? 0.3) entity in
          (resolving player playerRect false, entity)
        else (resolving player playerRect false, entity)
      else (resolving player playerRect false, entity)
  | portal =>
      if checkEntityOverlap playerRect offset entity
         && (SegmentEntity.cooldown entity === 0)
      then
        let player := Player.flipGravity (p_gravity properties) player in
        let entity :=
          SegmentEntity.set_cooldown (p_cooldown properties ?? 0.8) entity in
        (resolving player (Player.getBounds player) false, entity)
      else (resolving player playerRect false, entity)
  | unknown => (resolving player playerRect false, entity)
  end.

(** The inner loop over the entities of one segment.  After a [return]
    the remaining entities are not visited. *)
Fixpoint resolveEntities (input : InputManager.t) (dt offset : Q)
         (previousRect : Rectangle.t) (player : Player.t)
         (playerRect : Rectangle.t) (entities : list SegmentEntity.t)
  : Resolving * list SegmentEntity.t :=
  match entities with
  | [] => (resolving player playerRect false, [])
  | entity :: rest =>
      let (state, entity) :=
        resolveEntity input dt offset previousRect player playerRect entity in
      if r_returned state then (state, entity :: rest)
      else
        let (state, rest) :=
          resolveEntities input dt offset previousRect
                          (r_player state) (r_rect state) rest in
        (state, entity :: rest)
  end.

(** The outer loop over the active segments, with its window test. *)
Fixpoint resolveSegments (input : InputManager.t) (dt : Q)
         (visibleStart visibleEnd : Q)
         (previousRect : Rectangle.t) (player : Player.t)
         (playerRect : Rectangle.t) (segments : list LevelSegment.t)
  : Resolving * list LevelSegment.t :=
  match segments with
  | [] => (resolving player playerRect false, [])
  | segment :: rest =>
      if (LevelSegment.end_ segment <? visibleStart)
         || (LevelSegment.offset segment >? visibleEnd)
      then
        let (state, rest) :=
          resolveSegments input dt visibleStart visibleEnd previousRect
                          player playerRect rest in
        (state, segment :: rest)
      else
        let (state, entities) :=
          resolveEntities input dt (LevelSegment.offset segment) previousRect
                          player playerRect (LevelSegment.entities segment) in
        let segment :=
          LevelSegment.make (LevelSegment.template segment) entities
                            (LevelSegment.offset segment) in
        if r_returned state then (state, segment :: rest)
        else
          let (state, rest) :=
            resolveSegments input dt visibleStart visibleEnd previousRect
                            (r_player state) (r_rect state) rest in
          (state, segment :: rest)
  end.

(** The floor and ceiling clamp that opens [resolvePlayer]. *)
Definition clampToWorld (player : Player.t) : Player.t :=
  let playerRect := Player.getBounds player in
  if Player.gravityDirection player === 1 then
    if Rectangle.bottom playerRect >=? FLOOR_Y
    then Player.land FLOOR_Y player else player
  else if Rectangle.top playerRect <=? CEILING_Y
    then Player.land CEILING_Y player else player.

(** The re-validation that closes [resolvePlayer]. *)
Definition revalidate (player : Player.t) : Player.t :=
  let player :=
    if Player.isGrounded player
       && (Player.gravityDirection player === 1)
       && (Rectangle.bottom (Player.getBounds player) >? FLOOR_Y)
    then Player.land FLOOR_Y player else player in
  if Player.isGrounded player
     && (Player.gravityDirection player === -1)
     && (Rectangle.top (Player.getBounds player) <? CEILING_Y)
  then Player.land CEILING_Y player else player.

Definition resolvePlayer (player : Player.t) (input : InputManager.t)
           (dt : Q) (this : t) : Player.t * t :=
  let previousRect := Player.getPreviousBounds player in
  let player := clampToWorld player in
  let playerRect := Player.getBounds player in
  let visibleStart := scrollX this - recycleMargin this in
  let visibleEnd := scrollX this + viewportWorldWidth this + recycleMargin this in
  let (state, segments) :=
    resolveSegments input dt visibleStart visibleEnd previousRect
                    player playerRect (activeSegments this) in
  let this := set_activeSegments segments this in
  if r_returned state then (r_player state, this)
  else (revalidate (r_player state), this).

End Level.

(** ** class Hud (state only; drawing is left out) *)

Module Hud.

Record t : Type := make {
  distance : Q;
  attempt : Q;
  bestDistance : Q;
  runTime : Q;
  bestTime : Q
}.

Definition new : t := make 0 1 0 0 0.

Definition reset (attempt : Q) (this : t) : t :=
  make 0 attempt (bestDistance this) 0 (bestTime this).

Definition update (distance dt : Q) (this : t) : t :=
  let this := make distance (Hud.attempt this) (bestDistance this)
                   (runTime this + dt) (bestTime this) in
  if distance >? bestDistance this
  then make (Hud.distance this) (Hud.attempt this) distance
            (runTime this) (runTime this)
  else this.

End Hud.

(** ** class Game (simulation state; canvas and rendering are left out)

    [performance.now()] is read by [reset] and is passed as [now].  The
    callback handed to [setTimeout] on death is counted in
    [scheduledResets]; [onResetTimer] is that callback. *)

Module Game.

Record t : Type := make {
  input : InputManager.t;
  player : Player.t;
  level : Level.t;
  hud : Hud.t;
  lastTimestamp : Q;
  isRunning : bool;
  attempt : Q;
  scheduledResets : nat
}.

Definition reset (now : Q) (this : t) : Outcome t :=
  match Level.reset (level this) with
  | Returned level =>
      let player := Player.reset (player this) in
      let player := Player.set_position_x (Player.anchorX player) player in
      let player :=
        Player.set_position_y (FLOOR_Y - Player.halfSize player) player in
      Returned (make (input this) player level
                     (Hud.reset (attempt this) (hud this))
                     now true (attempt this) (scheduledResets this))
  | TypeError => TypeError
  | OutOfFuel => OutOfFuel
  end.

(** The callback scheduled on death. *)
Definition onResetTimer (now : Q) (this : t) : Outcome t :=
  reset now
    (make (input this) (player this) (level this) (hud this)
          (lastTimestamp this) (isRunning this) (attempt this)
          (pred (scheduledResets this))).

(** The time step of a frame.  The source writes
    [(timestamp - lastTimestamp) / 1000 || 0], which replaces [NaN] by
    zero; rationals have no such value. *)
Definition deltaTime (timestamp : Q) (this : t) : Q :=
  Qmin MAX_DELTA_TIME ((timestamp - lastTimestamp this) / 1000).

Definition update (Math_exp : Q -> Q) (fuel : nat) (timestamp now : Q)
           (rng : Random.t) (this : t) : Outcome (t * Random.t) :=
  let deltaTime := deltaTime timestamp this in
  let this := make (input this) (player this) (level this) (hud this)
                   timestamp (isRunning this) (attempt this)
                   (scheduledResets this) in
  if negb (isRunning this) then Returned (this, rng) else
  let (restart, input) := InputManager.consumeRestartRequest (input this) in
  if restart then
    let this := make input (player this) (level this) (hud this)
                     (lastTimestamp this) (isRunning this) (attempt this + 1)
                     (scheduledResets this) in
    match reset now this with
    | Returned this => Returned (this, rng)
    | TypeError => TypeError
    | OutOfFuel => OutOfFuel
    end
  else
    let (player, input) := Player.update deltaTime input (player this) in
    let player :=
      Player.set_position_x (Level.scrollX (level this) + Player.anchorX player)
                            player in
    match Level.update Math_exp fuel deltaTime player rng (level this) with
    | Returned (level, rng) =>
        let (player, level) := Level.resolvePlayer player input deltaTime level in
        let player := Player.postResolve player in
        let distance := Level.scrollX level / 10 in
        let hud := Hud.update distance deltaTime (hud this) in
        let dead := negb (Player.isAlive player) in
        Returned
          (make (InputManager.finalizeFrame input) player level hud
                (lastTimestamp this)
                (if dead then false else isRunning this)
                (if dead then attempt this + 1 else attempt this)
                (if dead then S (scheduledResets this)
                 else scheduledResets this),
           rng)
    | TypeError => TypeError
    | OutOfFuel => OutOfFuel
    end.

End Game.

(** * Vocabulary of the statements *)

(** Two intervals given by their end points overlap in the open sense. *)
Definition open_overlap (lo1 hi1 lo2 hi2 : Q) : Prop := lo1 < hi2 /\ lo2 < hi1.

(** The point [(cx, cy)] lies strictly inside the rectangle. *)
Definition interior (r : Rectangle.t) (cx cy : Q) : Prop :=
  (Rectangle.left r < cx /\ cx < Rectangle.right r)
  /\ (Rectangle.top r < cy /\ cy < Rectangle.bottom r).

(** A run of [Player.update] calls, one per frame, each with the time step
    and the input object of its frame; no other method of the player is
    called in between. *)
Fixpoint updates (frames : list (Q * InputManager.t)) (p : Player.t) : Player.t :=
  match frames with
  | [] => p
  | (dt, input) :: rest => updates rest (fst (Player.update dt input p))
  end.

(** The simulated time covered by a run of frames. *)
Definition elapsed (frames : list (Q * InputManager.t)) : Q :=
  fold_right (fun frame total => fst frame + total) 0 frames.

(** A run of frames in which the resolver finds nothing to act on: each
    frame is [update] followed by [postResolve]. *)
Fixpoint airborne (frames : list (Q * InputManager.t)) (p : Player.t) : Player.t :=
  match frames with
  | [] => p
  | (dt, input) :: rest =>
      airborne rest (Player.postResolve (fst (Player.update dt input p)))
  end.

(** Every active segment starts where its predecessor ends. *)
Definition adjacent (segments : list LevelSegment.t) : Prop :=
  forall (i : nat) (a b : LevelSegment.t),
    nth_error segments i = Some a ->
    nth_error segments (S i) = Some b ->
    LevelSegment.offset b = LevelSegment.end_ a.

(** The segment window: four active segments, laid end to end. *)
Definition window (l : Level.t) : Prop :=
  length (Level.activeSegments l) = 4%nat /\ adjacent (Level.activeSegments l).

(** The same adjacency, by recursion on the list. *)
Fixpoint chained (segments : list LevelSegment.t) : Prop :=
  match segments with
  | [] => True
  | first :: rest =>
      match rest with
      | [] => True
      | second :: _ =>
          LevelSegment.offset second = LevelSegment.end_ first /\ chained rest
      end
  end.

(** A run of [Level.update] calls, one per frame, each with its time step
    and the player it is given; every call may use up to [fuel] iterations
    of the recycling loop. *)
Fixpoint level_updates (Math_exp : Q -> Q) (fuel : nat)
         (frames : list (Q * Player.t)) (rng : Random.t) (l : Level.t)
  : Outcome (Level.t * Random.t) :=
  match frames with
  | [] => Returned (l, rng)
  | (dt, player) :: rest =>
      match Level.update Math_exp fuel dt player rng l with
      | Returned (l', rng') => level_updates Math_exp fuel rest rng' l'
      | TypeError => TypeError
      | OutOfFuel => OutOfFuel
      end
  end.

(** Well-formed level design data: at least one template, and every
    template has a positive width. *)
Definition well_formed (templates : list SegmentTemplate) : Prop :=
  templates <> [] /\ forall t, In t templates -> 0 < t_width t.

(** The invariant carried through a run: the template list is the one the
    level was built with, the window holds four chained segments, each
    instantiating a template of the list. *)
Definition level_inv (templates : list SegmentTemplate) (l : Level.t) : Prop :=
  Level.templates l = templates
  /\ length (Level.activeSegments l) = 4%nat
  /\ chained (Level.activeSegments l)
  /\ Forall (fun s => In (LevelSegment.template s) templates)
            (Level.activeSegments l).

(** The level states a game can reach, by the methods of the class that
    change a level: a level is constructed over the template list or
    reset from a level with a positive base speed, the viewport may change
    at any time, [update] is called with non-negative time steps and
    players whose speed multiplier is at least one, and [resolvePlayer] is
    called with any player, input and time step. *)
Inductive reachable (Math_exp : Q -> Q) (templates : list SegmentTemplate)
  : Level.t -> Prop :=
| reach_new : reachable Math_exp templates (Level.new templates)
| reach_reset (this l : Level.t) :
    Level.templates this = templates ->
    0 < Level.baseSpeed this ->
    Level.reset this = Returned l ->
    reachable Math_exp templates l
| reach_setViewport (l : Level.t) (worldWidth : Q) :
    reachable Math_exp templates l ->
    reachable Math_exp templates (Level.setViewport worldWidth l)
| reach_update (l l' : Level.t) (fuel : nat) (dt : Q) (player : Player.t)
               (rng rng' : Random.t) :
    reachable Math_exp templates l ->
    0 <= dt ->
    1 <= Player.speedMultiplier player ->
    Level.update Math_exp fuel dt player rng l = Returned (l', rng') ->
    reachable Math_exp templates l'
| reach_resolvePlayer (l : Level.t) (player : Player.t)
                      (input : InputManager.t) (dt : Q) :
    reachable Math_exp templates l ->
    reachable Math_exp templates (snd (Level.resolvePlayer player input dt l)).

(** A rational function with the range of the exponential on non-positive
    arguments, used to run the model on concrete inputs. *)
Definition rational_exp (x : Q) : Q := / (1 - x + x * x / 2).

(** A constant oracle for [Math.random]. *)
Definition constant_random (r : Q) : Random.t := Random.make (fun _ => r) 0.

(** The input state after a sequence of host events, oldest first. *)
Fixpoint dispatch_all (events : list InputManager.Event) (input : InputManager.t)
  : InputManager.t :=
  match events with
  | [] => input
  | event :: rest => dispatch_all rest (InputManager.dispatch event input)
  end.

(** An event that is a key-down of one of the jump keys. *)
Definition jump_key_down (event : InputManager.Event) : Prop :=
  exists code, event = InputManager.KeyDown code /\ JUMP_KEYS_has code = true.

(** An entity's cooldown after a run of frames in which only
    [updateCooldown] touches it. *)
Fixpoint cool (steps : list Q) (e : SegmentEntity.t) : SegmentEntity.t :=
  match steps with
  | [] => e
  | dt :: rest => cool rest (SegmentEntity.updateCooldown dt e)
  end.

(** An entity with its cooldown blanked: what is left is its type, its
    geometry, its orientation and its properties. *)
Definition blueprint_of (e : SegmentEntity.t) : SegmentEntity.t :=
  SegmentEntity.set_cooldown 0 e.

(** A segment with the cooldowns of its entities blanked. *)
Definition layout_of (s : LevelSegment.t) : LevelSegment.t :=
  LevelSegment.make (LevelSegment.template s)
                    (map blueprint_of (LevelSegment.entities s))
                    (LevelSegment.offset s).

(** No entity of the active segments is a spike. *)
Definition spike_free (l : Level.t) : Prop :=
  forall s e, In s (Level.activeSegments l) ->
              In e (LevelSegment.entities s) ->
              SegmentEntity.type e <> spike.

(** The calls the game makes on the HUD, and a run of them. *)
Inductive HudCall : Type :=
| HudUpdate (distance dt : Q)
| HudReset (attempt : Q).

Fixpoint hud_run (calls : list HudCall) (h : Hud.t) : Hud.t :=
  match calls with
  | [] => h
  | HudUpdate distance dt :: rest => hud_run rest (Hud.update distance dt h)
  | HudReset attempt :: rest => hud_run rest (Hud.reset attempt h)
  end.

(** A run of [Game.update] calls, one per animation frame, each with its
    timestamp and the clock value a reset would read. *)
Fixpoint game_run (Math_exp : Q -> Q) (fuel : nat) (ticks : list (Q * Q))
         (rng : Random.t) (g : Game.t) : Outcome (Game.t * Random.t) :=
  match ticks with
  | [] => Returned (g, rng)
  | (timestamp, now) :: rest =>
      match Game.update Math_exp fuel timestamp now rng g with
      | Returned (g', rng') => game_run Math_exp fuel rest rng' g'
      | TypeError => TypeError
      | OutOfFuel => OutOfFuel
      end
  end.

(** * Properties *)

(** ** Boolean tests against the order of [Q] *)

Lemma le_reflect (a b : Q) : reflect (a <= b) (a <=? b).
Proof. apply iff_reflect. symmetry. apply Qle_bool_iff. Qed.

Lemma ge_reflect (a b : Q) : reflect (b <= a) (a >=? b).
Proof. apply iff_reflect. symmetry. apply Qle_bool_iff. Qed.

Lemma lt_reflect (a b : Q) : reflect (a < b) (a <? b).
Proof.
  unfold Js.lt. destruct (Qle_bool b a) eqn:E; constructor.
  - apply Qle_bool_iff in E. lra.
  - apply Qnot_le_lt. intro H. apply Qle_bool_iff in H. congruence.
Qed.

Lemma gt_reflect (a b : Q) : reflect (b < a) (a >? b).
Proof. exact (lt_reflect b a). Qed.

Lemma seq_reflect (a b : Q) : reflect (a == b) (a === b).
Proof. apply iff_reflect. symmetry. apply Qeq_bool_iff. Qed.

(** Case analysis on every comparison of the goal, turning each into a
    fact about the order. *)
Ltac js_cases :=
  repeat match goal with
    | |- context [?a <=? ?b] => destruct (le_reflect a b)
    | |- context [?a >=? ?b] => destruct (ge_reflect a b)
    | |- context [?a <? ?b] => destruct (lt_reflect a b)
    | |- context [?a >? ?b] => destruct (gt_reflect a b)
    | |- context [?a === ?b] => destruct (seq_reflect a b)
    end.

(** Divisions by a literal become multiplications by a fraction, the form
    linear arithmetic accepts. *)
Ltac literal_div :=
  unfold Qdiv in *;
  repeat match goal with
    | |- context [Qinv (Qmake ?n ?d)] =>
        let v := eval vm_compute in (Qinv (Qmake n d)) in
        change (Qinv (Qmake n d)) with v
    | H : context [Qinv (Qmake ?n ?d)] |- _ =>
        let v := eval vm_compute in (Qinv (Qmake n d)) in
        change (Qinv (Qmake n d)) with v in H
    end.

(** ** Rectangles *)

(** For proper intervals the test above says that the interiors share a
    point. *)
Lemma open_overlap_common_point (lo1 hi1 lo2 hi2 : Q) :
  lo1 < hi1 -> lo2 < hi2 ->
  (open_overlap lo1 hi1 lo2 hi2 <->
   exists c, (lo1 < c /\ c < hi1) /\ (lo2 < c /\ c < hi2)).
Proof.
  intros H1 H2. unfold open_overlap. split.
  - intros [Ha Hb].
    exists ((Qmax lo1 lo2 + Qmin hi1 hi2) / 2).
    destruct (Q.max_spec lo1 lo2) as [[? E1]|[? E1]];
      destruct (Q.min_spec hi1 hi2) as [[? E2]|[? E2]];
      literal_div; repeat split; lra.
  - intros [c [[? ?] [? ?]]]. split; lra.
Qed.

(** [intersects] as a conjunction of four strict inequalities. *)
Lemma intersects_true_iff (A B : Rectangle.t) :
  Rectangle.intersects A B = true <->
  (Rectangle.left A < Rectangle.right B /\ Rectangle.left B < Rectangle.right A)
  /\ (Rectangle.top A < Rectangle.bottom B /\ Rectangle.top B < Rectangle.bottom A).
Proof.
  unfold Rectangle.intersects. js_cases; simpl; split;
    solve [ discriminate | reflexivity | intros; repeat split; lra
          | intros [[? ?] [? ?]]; lra ].
Qed.

Lemma intersects_false_iff (A B : Rectangle.t) :
  Rectangle.intersects A B = false <->
  (Rectangle.right A <= Rectangle.left B
   \/ Rectangle.left A >= Rectangle.right B
   \/ Rectangle.bottom A <= Rectangle.top B
   \/ Rectangle.top A >= Rectangle.bottom B).
Proof.
  destruct (Rectangle.intersects A B) eqn:E.
  - apply intersects_true_iff in E. destruct E as [[? ?] [? ?]].
    split; [discriminate | intros [?|[?|[?|?]]]; lra].
  - split; [intros _ | reflexivity].
    destruct (Qlt_le_dec (Rectangle.left B) (Rectangle.right A)); [|tauto].
    destruct (Qlt_le_dec (Rectangle.left A) (Rectangle.right B)); [|tauto].
    destruct (Qlt_le_dec (Rectangle.top B) (Rectangle.bottom A)); [|tauto].
    destruct (Qlt_le_dec (Rectangle.top A) (Rectangle.bottom B)); [|tauto].
    assert (Rectangle.intersects A B = true) by (apply intersects_true_iff; tauto).
    congruence.
Qed.

(** C8.  [Rectangle.intersects] excludes touching edges: it is false as
    soon as one of the four separations [A.right <= B.left],
    [A.left >= B.right], [A.bottom <= B.top], [A.top >= B.bottom] holds, in
    particular when the two rectangles share an edge, and it is true
    exactly when the horizontal and the vertical extents overlap as open
    intervals.  For rectangles of positive width and height the overlap
    test says that the two interiors share a point. *)
Theorem rectangle_intersects_excludes_touching_edges (A B : Rectangle.t) :
  (Rectangle.right A <= Rectangle.left B
   \/ Rectangle.left A >= Rectangle.right B
   \/ Rectangle.bottom A <= Rectangle.top B
   \/ Rectangle.top A >= Rectangle.bottom B ->
   Rectangle.intersects A B = false)
  /\ (Rectangle.right A == Rectangle.left B -> Rectangle.intersects A B = false)
  /\ (Rectangle.intersects A B = true <->
      open_overlap (Rectangle.left A) (Rectangle.right A)
                   (Rectangle.left B) (Rectangle.right B)
      /\ open_overlap (Rectangle.top A) (Rectangle.bottom A)
                      (Rectangle.top B) (Rectangle.bottom B))
  /\ (0 < Rectangle.width A -> 0 < Rectangle.height A ->
      0 < Rectangle.width B -> 0 < Rectangle.height B ->
      (Rectangle.intersects A B = true <->
       exists cx cy, interior A cx cy /\ interior B cx cy)).
Proof.
  split; [| split; [| split]].
  - apply intersects_false_iff.
  - intro H. apply intersects_false_iff. left. lra.
  - apply intersects_true_iff.
  - intros wA hA wB hB. rewrite intersects_true_iff.
    rewrite (open_overlap_common_point (Rectangle.left A) (Rectangle.right A)
               (Rectangle.left B) (Rectangle.right B))
      by (unfold Rectangle.left, Rectangle.right; lra).
    rewrite (open_overlap_common_point (Rectangle.top A) (Rectangle.bottom A)
               (Rectangle.top B) (Rectangle.bottom B))
      by (unfold Rectangle.top, Rectangle.bottom; lra).
    unfold interior. split.
    + intros [[cx [? ?]] [cy [? ?]]]. exists cx, cy. tauto.
    + intros [cx [cy [[? ?] [? ?]]]]. split; [exists cx | exists cy]; tauto.
Qed.

Lemma rectangle_intersects_excludes_touching_edges_witness :
  Rectangle.intersects (Rectangle.new 0 0 10 10) (Rectangle.new 10 0 10 10)
  = false.
Proof.
  apply (rectangle_intersects_excludes_touching_edges
           (Rectangle.new 0 0 10 10) (Rectangle.new 10 0 10 10)).
  reflexivity.
Defined.

(** ** The player *)

Lemma gt_true (a b : Q) : b < a -> (a >? b) = true.
Proof. intro H. destruct (gt_reflect a b); [reflexivity | contradiction]. Qed.

Lemma gt_false (a b : Q) : a <= b -> (a >? b) = false.
Proof. intro H. destruct (gt_reflect a b); [lra | reflexivity]. Qed.

Lemma seq_true (a b : Q) : a == b -> (a === b) = true.
Proof. intro H. destruct (seq_reflect a b); [reflexivity | contradiction]. Qed.

Lemma seq_false (a b : Q) : ~ a == b -> (a === b) = false.
Proof. intro H. destruct (seq_reflect a b); [contradiction | reflexivity]. Qed.

(** What [performJump] and the buffered jump of [postResolve] leave
    behind. *)
Lemma postResolve_jumps (p : Player.t) :
  Player.isAlive p = true ->
  0 < Player.jumpBuffer p ->
  Player.isGrounded p = true \/ 0 < Player.coyoteTimer p ->
  Player.postResolve p
  = Player.set_jumpBuffer 0 (Player.performJump (Player.jumpStrength p) p).
Proof.
  intros Halive Hbuf Hground. unfold Player.postResolve.
  rewrite Halive, (gt_true _ _ Hbuf). simpl.
  destruct Hground as [-> | Hc]; [reflexivity |].
  rewrite (gt_true _ _ Hc), orb_true_r. reflexivity.
Qed.

(** C3.  Landing postcondition: [land(surfaceY)] zeroes the vertical
    velocity, sets the grounded flag, reloads the coyote timer with
    [coyoteTime], and puts the centre half a body above the surface under
    gravity [+1] and half a body below it under gravity [-1]. *)
Theorem player_land_postcondition (p : Player.t) (surfaceY : Q) :
  let p' := Player.land surfaceY p in
  vy (Player.velocity p') = 0
  /\ Player.isGrounded p' = true
  /\ Player.coyoteTimer p' = Player.coyoteTime p
  /\ (Player.gravityDirection p == 1 ->
      vy (Player.position p') = surfaceY - Player.halfSize p)
  /\ (Player.gravityDirection p == -1 ->
      vy (Player.position p') = surfaceY + Player.halfSize p).
Proof.
  cbv zeta. unfold Player.land.
  destruct (seq_reflect (Player.gravityDirection p) 1) as [E | E]; simpl;
    (split; [reflexivity | split; [reflexivity | split; [reflexivity | split]]]);
    intro H; solve [reflexivity | lra].
Qed.

Lemma player_land_postcondition_witness :
  vy (Player.position (Player.land FLOOR_Y Player.new)) = FLOOR_Y - Player.halfSize Player.new.
Proof.
  apply (player_land_postcondition Player.new FLOOR_Y). reflexivity.
Defined.

(** The fields of a live player after [update], one equation per
    assignment of the method. *)
Lemma update_fields (dt : Q) (input : InputManager.t) (p : Player.t) :
  Player.isAlive p = true ->
  let p1 := fst (Player.update dt input p) in
  let requested := fst (InputManager.consumeJumpRequest input) in
  let gravityScale :=
    if Player.boostTimer p >? 0 then Player.gravityScaleDuringBoost p else 1 in
  Player.isAlive p1 = true
  /\ Player.isGrounded p1 = Player.isGrounded p
  /\ Player.gravityDirection p1 = Player.gravityDirection p
  /\ Player.jumpStrength p1 = Player.jumpStrength p
  /\ Player.size p1 = Player.size p
  /\ Player.jumpBuffer p1
     = Qmax 0 ((if requested then Player.jumpBufferTime p
                else Player.jumpBuffer p) - dt)
  /\ Player.coyoteTimer p1 = Qmax 0 (Player.coyoteTimer p - dt)
  /\ vy (Player.velocity p1)
     = Qmin (Player.maxFallSpeed p)
            (Qmax (- Player.maxRiseSpeed p)
                  (vy (Player.velocity p)
                   + Player.gravity p * Player.gravityDirection p
                     * gravityScale * dt))
  /\ vy (Player.position p1)
     = vy (Player.position p) + vy (Player.velocity p1) * dt.
Proof.
  intros Halive. unfold Player.update. rewrite Halive. simpl negb. cbv iota.
  destruct (InputManager.consumeJumpRequest input) as [requested input'].
  cbv zeta. simpl fst.
  destruct requested; simpl;
    destruct (Player.boostTimer p >? 0); simpl;
    repeat match goal with
      | |- context [if ?c then _ else _] => destruct c; simpl
      end;
    repeat split; solve [reflexivity | exact Halive].
Qed.

(** [land] touches neither the jump buffer nor the fields a jump reads. *)
Lemma land_isAlive (s : Q) (p : Player.t) :
  Player.isAlive (Player.land s p) = Player.isAlive p.
Proof. unfold Player.land. destruct (_ === _); reflexivity. Qed.

Lemma land_jumpBuffer (s : Q) (p : Player.t) :
  Player.jumpBuffer (Player.land s p) = Player.jumpBuffer p.
Proof. unfold Player.land. destruct (_ === _); reflexivity. Qed.

Lemma land_gravityDirection (s : Q) (p : Player.t) :
  Player.gravityDirection (Player.land s p) = Player.gravityDirection p.
Proof. unfold Player.land. destruct (_ === _); reflexivity. Qed.

Lemma land_jumpStrength (s : Q) (p : Player.t) :
  Player.jumpStrength (Player.land s p) = Player.jumpStrength p.
Proof. unfold Player.land. destruct (_ === _); reflexivity. Qed.

Lemma land_isGrounded (s : Q) (p : Player.t) :
  Player.isGrounded (Player.land s p) = true.
Proof. unfold Player.land. destruct (_ === _); reflexivity. Qed.

Create Rewrite HintDb land_fields.
#[export] Hint Rewrite land_isAlive land_jumpBuffer land_gravityDirection
  land_jumpStrength land_isGrounded : land_fields.

(** The re-validation keeps a grounded player grounded and does not touch
    the jump buffer. *)
Lemma revalidate_keeps_jump_fields (p : Player.t) :
  let p' := Level.revalidate p in
  Player.isAlive p' = Player.isAlive p
  /\ Player.jumpBuffer p' = Player.jumpBuffer p
  /\ Player.gravityDirection p' = Player.gravityDirection p
  /\ Player.jumpStrength p' = Player.jumpStrength p
  /\ Player.isGrounded p' = Player.isGrounded p.
Proof.
  cbv zeta. unfold Level.revalidate.
  destruct (Player.isGrounded p) eqn:Hg; simpl.
  - destruct (_ && _); autorewrite with land_fields; simpl;
      destruct (_ && _); autorewrite with land_fields;
      rewrite ?Hg; repeat split; reflexivity.
  - rewrite Hg. simpl. rewrite Hg. repeat split; reflexivity.
Qed.

(** The opening clamp does not touch the jump buffer either, and never
    clears the grounded flag. *)
Lemma clampToWorld_keeps_jump_fields (p : Player.t) :
  let p' := Level.clampToWorld p in
  Player.isAlive p' = Player.isAlive p
  /\ Player.jumpBuffer p' = Player.jumpBuffer p
  /\ Player.gravityDirection p' = Player.gravityDirection p
  /\ Player.jumpStrength p' = Player.jumpStrength p
  /\ (Player.isGrounded p = true -> Player.isGrounded p' = true).
Proof.
  cbv zeta. unfold Level.clampToWorld.
  destruct (_ === _); [destruct (_ >=? _) | destruct (_ <=? _)];
    autorewrite with land_fields; repeat split; auto.
Qed.

(** With no active segment the resolver is the opening clamp followed by
    the closing re-validation. *)
Lemma resolvePlayer_no_segments (p : Player.t) (input : InputManager.t)
      (dt : Q) (lvl : Level.t) :
  Level.activeSegments lvl = [] ->
  fst (Level.resolvePlayer p input dt lvl)
  = Level.revalidate (Level.clampToWorld p).
Proof.
  intro H. unfold Level.resolvePlayer. rewrite H. reflexivity.
Qed.

(** A player at floor height that is not moving up is landed by the
    opening clamp of the frame. *)
Lemma clampToWorld_lands_on_floor (dt : Q) (input : InputManager.t)
      (p : Player.t) :
  Player.isAlive p = true ->
  Player.gravityDirection p == 1 ->
  vy (Player.position p) == FLOOR_Y - Player.halfSize p ->
  0 <= vy (Player.velocity p) ->
  0 <= Player.gravity p ->
  0 <= Player.gravityScaleDuringBoost p ->
  0 <= Player.maxFallSpeed p ->
  0 <= dt ->
  Player.isGrounded (Level.clampToWorld (fst (Player.update dt input p))) = true.
Proof.
  intros Halive Hdir Hy Hv Hg Hs Hmax Hdt.
  pose proof (update_fields dt input p Halive) as F. cbv zeta in F.
  destruct F as (_ & _ & Fdir & _ & Fsize & _ & _ & Fv & Fy).
  set (p1 := fst (Player.update dt input p)) in *.
  unfold Level.clampToWorld.
  rewrite Fdir, (seq_true _ _ Hdir).
  assert (Hv1 : 0 <= vy (Player.velocity p1)).
  { rewrite Fv. apply Q.min_glb; [exact Hmax |].
    apply Q.max_le_iff. right.
    assert (0 <= Player.gravity p * Player.gravityDirection p
                 * (if Player.boostTimer p >? 0
                    then Player.gravityScaleDuringBoost p else 1) * dt).
    { repeat apply Qmult_le_0_compat; try lra.
      destruct (_ >? _); lra. }
    lra. }
  assert (Hb : FLOOR_Y <= Rectangle.bottom (Player.getBounds p1)).
  { unfold Rectangle.bottom, Player.getBounds, Player.halfSize in *. simpl.
    rewrite Fy, Fsize.
    assert (0 <= vy (Player.velocity p1) * dt) by nra.
    literal_div. lra. }
  destruct (ge_reflect (Rectangle.bottom (Player.getBounds p1)) FLOOR_Y);
    [apply land_isGrounded | contradiction].
Qed.

(** C1.  Buffered-jump application.  For a live player with a positive
    jump buffer that is grounded or inside the coyote window,
    [postResolve] consumes the buffer, sets the vertical velocity to
    [-jumpStrength * gravityDirection] and clears the grounded flag and
    the coyote timer.  In particular a player under gravity [+1] resting
    at floor height whose jump press is queued ends the frame (update,
    resolution against the bare floor, post-resolve) with vertical
    velocity [-jumpStrength] and not grounded. *)
Theorem player_postResolve_applies_buffered_jump :
  (forall p : Player.t,
      Player.isAlive p = true ->
      0 < Player.jumpBuffer p ->
      Player.isGrounded p = true \/ 0 < Player.coyoteTimer p ->
      let p' := Player.postResolve p in
      Player.jumpBuffer p' = 0
      /\ vy (Player.velocity p')
         = - Player.jumpStrength p * Player.gravityDirection p
      /\ Player.isGrounded p' = false
      /\ Player.coyoteTimer p' = 0)
  /\ (forall (p : Player.t) (input : InputManager.t) (dt : Q) (lvl : Level.t),
         Player.isAlive p = true ->
         Player.gravityDirection p == 1 ->
         vy (Player.position p) == FLOOR_Y - Player.halfSize p ->
         0 <= vy (Player.velocity p) ->
         0 <= Player.gravity p ->
         0 <= Player.gravityScaleDuringBoost p ->
         0 <= Player.maxFallSpeed p ->
         (0 < InputManager.jumpQueue input)%nat ->
         0 <= dt -> dt < Player.jumpBufferTime p ->
         Level.activeSegments lvl = [] ->
         let (p1, input1) := Player.update dt input p in
         let (p2, _) := Level.resolvePlayer p1 input1 dt lvl in
         let p3 := Player.postResolve p2 in
         vy (Player.velocity p3) == - Player.jumpStrength p
         /\ Player.isGrounded p3 = false).
Proof.
  split.
  - intros p Halive Hbuf Hground. cbv zeta.
    rewrite (postResolve_jumps p Halive Hbuf Hground).
    repeat split; reflexivity.
  - intros p input dt lvl Halive Hdir Hy Hv Hg Hs Hmax Hq Hdt0 Hdt Hsegs.
    pose proof (clampToWorld_lands_on_floor dt input p
                  Halive Hdir Hy Hv Hg Hs Hmax Hdt0) as Hland.
    pose proof (update_fields dt input p Halive) as F. cbv zeta in F.
    destruct F as (Falive & _ & Fdir & Fjs & _ & Fbuf & _).
    pose proof (resolvePlayer_no_segments
                  (fst (Player.update dt input p))
                  (snd (Player.update dt input p)) dt lvl Hsegs) as R.
    destruct (Player.update dt input p) as [p1 input1]. simpl fst in *.
    simpl snd in *.
    destruct (Level.resolvePlayer p1 input1 dt lvl) as [p2 lvl2].
    simpl in R. subst p2.
    pose proof (clampToWorld_keeps_jump_fields p1) as C. cbv zeta in C.
    destruct C as (Calive & Cbuf & Cdir & Cjs & _).
    pose proof (revalidate_keeps_jump_fields (Level.clampToWorld p1)) as V.
    cbv zeta in V. destruct V as (Valive & Vbuf & Vdir & Vjs & Vg).
    set (p2 := Level.revalidate (Level.clampToWorld p1)) in *.
    assert (Hrequested : fst (InputManager.consumeJumpRequest input) = true).
    { unfold InputManager.consumeJumpRequest.
      apply Nat.ltb_lt in Hq. rewrite Hq. reflexivity. }
    rewrite Hrequested in Fbuf.
    assert (Hbuf2 : 0 < Player.jumpBuffer p2).
    { rewrite Vbuf, Cbuf, Fbuf. apply Q.max_lt_iff. right. lra. }
    assert (Halive2 : Player.isAlive p2 = true) by congruence.
    assert (Hg2 : Player.isGrounded p2 = true) by congruence.
    rewrite (postResolve_jumps p2 Halive2 Hbuf2 (or_introl Hg2)).
    split; [| reflexivity].
    simpl. rewrite Vjs, Cjs, Fjs, Vdir, Cdir, Fdir, Hdir. lra.
Qed.

Lemma player_postResolve_applies_buffered_jump_witness :
  let p := Player.set_jumpBuffer 0.12 (Player.land FLOOR_Y Player.new) in
  vy (Player.velocity (Player.postResolve p)) = - 900 * 1
  /\ (let (p1, input1) :=
        Player.update (1 / 60) (InputManager.handleJumpPress InputManager.new)
                      Player.new in
      let (p2, _) :=
        Level.resolvePlayer p1 input1 (1 / 60) (Level.new SEGMENT_LIBRARY) in
      vy (Player.velocity (Player.postResolve p2)) == - 900).
Proof.
  split.
  - apply (proj1 player_postResolve_applies_buffered_jump
             (Player.set_jumpBuffer 0.12 (Player.land FLOOR_Y Player.new)));
      [reflexivity | reflexivity | left; reflexivity].
  - apply (proj2 player_postResolve_applies_buffered_jump
             Player.new (InputManager.handleJumpPress InputManager.new)
             (1 / 60) (Level.new SEGMENT_LIBRARY));
      try reflexivity; try (simpl; lia); vm_compute; try discriminate;
      reflexivity.
Defined.

(** C5.  Gravity flip.  Requesting the current direction changes nothing.
    Requesting the opposite one makes it the new direction, zeroes the
    vertical velocity, clears the grounded flag and the coyote timer, and
    clamps the height into the band of the new direction: at most
    [FLOOR_Y - halfSize] when flipping to [+1], at least
    [CEILING_Y + halfSize] when flipping to [-1]. *)
Theorem player_flipGravity_spec (p : Player.t) (target : Q) :
  (target == Player.gravityDirection p ->
   Player.flipGravity (Some target) p = p)
  /\ (Player.gravityDirection p == 1 \/ Player.gravityDirection p == -1 ->
      target == - Player.gravityDirection p ->
      let p' := Player.flipGravity (Some target) p in
      Player.gravityDirection p' = target
      /\ vy (Player.velocity p') = 0
      /\ Player.isGrounded p' = false
      /\ Player.coyoteTimer p' = 0
      /\ (target == 1 ->
          vy (Player.position p')
          = Qmin (vy (Player.position p)) (FLOOR_Y - Player.halfSize p)
          /\ vy (Player.position p') <= FLOOR_Y - Player.halfSize p)
      /\ (target == -1 ->
          vy (Player.position p')
          = Qmax (vy (Player.position p)) (CEILING_Y + Player.halfSize p)
          /\ CEILING_Y + Player.halfSize p <= vy (Player.position p'))).
Proof.
  unfold Player.flipGravity. simpl Js.nullish. split.
  - intro H. rewrite (seq_true _ _ H). reflexivity.
  - intros Hdir Hopp. cbv zeta.
    rewrite (seq_false target (Player.gravityDirection p))
      by (destruct Hdir; lra).
    destruct (seq_reflect target 1) as [E | E]; simpl;
      (split; [reflexivity | split; [reflexivity | split; [reflexivity |
       split; [reflexivity | split]]]]); intro H; try lra.
    + split; [reflexivity | apply Q.le_min_r].
    + split; [reflexivity | apply Q.le_max_r].
Qed.

Lemma player_flipGravity_spec_witness :
  let p' := Player.flipGravity (Some (-1)) Player.new in
  Player.gravityDirection p' = -1
  /\ vy (Player.velocity p') = 0
  /\ CEILING_Y + Player.halfSize Player.new <= vy (Player.position p').
Proof.
  destruct (proj2 (player_flipGravity_spec Player.new (-1)))
    as (Hd & Hv & _ & _ & _ & Hup).
  - left. reflexivity.
  - reflexivity.
  - destruct (Hup ltac:(reflexivity)) as [_ Hy].
    cbv zeta. repeat split; assumption.
Defined.

(** ** Boosts *)

(** C10.  A boost whose [gravityScale] is absent or zero leaves
    [gravityScaleDuringBoost] as it was, while the speed multiplier and the
    boost timer still follow the max rule; only a nonzero [gravityScale]
    replaces the stored scale. *)
Theorem player_applyBoost_falsy_gravityScale (p : Player.t) (b : Player.Boost) :
  (Player.gravityScale b = None
   \/ (exists g, Player.gravityScale b = Some g /\ g == 0) ->
   Player.gravityScaleDuringBoost (Player.applyBoost b p)
   = Player.gravityScaleDuringBoost p)
  /\ (forall g, Player.gravityScale b = Some g -> ~ g == 0 ->
      Player.gravityScaleDuringBoost (Player.applyBoost b p) = g)
  /\ Player.speedMultiplier (Player.applyBoost b p)
     = Qmax (Player.multiplier b ?? 1) (Player.speedMultiplier p)
  /\ Player.boostTimer (Player.applyBoost b p)
     = Qmax (Player.duration b ?? 0) (Player.boostTimer p).
Proof.
  unfold Player.applyBoost, Js.truthy.
  split; [| split; [| split]].
  - intros [-> | [g [-> Hg]]]; [reflexivity |].
    rewrite (seq_true _ _ Hg). reflexivity.
  - intros g -> Hg. rewrite (seq_false _ _ Hg). reflexivity.
  - destruct (Player.gravityScale b) as [g|]; [destruct (g === 0) |];
      reflexivity.
  - destruct (Player.gravityScale b) as [g|]; [destruct (g === 0) |];
      reflexivity.
Qed.

Lemma player_applyBoost_falsy_gravityScale_witness :
  Player.gravityScaleDuringBoost
    (Player.applyBoost (Player.boost (Some 1.35) (Some 1.2) (Some 0)) Player.new)
  = 0.65.
Proof.
  apply (proj1 (player_applyBoost_falsy_gravityScale Player.new
                  (Player.boost (Some 1.35) (Some 1.2) (Some 0)))).
  right. exists 0. split; reflexivity.
Defined.

Lemma applyBoost_speedMultiplier (b : Player.Boost) (p : Player.t) :
  Player.speedMultiplier (Player.applyBoost b p)
  = Qmax (Player.multiplier b ?? 1) (Player.speedMultiplier p).
Proof. unfold Player.applyBoost. destruct (Js.truthy _); reflexivity. Qed.

Lemma applyBoost_boostTimer (b : Player.Boost) (p : Player.t) :
  Player.boostTimer (Player.applyBoost b p)
  = Qmax (Player.duration b ?? 0) (Player.boostTimer p).
Proof. unfold Player.applyBoost. destruct (Js.truthy _); reflexivity. Qed.

(** The boost fields after [update]. *)
Lemma update_boost_fields (dt : Q) (input : InputManager.t) (p : Player.t) :
  let p1 := fst (Player.update dt input p) in
  (Player.isAlive p = false -> p1 = p)
  /\ Player.isAlive p1 = Player.isAlive p
  /\ (Player.isAlive p = true ->
      Player.boostTimer p1
      = (if Player.boostTimer p >? 0
         then Qmax 0 (Player.boostTimer p - dt) else Player.boostTimer p)
      /\ Player.speedMultiplier p1
         = (if Player.boostTimer p >? 0
            then if Qmax 0 (Player.boostTimer p - dt) === 0
                 then 1 else Player.speedMultiplier p
            else Player.speedMultiplier p)).
Proof.
  cbv zeta. unfold Player.update.
  destruct (Player.isAlive p) eqn:Halive; simpl negb; cbv iota.
  2: { repeat split; try reflexivity; try discriminate. exact Halive. }
  destruct (InputManager.consumeJumpRequest input) as [requested input'].
  cbv zeta. simpl fst.
  destruct requested; simpl;
    destruct (Player.boostTimer p >? 0); simpl;
    repeat match goal with
      | |- context [if ?c then _ else _] => destruct c; simpl
      end;
    repeat split; solve [reflexivity | exact Halive | discriminate].
Qed.

(** Once a boost has been started, either its timer is still running or
    the multiplier is back to one; [update] keeps this. *)
Lemma update_keeps_boost_or_unit (dt : Q) (input : InputManager.t) (p : Player.t) :
  0 < Player.boostTimer p \/ Player.speedMultiplier p = 1 ->
  let p1 := fst (Player.update dt input p) in
  0 < Player.boostTimer p1 \/ Player.speedMultiplier p1 = 1.
Proof.
  intros H. cbv zeta.
  destruct (update_boost_fields dt input p) as (Hdead & _ & Hlive).
  destruct (Player.isAlive p) eqn:Halive.
  - destruct (Hlive eq_refl) as [-> ->].
    destruct (gt_reflect (Player.boostTimer p) 0) as [Hpos | Hnon].
    + destruct (seq_reflect (Qmax 0 (Player.boostTimer p - dt)) 0) as [E | E];
        [right; reflexivity | left].
      pose proof (Q.le_max_l 0 (Player.boostTimer p - dt)).
      apply Qle_lteq in H0. destruct H0 as [? | H0]; [assumption |].
      exfalso. apply E. symmetry. exact H0.
    + destruct H as [H | H]; [contradiction | right; exact H].
  - rewrite (Hdead eq_refl). exact H.
Qed.

Lemma updates_keep_boost_or_unit (frames : list (Q * InputManager.t)) :
  forall p : Player.t,
    0 < Player.boostTimer p \/ Player.speedMultiplier p = 1 ->
    0 < Player.boostTimer (updates frames p)
    \/ Player.speedMultiplier (updates frames p) = 1.
Proof.
  induction frames as [| [dt input] rest IH]; intros p H; simpl.
  - exact H.
  - apply IH. apply update_keeps_boost_or_unit. exact H.
Qed.

Lemma elapsed_nonneg (frames : list (Q * InputManager.t)) :
  (forall frame, In frame frames -> 0 <= fst frame) -> 0 <= elapsed frames.
Proof.
  induction frames as [| f rest IH]; intro H; simpl; [lra |].
  assert (0 <= fst f) by (apply H; left; reflexivity).
  assert (0 <= elapsed rest) by (apply IH; intros g Hg; apply H; right; exact Hg).
  lra.
Qed.

(** Without further boosts and with non-negative time steps the boost
    timer never grows and never becomes negative, and the multiplier is
    either the one the run started with or one. *)
Lemma updates_boost_monotone (frames : list (Q * InputManager.t)) :
  forall p : Player.t,
    0 <= Player.boostTimer p ->
    (forall frame, In frame frames -> 0 <= fst frame) ->
    (0 <= Player.boostTimer (updates frames p)
     /\ Player.boostTimer (updates frames p) <= Player.boostTimer p)
    /\ (Player.speedMultiplier (updates frames p) = Player.speedMultiplier p
        \/ Player.speedMultiplier (updates frames p) = 1).
Proof.
  induction frames as [| [dt input] rest IH]; intros p Hb Hdt; simpl.
  - split; [split; lra | left; reflexivity].
  - assert (Hdt0 : 0 <= dt) by (apply (Hdt (dt, input)); left; reflexivity).
    assert (Hrest : forall frame, In frame rest -> 0 <= fst frame)
      by (intros f Hf; apply Hdt; right; exact Hf).
    destruct (update_boost_fields dt input p) as (Hdead & _ & Hlive).
    set (p1 := fst (Player.update dt input p)) in *.
    assert (H1 : (0 <= Player.boostTimer p1
                  /\ Player.boostTimer p1 <= Player.boostTimer p)
                 /\ (Player.speedMultiplier p1 = Player.speedMultiplier p
                     \/ Player.speedMultiplier p1 = 1)).
    { destruct (Player.isAlive p).
      - destruct (Hlive eq_refl) as [-> ->].
        destruct (gt_reflect (Player.boostTimer p) 0).
        + split.
          * split; [apply Q.le_max_l |]. apply Q.max_lub; lra.
          * destruct (_ === _); [right | left]; reflexivity.
        + split; [split; lra | left; reflexivity].
      - rewrite (Hdead eq_refl). split; [split; lra | left; reflexivity]. }
    destruct H1 as [[H1a H1b] H1c].
    destruct (IH p1 H1a Hrest) as [[IHa IHb] IHc].
    split; [split; lra |].
    destruct IHc as [-> | ->]; [exact H1c | right; reflexivity].
Qed.

(** A player whose boost timer is not positive keeps its timer and its
    multiplier through [update]. *)
Lemma updates_without_boost (frames : list (Q * InputManager.t)) :
  forall p : Player.t,
    Player.boostTimer p <= 0 ->
    Player.boostTimer (updates frames p) = Player.boostTimer p
    /\ Player.speedMultiplier (updates frames p) = Player.speedMultiplier p.
Proof.
  induction frames as [| [dt input] rest IH]; intros p Hb; simpl.
  - split; reflexivity.
  - destruct (update_boost_fields dt input p) as (Hdead & _ & Hlive).
    set (p1 := fst (Player.update dt input p)) in *.
    assert (H1 : Player.boostTimer p1 = Player.boostTimer p
                 /\ Player.speedMultiplier p1 = Player.speedMultiplier p).
    { destruct (Player.isAlive p).
      - destruct (Hlive eq_refl) as [-> ->].
        destruct (gt_reflect (Player.boostTimer p) 0); [lra |].
        split; reflexivity.
      - rewrite (Hdead eq_refl). split; reflexivity. }
    destruct H1 as [H1a H1b].
    destruct (IH p1) as [IHa IHb]; [rewrite H1a; exact Hb |].
    rewrite IHa, IHb. split; assumption.
Qed.

(** C6.  Boost combination is max-based and monotone.  [applyBoost]
    stores the larger of the requested multiplier (default 1) and the
    current one, and the larger of the requested duration (default 0) and
    the current timer.  After two boosts, in either order, the multiplier
    is the largest of the two requested multipliers and the one held
    before, and the timer the largest of the two requested durations and
    the one held before: at least each request, at least what either boost
    alone would have produced, and not below the previous values.

    Decay.  Whenever a positive timer has decayed to zero through [update]
    steps, the multiplier is exactly one.  Step by step, for a live player
    with a positive timer: a step of at least the timer brings the timer
    to zero and the multiplier to one; a shorter step takes the step off
    the timer and keeps the multiplier.  Over any run with non-negative
    steps the timer never grows or turns negative and the multiplier is
    the initial one or one; with a timer that is not positive, nothing
    changes any more. *)
Theorem player_applyBoost_max_and_decay :
  (forall (p : Player.t) (b1 b2 : Player.Boost),
      let m1 := Player.multiplier b1 ?? 1 in
      let m2 := Player.multiplier b2 ?? 1 in
      let d1 := Player.duration b1 ?? 0 in
      let d2 := Player.duration b2 ?? 0 in
      let alone1 := Player.applyBoost b1 p in
      let alone2 := Player.applyBoost b2 p in
      let both := Player.applyBoost b2 (Player.applyBoost b1 p) in
      let swapped := Player.applyBoost b1 (Player.applyBoost b2 p) in
      (Player.speedMultiplier alone1 = Qmax m1 (Player.speedMultiplier p)
       /\ Player.speedMultiplier both
          == Qmax (Qmax m1 m2) (Player.speedMultiplier p)
       /\ Player.speedMultiplier swapped == Player.speedMultiplier both
       /\ m1 <= Player.speedMultiplier both
       /\ m2 <= Player.speedMultiplier both
       /\ Player.speedMultiplier p <= Player.speedMultiplier both
       /\ Player.speedMultiplier alone1 <= Player.speedMultiplier both
       /\ Player.speedMultiplier alone2 <= Player.speedMultiplier both)
      /\ (Player.boostTimer alone1 = Qmax d1 (Player.boostTimer p)
          /\ Player.boostTimer both
             == Qmax (Qmax d1 d2) (Player.boostTimer p)
          /\ Player.boostTimer swapped == Player.boostTimer both
          /\ d1 <= Player.boostTimer both
          /\ d2 <= Player.boostTimer both
          /\ Player.boostTimer p <= Player.boostTimer both
          /\ Player.boostTimer alone1 <= Player.boostTimer both
          /\ Player.boostTimer alone2 <= Player.boostTimer both))
  /\ (forall (p : Player.t) (frames : list (Q * InputManager.t)),
         0 < Player.boostTimer p ->
         Player.boostTimer (updates frames p) == 0 ->
         Player.speedMultiplier (updates frames p) = 1)
  /\ (forall (p : Player.t) (dt : Q) (input : InputManager.t),
         Player.isAlive p = true ->
         0 < Player.boostTimer p ->
         let p1 := fst (Player.update dt input p) in
         (Player.boostTimer p <= dt ->
          Player.boostTimer p1 == 0 /\ Player.speedMultiplier p1 = 1)
         /\ (dt < Player.boostTimer p ->
             Player.boostTimer p1 == Player.boostTimer p - dt
             /\ Player.speedMultiplier p1 = Player.speedMultiplier p))
  /\ (forall (p : Player.t) (frames : list (Q * InputManager.t)),
         (0 <= Player.boostTimer p ->
          (forall frame, In frame frames -> 0 <= fst frame) ->
          (0 <= Player.boostTimer (updates frames p)
           /\ Player.boostTimer (updates frames p) <= Player.boostTimer p)
          /\ (Player.speedMultiplier (updates frames p)
              = Player.speedMultiplier p
              \/ Player.speedMultiplier (updates frames p) = 1))
         /\ (Player.boostTimer p <= 0 ->
             Player.boostTimer (updates frames p) = Player.boostTimer p
             /\ Player.speedMultiplier (updates frames p)
                = Player.speedMultiplier p)).
Proof.
  split; [| split; [| split]].
  - intros p b1 b2. cbv zeta.
    rewrite !applyBoost_speedMultiplier, !applyBoost_boostTimer.
    set (m1 := Player.multiplier b1 ?? 1).
    set (m2 := Player.multiplier b2 ?? 1).
    set (d1 := Player.duration b1 ?? 0).
    set (d2 := Player.duration b2 ?? 0).
    set (m := Player.speedMultiplier p).
    set (d := Player.boostTimer p).
    assert (Hmax : forall a b c : Q,
               Qmax b (Qmax a c) == Qmax (Qmax a b) c
               /\ Qmax a (Qmax b c) == Qmax b (Qmax a c)
               /\ a <= Qmax b (Qmax a c)
               /\ b <= Qmax b (Qmax a c)
               /\ c <= Qmax b (Qmax a c)
               /\ Qmax a c <= Qmax b (Qmax a c)
               /\ Qmax b c <= Qmax b (Qmax a c)).
    { intros a b c.
      destruct (Q.max_spec a c) as [[? Eac] | [? Eac]];
        destruct (Q.max_spec b c) as [[? Ebc] | [? Ebc]];
        destruct (Q.max_spec a b) as [[? Eab] | [? Eab]];
        destruct (Q.max_spec b (Qmax a c)) as [[? E1] | [? E1]];
        destruct (Q.max_spec (Qmax a b) c) as [[? E2] | [? E2]];
        destruct (Q.max_spec a (Qmax b c)) as [[? E3] | [? E3]];
        rewrite ?E1, ?E2, ?E3, ?Eac, ?Ebc, ?Eab in *;
        repeat split; lra. }
    split.
    + destruct (Hmax m1 m2 m) as (H1 & H2 & H3 & H4 & H5 & H6 & H7).
      split; [reflexivity |]. split; [exact H1 |]. split; [exact H2 |].
      repeat split; assumption.
    + destruct (Hmax d1 d2 d) as (H1 & H2 & H3 & H4 & H5 & H6 & H7).
      split; [reflexivity |]. split; [exact H1 |]. split; [exact H2 |].
      repeat split; assumption.
  - intros p frames Hpos Hzero.
    destruct (updates_keep_boost_or_unit frames p (or_introl Hpos)) as [H | H];
      [lra | exact H].
  - intros p dt input Halive Hpos. cbv zeta.
    destruct (update_boost_fields dt input p) as (_ & _ & Hlive).
    destruct (Hlive Halive) as [-> ->].
    destruct (gt_reflect (Player.boostTimer p) 0) as [_ | Hnon];
      [| contradiction].
    split.
    + intro Hlong.
      assert (E : Qmax 0 (Player.boostTimer p - dt) == 0)
        by (apply Q.max_l; lra).
      split; [exact E |]. rewrite (seq_true _ _ E). reflexivity.
    + intro Hshort.
      assert (E : Qmax 0 (Player.boostTimer p - dt)
                  == Player.boostTimer p - dt)
        by (apply Q.max_r; lra).
      split; [exact E |].
      rewrite seq_false; [reflexivity |]. rewrite E. lra.
  - intros p frames. split.
    + intros Hb Hdt. apply updates_boost_monotone; assumption.
    + intro Hb. apply updates_without_boost. exact Hb.
Qed.

(** A boost of 1.5 seconds at multiplier 1.35, then 48 frames of 1/32
    second (all values of the run are binary fractions): the timer is
    zero and the multiplier one. *)
Lemma player_applyBoost_max_and_decay_witness :
  let boosted :=
    Player.applyBoost (Player.boost (Some 1.35) (Some 1.5) (Some 0.55))
                      Player.new in
  let frames := repeat (1 / 32, InputManager.new) 48 in
  0 < Player.boostTimer boosted
  /\ Player.boostTimer (updates frames boosted) == 0
  /\ Player.speedMultiplier (updates frames boosted) = 1.
Proof.
  cbv zeta.
  assert (Hpos : 0 < Player.boostTimer
                       (Player.applyBoost
                          (Player.boost (Some 1.35) (Some 1.5) (Some 0.55))
                          Player.new)) by reflexivity.
  assert (Hzero : Player.boostTimer
                    (updates (repeat (1 / 32, InputManager.new) 48)
                       (Player.applyBoost
                          (Player.boost (Some 1.35) (Some 1.5) (Some 0.55))
                          Player.new)) == 0)
    by (vm_compute; reflexivity).
  split; [exact Hpos |]. split; [exact Hzero |].
  exact (proj1 (proj2 player_applyBoost_max_and_decay)
           (Player.applyBoost (Player.boost (Some 1.35) (Some 1.5) (Some 0.55))
                              Player.new)
           (repeat (1 / 32, InputManager.new) 48) Hpos Hzero).
Defined.

(** ** Coyote time *)

Lemma update_jumpBufferTime (dt : Q) (input : InputManager.t) (p : Player.t) :
  Player.jumpBufferTime (fst (Player.update dt input p)) = Player.jumpBufferTime p.
Proof.
  unfold Player.update. destruct (negb (Player.isAlive p)); [reflexivity |].
  destruct (InputManager.consumeJumpRequest input) as [requested input'].
  cbv zeta. simpl fst.
  destruct requested; simpl;
    repeat match goal with
      | |- context [if ?c then _ else _] => destruct c; simpl
      end; reflexivity.
Qed.

Lemma consumeJumpRequest_pressed (input : InputManager.t) :
  (0 < InputManager.jumpQueue input)%nat ->
  fst (InputManager.consumeJumpRequest input) = true.
Proof.
  intro H. unfold InputManager.consumeJumpRequest.
  apply Nat.ltb_lt in H. rewrite H. reflexivity.
Qed.

Lemma consumeJumpRequest_idle (input : InputManager.t) :
  InputManager.jumpQueue input = 0%nat ->
  fst (InputManager.consumeJumpRequest input) = false.
Proof.
  intro H. unfold InputManager.consumeJumpRequest. rewrite H. reflexivity.
Qed.

(** A frame with a queued press, for a live player that is grounded or
    whose coyote timer outlasts the frame: the jump is applied. *)
Lemma pressed_frame_jumps (dt : Q) (input : InputManager.t) (p : Player.t) :
  Player.isAlive p = true ->
  (0 < InputManager.jumpQueue input)%nat ->
  dt < Player.jumpBufferTime p ->
  Player.isGrounded p = true \/ dt < Player.coyoteTimer p ->
  let p' := Player.postResolve (fst (Player.update dt input p)) in
  vy (Player.velocity p') = - Player.jumpStrength p * Player.gravityDirection p
  /\ Player.jumpBuffer p' = 0
  /\ Player.isGrounded p' = false.
Proof.
  intros Halive Hq Hdt Hground. cbv zeta.
  pose proof (update_fields dt input p Halive) as F. cbv zeta in F.
  destruct F as (Falive & Fg & Fdir & Fjs & _ & Fbuf & Fcoy & _).
  rewrite (consumeJumpRequest_pressed input Hq) in Fbuf.
  set (p1 := fst (Player.update dt input p)) in *.
  rewrite (postResolve_jumps p1).
  - simpl. rewrite Fjs, Fdir. repeat split; reflexivity.
  - exact Falive.
  - rewrite Fbuf. apply Q.max_lt_iff. right. lra.
  - destruct Hground as [Hg | Hc]; [left; congruence | right].
    rewrite Fcoy. apply Q.max_lt_iff. right. lra.
Qed.

(** Frames without a press and without contact leave a grounded player
    with an empty buffer as it is in every field a jump reads. *)
Lemma airborne_keeps_grounded (frames : list (Q * InputManager.t)) :
  forall p : Player.t,
    Player.isAlive p = true ->
    Player.isGrounded p = true ->
    Player.jumpBuffer p <= 0 ->
    (forall frame, In frame frames ->
                   0 <= fst frame /\ InputManager.jumpQueue (snd frame) = 0%nat) ->
    let q := airborne frames p in
    Player.isAlive q = true
    /\ Player.isGrounded q = true
    /\ Player.gravityDirection q = Player.gravityDirection p
    /\ Player.jumpStrength q = Player.jumpStrength p
    /\ Player.jumpBufferTime q = Player.jumpBufferTime p.
Proof.
  induction frames as [| [dt input] rest IH]; intros p Halive Hg Hbuf Hframes;
    simpl.
  - repeat split; assumption.
  - destruct (Hframes (dt, input) (or_introl eq_refl)) as [Hdt Hidle].
    simpl in Hdt, Hidle.
    pose proof (update_fields dt input p Halive) as F. cbv zeta in F.
    destruct F as (Falive & Fg & Fdir & Fjs & _ & Fbuf & _).
    rewrite (consumeJumpRequest_idle input Hidle) in Fbuf.
    pose proof (update_jumpBufferTime dt input p) as Fjbt.
    set (p1 := fst (Player.update dt input p)) in *.
    assert (Hbuf1 : Player.jumpBuffer p1 <= 0).
    { rewrite Fbuf. apply Q.max_lub; lra. }
    assert (Hpost : Player.postResolve p1 = p1).
    { unfold Player.postResolve. rewrite Falive, (gt_false _ _ Hbuf1).
      reflexivity. }
    rewrite Hpost.
    destruct (IH p1) as (A & B & C & D & E); try congruence.
    + intros f Hf. apply Hframes. right. exact Hf.
    + repeat split; congruence.
Qed.

(** C7.  Coyote time.  A player lands on a surface with no jump pending,
    then spends any number of frames without contact and without a press;
    a press queued in a frame that ends no later than [coyoteTime] after
    the landing is answered in that very frame by the grounded jump of
    [postResolve]: the vertical velocity becomes
    [-jumpStrength * gravityDirection] and the buffer is consumed.  The
    same holds for any live player whose coyote timer outlasts the frame
    of the press, whatever its grounded flag. *)
Theorem player_coyote_jump :
  (forall (p : Player.t) (surfaceY : Q)
          (frames : list (Q * InputManager.t))
          (dt : Q) (input : InputManager.t),
      Player.isAlive p = true ->
      Player.jumpBuffer p <= 0 ->
      (forall frame, In frame frames ->
                     0 <= fst frame /\ InputManager.jumpQueue (snd frame) = 0%nat) ->
      (0 < InputManager.jumpQueue input)%nat ->
      0 <= dt -> dt < Player.jumpBufferTime p ->
      elapsed frames + dt <= Player.coyoteTime p ->
      let left_platform := airborne frames (Player.land surfaceY p) in
      let p' := Player.postResolve (fst (Player.update dt input left_platform)) in
      vy (Player.velocity p')
      = - Player.jumpStrength p * Player.gravityDirection p
      /\ Player.jumpBuffer p' = 0
      /\ Player.isGrounded p' = false)
  /\ (forall (p : Player.t) (dt : Q) (input : InputManager.t),
         Player.isAlive p = true ->
         (0 < InputManager.jumpQueue input)%nat ->
         dt < Player.jumpBufferTime p ->
         dt < Player.coyoteTimer p ->
         let p' := Player.postResolve (fst (Player.update dt input p)) in
         vy (Player.velocity p')
         = - Player.jumpStrength p * Player.gravityDirection p
         /\ Player.jumpBuffer p' = 0
         /\ Player.isGrounded p' = false).
Proof.
  split.
  - intros p surfaceY frames dt input Halive Hbuf Hframes Hq Hdt0 Hdt Hwindow.
    cbv zeta.
    destruct (airborne_keeps_grounded frames (Player.land surfaceY p))
      as (A & B & C & D & E).
    + rewrite land_isAlive. exact Halive.
    + apply land_isGrounded.
    + rewrite land_jumpBuffer. exact Hbuf.
    + exact Hframes.
    + rewrite land_gravityDirection in C. rewrite land_jumpStrength in D.
      assert (E' : Player.jumpBufferTime (airborne frames (Player.land surfaceY p))
                   = Player.jumpBufferTime p).
      { rewrite E. unfold Player.land. destruct (_ === _); reflexivity. }
      rewrite <- C, <- D.
      apply pressed_frame_jumps; try assumption.
      * rewrite E'. exact Hdt.
      * left. exact B.
  - intros p dt input Halive Hq Hdt Hcoy.
    apply pressed_frame_jumps; try assumption. right. exact Hcoy.
Qed.

Lemma player_coyote_jump_witness :
  let frames := repeat (1 / 60, InputManager.new) 3 in
  let input := InputManager.handleJumpPress InputManager.new in
  let left_platform := airborne frames (Player.land 400 Player.new) in
  let p' := Player.postResolve (fst (Player.update (1 / 60) input left_platform)) in
  vy (Player.velocity p') = - 900 * 1
  /\ Player.jumpBuffer p' = 0
  /\ Player.isGrounded p' = false.
Proof.
  apply (proj1 player_coyote_jump Player.new 400
           (repeat (1 / 60, InputManager.new) 3) (1 / 60)
           (InputManager.handleJumpPress InputManager.new)).
  - reflexivity.
  - discriminate.
  - intros frame H. apply repeat_spec in H. subst frame.
    split; [discriminate | reflexivity].
  - simpl. lia.
  - discriminate.
  - reflexivity.
  - vm_compute. discriminate.
Defined.

(** ** Spikes *)

Lemma die_isAlive (p : Player.t) : Player.isAlive (Player.die p) = false.
Proof. reflexivity. Qed.

(** The entity loop at a spike the player collides with. *)
Lemma resolveEntities_spike_hit (input : InputManager.t) (dt offset : Q)
      (previousRect : Rectangle.t) (player : Player.t)
      (playerRect : Rectangle.t) (entity : SegmentEntity.t)
      (rest : list SegmentEntity.t) :
  SegmentEntity.type entity = spike ->
  Level.checkSpikeCollision playerRect offset
    (SegmentEntity.updateCooldown dt entity) = true ->
  Level.resolveEntities input dt offset previousRect player playerRect
                        (entity :: rest)
  = (Level.resolving (Player.die player) playerRect true,
     SegmentEntity.updateCooldown dt entity :: rest).
Proof.
  intros Htype Hhit. simpl. unfold Level.resolveEntity.
  assert (Htype' : SegmentEntity.type (SegmentEntity.updateCooldown dt entity)
                   = spike).
  { unfold SegmentEntity.updateCooldown. destruct (_ >? _); exact Htype. }
  rewrite Htype', Hhit. reflexivity.
Qed.

(** The spike test reads the geometry and the orientation of the entity
    only, so the cooldown update that precedes it is immaterial. *)
Lemma checkSpikeCollision_cooled (playerRect : Rectangle.t) (offset dt : Q)
      (entity : SegmentEntity.t) :
  Level.checkSpikeCollision playerRect offset
    (SegmentEntity.updateCooldown dt entity)
  = Level.checkSpikeCollision playerRect offset entity.
Proof.
  unfold SegmentEntity.updateCooldown.
  destruct (_ >? _); reflexivity.
Qed.

(** A flagged result of the entity loop carries a dead player. *)
Lemma resolveEntities_returned_dead (input : InputManager.t) (dt offset : Q)
      (previousRect : Rectangle.t) (entities : list SegmentEntity.t) :
  forall (player : Player.t) (playerRect : Rectangle.t),
    let state := fst (Level.resolveEntities input dt offset previousRect
                                            player playerRect entities) in
    Level.r_returned state = true ->
    Player.isAlive (Level.r_player state) = false.
Proof.
  induction entities as [| entity rest IH]; intros player playerRect; simpl.
  - discriminate.
  - destruct (Level.resolveEntity input dt offset previousRect player
                                  playerRect entity) as [state entity'] eqn:E.
    destruct (Level.r_returned state) eqn:R.
    + simpl. intros _. revert E. unfold Level.resolveEntity.
      destruct (SegmentEntity.type _);
        repeat match goal with
          | |- context [let (_, _) := ?c in _] => destruct c
          | |- context [if ?c then _ else _] => destruct c
          end;
        intro E; inversion E; subst; simpl in R; try discriminate;
        reflexivity.
    + specialize (IH (Level.r_player state) (Level.r_rect state)).
      destruct (Level.resolveEntities input dt offset previousRect
                  (Level.r_player state) (Level.r_rect state) rest)
        as [state' rest'].
      simpl in *. exact IH.
Qed.

Lemma resolveSegments_returned_dead (input : InputManager.t)
      (dt visibleStart visibleEnd : Q) (previousRect : Rectangle.t)
      (segments : list LevelSegment.t) :
  forall (player : Player.t) (playerRect : Rectangle.t),
    let state := fst (Level.resolveSegments input dt visibleStart visibleEnd
                        previousRect player playerRect segments) in
    Level.r_returned state = true ->
    Player.isAlive (Level.r_player state) = false.
Proof.
  induction segments as [| segment rest IH]; intros player playerRect; simpl.
  - discriminate.
  - destruct (_ || _).
    + specialize (IH player playerRect).
      destruct (Level.resolveSegments input dt visibleStart visibleEnd
                  previousRect player playerRect rest) as [state rest'].
      simpl in *. exact IH.
    + pose proof (resolveEntities_returned_dead input dt
                    (LevelSegment.offset segment) previousRect
                    (LevelSegment.entities segment) player playerRect) as D.
      destruct (Level.resolveEntities input dt (LevelSegment.offset segment)
                  previousRect player playerRect
                  (LevelSegment.entities segment)) as [state entities'].
      simpl in D.
      destruct (Level.r_returned state) eqn:R.
      * simpl. intros _. apply D. reflexivity.
      * specialize (IH (Level.r_player state) (Level.r_rect state)).
        destruct (Level.resolveSegments input dt visibleStart visibleEnd
                    previousRect (Level.r_player state) (Level.r_rect state)
                    rest) as [state' rest'].
        simpl in *. exact IH.
Qed.

(** The entity loop on a list that continues after a prefix: the prefix is
    resolved first; if that did not end the method, the loop goes on with
    the player and the rectangle it left. *)
Lemma resolveEntities_app (input : InputManager.t) (dt offset : Q)
      (previousRect : Rectangle.t) (pre rest : list SegmentEntity.t) :
  forall (player : Player.t) (playerRect : Rectangle.t)
         (state : Level.Resolving) (pre' : list SegmentEntity.t),
    Level.resolveEntities input dt offset previousRect player playerRect pre
    = (state, pre') ->
    Level.r_returned state = false ->
    Level.resolveEntities input dt offset previousRect player playerRect
                          (pre ++ rest)
    = (fst (Level.resolveEntities input dt offset previousRect
              (Level.r_player state) (Level.r_rect state) rest),
       pre' ++ snd (Level.resolveEntities input dt offset previousRect
                      (Level.r_player state) (Level.r_rect state) rest)).
Proof.
  induction pre as [| entity pre IH]; intros player playerRect state pre' E R.
  - simpl in E. inversion E; subst. simpl.
    apply surjective_pairing.
  - simpl in E. simpl.
    destruct (Level.resolveEntity input dt offset previousRect player
                playerRect entity) as [first entity'].
    destruct (Level.r_returned first) eqn:R1.
    + inversion E; subst. congruence.
    + destruct (Level.resolveEntities input dt offset previousRect
                  (Level.r_player first) (Level.r_rect first) pre)
        as [middle pre1] eqn:E1.
      inversion E; subst.
      rewrite (IH _ _ _ _ E1 R). reflexivity.
Qed.

(** The same for the segment loop. *)
Lemma resolveSegments_app (input : InputManager.t)
      (dt visibleStart visibleEnd : Q) (previousRect : Rectangle.t)
      (before rest : list LevelSegment.t) :
  forall (player : Player.t) (playerRect : Rectangle.t)
         (state : Level.Resolving) (before' : list LevelSegment.t),
    Level.resolveSegments input dt visibleStart visibleEnd previousRect
                          player playerRect before
    = (state, before') ->
    Level.r_returned state = false ->
    Level.resolveSegments input dt visibleStart visibleEnd previousRect
                          player playerRect (before ++ rest)
    = (fst (Level.resolveSegments input dt visibleStart visibleEnd
              previousRect (Level.r_player state) (Level.r_rect state) rest),
       before' ++ snd (Level.resolveSegments input dt visibleStart visibleEnd
                         previousRect (Level.r_player state)
                         (Level.r_rect state) rest)).
Proof.
  induction before as [| segment before IH];
    intros player playerRect state before' E R.
  - simpl in E. inversion E; subst. simpl.
    apply surjective_pairing.
  - simpl in E. simpl.
    destruct (_ || _).
    + destruct (Level.resolveSegments input dt visibleStart visibleEnd
                  previousRect player playerRect before)
        as [middle before1] eqn:E1.
      inversion E; subst.
      rewrite (IH _ _ _ _ E1 R). reflexivity.
    + destruct (Level.resolveEntities input dt (LevelSegment.offset segment)
                  previousRect player playerRect
                  (LevelSegment.entities segment)) as [first entities'].
      destruct (Level.r_returned first) eqn:R1.
      * inversion E; subst. congruence.
      * destruct (Level.resolveSegments input dt visibleStart visibleEnd
                    previousRect (Level.r_player first) (Level.r_rect first)
                    before) as [middle before1] eqn:E1.
        inversion E; subst.
        rewrite (IH _ _ _ _ E1 R). reflexivity.
Qed.

(** The segment loop at a visible segment whose entity loop ended the
    method: the remaining segments are not visited. *)
Lemma resolveSegments_returned (input : InputManager.t)
      (dt visibleStart visibleEnd : Q) (previousRect : Rectangle.t)
      (player : Player.t) (playerRect : Rectangle.t)
      (segment : LevelSegment.t) (rest : list LevelSegment.t)
      (state : Level.Resolving) (entities' : list SegmentEntity.t) :
  (LevelSegment.end_ segment <? visibleStart)
  || (LevelSegment.offset segment >? visibleEnd) = false ->
  Level.resolveEntities input dt (LevelSegment.offset segment) previousRect
                        player playerRect (LevelSegment.entities segment)
  = (state, entities') ->
  Level.r_returned state = true ->
  Level.resolveSegments input dt visibleStart visibleEnd previousRect
                        player playerRect (segment :: rest)
  = (state,
     LevelSegment.make (LevelSegment.template segment) entities'
                       (LevelSegment.offset segment) :: rest).
Proof.
  intros Hvisible E R. simpl. rewrite Hvisible, E, R. reflexivity.
Qed.

(** The resolver at a spike the loops reach and the player collides
    with. *)
Lemma resolvePlayer_spike_hit (player : Player.t) (input : InputManager.t)
      (dt : Q) (lvl : Level.t) (before after : list LevelSegment.t)
      (segment : LevelSegment.t) (pre post : list SegmentEntity.t)
      (entity : SegmentEntity.t) (outer inner : Level.Resolving)
      (before' : list LevelSegment.t) (pre' : list SegmentEntity.t) :
  let visibleStart := Level.scrollX lvl - Level.recycleMargin lvl in
  let visibleEnd := Level.scrollX lvl + Level.viewportWorldWidth lvl
                    + Level.recycleMargin lvl in
  let previousRect := Player.getPreviousBounds player in
  let clamped := Level.clampToWorld player in
  Level.activeSegments lvl = before ++ segment :: after ->
  LevelSegment.entities segment = pre ++ entity :: post ->
  SegmentEntity.type entity = spike ->
  Level.resolveSegments input dt visibleStart visibleEnd previousRect
                        clamped (Player.getBounds clamped) before
  = (outer, before') ->
  Level.r_returned outer = false ->
  (LevelSegment.end_ segment <? visibleStart)
  || (LevelSegment.offset segment >? visibleEnd) = false ->
  Level.resolveEntities input dt (LevelSegment.offset segment) previousRect
                        (Level.r_player outer) (Level.r_rect outer) pre
  = (inner, pre') ->
  Level.r_returned inner = false ->
  Level.checkSpikeCollision (Level.r_rect inner) (LevelSegment.offset segment)
                            entity = true ->
  Level.resolvePlayer player input dt lvl
  = (Player.die (Level.r_player inner),
     Level.set_activeSegments
       (before'
        ++ LevelSegment.make (LevelSegment.template segment)
             (pre' ++ SegmentEntity.updateCooldown dt entity :: post)
             (LevelSegment.offset segment)
        :: after)
       lvl).
Proof.
  intros visibleStart visibleEnd previousRect clamped
         Hsegments Hentities Htype Hbefore Houter Hvisible Hpre Hinner Hhit.
  assert (Hloop :
    Level.resolveEntities input dt (LevelSegment.offset segment) previousRect
      (Level.r_player outer) (Level.r_rect outer)
      (LevelSegment.entities segment)
    = (Level.resolving (Player.die (Level.r_player inner))
                       (Level.r_rect inner) true,
       pre' ++ SegmentEntity.updateCooldown dt entity :: post)).
  { rewrite Hentities.
    rewrite (resolveEntities_app _ _ _ _ _ _ _ _ _ _ Hpre Hinner).
    rewrite resolveEntities_spike_hit;
      [reflexivity | exact Htype |].
    rewrite checkSpikeCollision_cooled. exact Hhit. }
  unfold Level.resolvePlayer.
  fold previousRect. fold clamped. fold visibleStart. fold visibleEnd.
  rewrite Hsegments.
  rewrite (resolveSegments_app _ _ _ _ _ _ _ _ _ _ _ Hbefore Houter).
  rewrite (resolveSegments_returned _ _ _ _ _ _ _ _ _ _ _ Hvisible Hloop
             eq_refl).
  reflexivity.
Qed.

(** The broad phase of the scenario: rectangles of positive size with the
    same horizontal centre and the same bottom edge intersect. *)
Lemma same_centre_same_bottom_intersect (P R : Rectangle.t) :
  0 < Rectangle.width P -> 0 < Rectangle.height P ->
  0 < Rectangle.width R -> 0 < Rectangle.height R ->
  (Rectangle.centerX P - Rectangle.left R) / Rectangle.width R == 0.5 ->
  Rectangle.bottom P == Rectangle.bottom R ->
  Rectangle.centerX P == Rectangle.centerX R
  /\ Rectangle.intersects P R = true.
Proof.
  intros wP hP wR hR Hrel Hbot.
  assert (Hc : Rectangle.centerX P - Rectangle.left R
               == 0.5 * Rectangle.width R).
  { rewrite <- Hrel. field. lra. }
  split.
  - unfold Rectangle.centerX, Rectangle.left in *. literal_div. lra.
  - apply intersects_true_iff.
    unfold Rectangle.centerX, Rectangle.left, Rectangle.right, Rectangle.top,
      Rectangle.bottom in *.
    literal_div. repeat split; lra.
Qed.

(** C4.  Spike collision.  For a spike rectangle of nonzero width the test
    succeeds exactly when the broad-phase rectangle test passes and the
    player's edge has crossed the sloped hazard line, taken at
    [relativeX = (playerRect.centerX - rect.left) / rect.width]: for
    orientation [up],
    [playerRect.bottom >= rect.bottom - |relativeX - 0.5| * height * 2],
    for [down] the mirrored test on [playerRect.top].  A player of positive
    size whose bottom edge equals [rect.bottom] at [relativeX = 0.5], that
    is with its centre over the centre of the rectangle, finds the hazard
    line at [rect.bottom] and collides with an [up] spike of positive
    size; a player entirely above the rectangle does not collide.

    A collision kills the player and ends the resolution of the frame,
    wherever the spike stands: take any active segment inside the window
    and any spike among its entities; if the loops reach the spike (the
    segments before it and the entities before it did not end the method)
    and the player collides with it, then [resolvePlayer] returns the
    player the loops had brought there, with [die] applied and nothing
    else (no entity acts after the kill and the closing re-validation is
    skipped), and the level in which the spike has had its cooldown update
    while the entities after it and the segments after its segment are
    exactly as they were. *)
Theorem level_spike_collision_spec :
  (forall (playerRect : Rectangle.t) (offset : Q) (entity : SegmentEntity.t),
      let rect := Level.entityRect offset entity in
      let relativeX :=
        (Rectangle.centerX playerRect - Rectangle.left rect)
        / Rectangle.width rect in
      ~ Rectangle.width rect == 0 ->
      (Level.checkSpikeCollision playerRect offset entity = true <->
       Rectangle.intersects playerRect rect = true
       /\ match SegmentEntity.orientation entity with
          | up => Rectangle.bottom playerRect
                  >= Rectangle.bottom rect
                     - Qabs (relativeX - 0.5) * Rectangle.height rect * 2
          | down => Rectangle.top playerRect
                    <= Rectangle.top rect
                       + Qabs (relativeX - 0.5) * Rectangle.height rect * 2
          end))
  /\ (forall (playerRect : Rectangle.t) (offset : Q) (entity : SegmentEntity.t),
         let rect := Level.entityRect offset entity in
         let relativeX :=
           (Rectangle.centerX playerRect - Rectangle.left rect)
           / Rectangle.width rect in
         SegmentEntity.orientation entity = up ->
         0 < Rectangle.width playerRect -> 0 < Rectangle.height playerRect ->
         0 < Rectangle.width rect -> 0 < Rectangle.height rect ->
         relativeX == 0.5 ->
         Rectangle.bottom playerRect == Rectangle.bottom rect ->
         Rectangle.centerX playerRect == Rectangle.centerX rect
         /\ Rectangle.bottom rect
            - Qabs (relativeX - 0.5) * Rectangle.height rect * 2
            == Rectangle.bottom rect
         /\ Level.checkSpikeCollision playerRect offset entity = true)
  /\ (forall (playerRect : Rectangle.t) (offset : Q) (entity : SegmentEntity.t),
         Rectangle.bottom playerRect
         <= Rectangle.top (Level.entityRect offset entity) ->
         Level.checkSpikeCollision playerRect offset entity = false)
  /\ (forall (player : Player.t) (input : InputManager.t) (dt : Q)
             (lvl : Level.t) (before after : list LevelSegment.t)
             (segment : LevelSegment.t) (pre post : list SegmentEntity.t)
             (entity : SegmentEntity.t) (outer inner : Level.Resolving)
             (before' : list LevelSegment.t) (pre' : list SegmentEntity.t),
         let visibleStart := Level.scrollX lvl - Level.recycleMargin lvl in
         let visibleEnd := Level.scrollX lvl + Level.viewportWorldWidth lvl
                           + Level.recycleMargin lvl in
         let previousRect := Player.getPreviousBounds player in
         let clamped := Level.clampToWorld player in
         Level.activeSegments lvl = before ++ segment :: after ->
         LevelSegment.entities segment = pre ++ entity :: post ->
         SegmentEntity.type entity = spike ->
         Level.resolveSegments input dt visibleStart visibleEnd previousRect
                               clamped (Player.getBounds clamped) before
         = (outer, before') ->
         Level.r_returned outer = false ->
         (LevelSegment.end_ segment <? visibleStart)
         || (LevelSegment.offset segment >? visibleEnd) = false ->
         Level.resolveEntities input dt (LevelSegment.offset segment)
                               previousRect (Level.r_player outer)
                               (Level.r_rect outer) pre
         = (inner, pre') ->
         Level.r_returned inner = false ->
         Level.checkSpikeCollision (Level.r_rect inner)
                                   (LevelSegment.offset segment) entity
         = true ->
         Level.resolvePlayer player input dt lvl
         = (Player.die (Level.r_player inner),
            Level.set_activeSegments
              (before'
               ++ LevelSegment.make (LevelSegment.template segment)
                    (pre' ++ SegmentEntity.updateCooldown dt entity :: post)
                    (LevelSegment.offset segment)
               :: after)
              lvl)
         /\ Player.isAlive (fst (Level.resolvePlayer player input dt lvl))
            = false).
Proof.
  split; [| split; [| split]].
  - intros playerRect offset entity rect relativeX Hwidth.
    unfold Level.checkSpikeCollision. fold rect.
    rewrite (seq_false _ _ Hwidth).
    unfold Level.relativeX. fold relativeX. unfold Level.spikeY.
    destruct (Rectangle.intersects playerRect rect); simpl.
    + destruct (SegmentEntity.orientation entity); js_cases;
        split; intros; try split; try reflexivity; try discriminate;
        try tauto.
    + split; [discriminate | intros [H _]; discriminate].
  - intros playerRect offset entity rect relativeX Hup wP hP wR hR Hrel Hbot.
    destruct (same_centre_same_bottom_intersect playerRect rect
                wP hP wR hR Hrel Hbot) as [Hcentre Hbroad].
    assert (Hline : Rectangle.bottom rect
                    - Qabs (relativeX - 0.5) * Rectangle.height rect * 2
                    == Rectangle.bottom rect).
    { rewrite Hrel.
      setoid_replace (0.5 - 0.5) with 0 by reflexivity.
      simpl Qabs. lra. }
    split; [exact Hcentre |]. split; [exact Hline |].
    unfold Level.checkSpikeCollision. fold rect.
    rewrite Hbroad. simpl negb. cbv iota.
    assert (Hwidth : ~ Rectangle.width rect == 0) by lra.
    rewrite (seq_false _ _ Hwidth).
    rewrite Hup. cbv zeta iota.
    unfold Level.relativeX. fold relativeX. unfold Level.spikeY.
    destruct (ge_reflect (Rectangle.bottom playerRect)
                (Rectangle.bottom rect
                 - Qabs (relativeX - 0.5) * Rectangle.height rect * 2));
      [reflexivity | lra].
  - intros playerRect offset entity Habove.
    unfold Level.checkSpikeCollision.
    assert (H : Rectangle.intersects playerRect (Level.entityRect offset entity)
                = false).
    { apply intersects_false_iff. right. right. left. exact Habove. }
    rewrite H. reflexivity.
  - intros player input dt lvl before after segment pre post entity
           outer inner before' pre' visibleStart visibleEnd previousRect
           clamped Hsegments Hentities Htype Hbefore Houter Hvisible Hpre
           Hinner Hhit.
    pose proof (resolvePlayer_spike_hit player input dt lvl before after
                  segment pre post entity outer inner before' pre'
                  Hsegments Hentities Htype Hbefore Houter Hvisible Hpre
                  Hinner Hhit) as E.
    split; [exact E | rewrite E; reflexivity].
Qed.

(** The library level after [reset], and a player under reversed gravity
    at the ceiling below the first spike of its second segment: the
    segment loop passes the first segment, the entity loop passes the
    three platforms, and the spike kills. *)
Lemma level_spike_collision_spec_witness :
  let lvl :=
    match Level.reset (Level.new SEGMENT_LIBRARY) with
    | Returned l => l
    | _ => Level.new SEGMENT_LIBRARY
    end in
  let player :=
    Player.set_gravityDirection (-1)
      (Player.set_position (vec 1790 (CEILING_Y + 32)) Player.new) in
  Level.checkSpikeCollision (Rectangle.new 540 536 64 64) 0
    (SegmentEntity.new (spike_at 540 (FLOOR_Y - 64) 64 64 up))
  = true
  /\ Player.isAlive
       (fst (Level.resolvePlayer player InputManager.new (1 / 60) lvl))
     = false.
Proof.
  cbv zeta. split.
  - refine (proj2 (proj2 (proj1 (proj2 level_spike_collision_spec)
                     (Rectangle.new 540 536 64 64) 0
                     (SegmentEntity.new (spike_at 540 (FLOOR_Y - 64) 64 64 up))
                     _ _ _ _ _ _ _)));
      vm_compute; reflexivity.
  - pose (lvl := match Level.reset (Level.new SEGMENT_LIBRARY) with
                 | Returned l => l
                 | _ => Level.new SEGMENT_LIBRARY
                 end).
    pose (player := Player.set_gravityDirection (-1)
                      (Player.set_position (vec 1790 (CEILING_Y + 32))
                                           Player.new)).
    pose (segment := nth 1 (Level.activeSegments lvl)
                         (LevelSegment.new (template_of 0 []))).
    pose (entity := nth 3 (LevelSegment.entities segment)
                        (SegmentEntity.new (spike_at 0 0 0 0 up))).
    pose (outer := Level.resolveSegments InputManager.new (1 / 60)
                     (Level.scrollX lvl - Level.recycleMargin lvl)
                     (Level.scrollX lvl + Level.viewportWorldWidth lvl
                      + Level.recycleMargin lvl)
                     (Player.getPreviousBounds player)
                     (Level.clampToWorld player)
                     (Player.getBounds (Level.clampToWorld player))
                     (firstn 1 (Level.activeSegments lvl))).
    pose (inner := Level.resolveEntities InputManager.new (1 / 60)
                     (LevelSegment.offset segment)
                     (Player.getPreviousBounds player)
                     (Level.r_player (fst outer)) (Level.r_rect (fst outer))
                     (firstn 3 (LevelSegment.entities segment))).
    refine (proj2 (proj2 (proj2 (proj2 level_spike_collision_spec))
                     player InputManager.new (1 / 60) lvl
                     (firstn 1 (Level.activeSegments lvl))
                     (skipn 2 (Level.activeSegments lvl))
                     segment
                     (firstn 3 (LevelSegment.entities segment))
                     (skipn 4 (LevelSegment.entities segment))
                     entity (fst outer) (fst inner) (snd outer) (snd inner)
                     _ _ _ _ _ _ _ _ _));
      try (vm_compute; reflexivity);
      apply surjective_pairing.
Defined.

(** The resolver run on the freshly reset library level, with the player
    standing on the floor in the middle of the first spike: the player
    dies and no entity is altered. *)
Example resolvePlayer_on_first_spike :
  match Level.reset (Level.new SEGMENT_LIBRARY) with
  | Returned l0 =>
      let player := Player.set_position_x 572 Player.new in
      let (player', l1) :=
        Level.resolvePlayer player InputManager.new (1 / 60) l0 in
      Player.isAlive player' = false
      /\ map LevelSegment.entities (Level.activeSegments l1)
         = map LevelSegment.entities (Level.activeSegments l0)
  | _ => False
  end.
Proof. vm_compute. split; reflexivity. Qed.

(** The hazard line of an [up] spike of height 64 based at the floor, at
    the left edge, a quarter in, and the centre of its rectangle. *)
Example spikeY_samples :
  let rect := Rectangle.new 540 (FLOOR_Y - 64) 64 64 in
  Level.spikeY up rect 0 == FLOOR_Y - 64
  /\ Level.spikeY up rect 0.25 == FLOOR_Y - 32
  /\ Level.spikeY up rect 0.5 == FLOOR_Y.
Proof. vm_compute. repeat split; reflexivity. Qed.

(** ** The segment window *)

Lemma chained_tail (first : LevelSegment.t) (rest : list LevelSegment.t) :
  chained (first :: rest) -> chained rest.
Proof. destruct rest as [| second rest']; simpl; tauto. Qed.

Lemma chained_snoc (segments : list LevelSegment.t) (x d : LevelSegment.t) :
  chained segments ->
  (segments <> [] -> LevelSegment.offset x = LevelSegment.end_ (last segments d)) ->
  chained (segments ++ [x]).
Proof.
  induction segments as [| first rest IH]; intros Hc Hx; [exact I |].
  destruct rest as [| second rest'].
  - simpl. split; [| exact I]. apply Hx. discriminate.
  - destruct Hc as [Hfs Hc]. split; [exact Hfs |].
    apply IH; [exact Hc |]. intros _. apply Hx. discriminate.
Qed.

Lemma chained_adjacent (segments : list LevelSegment.t) :
  chained segments <-> adjacent segments.
Proof.
  unfold adjacent. induction segments as [| first rest IH].
  - split; [| intros; exact I]. intros _ [| i] a b H; discriminate.
  - destruct rest as [| second rest'].
    + split; [| intros; exact I].
      intros _ [| [| i]] a b Ha Hb; discriminate.
    + split.
      * intros [Hfs Hc] [| i] a b Ha Hb.
        -- simpl in Ha, Hb. inversion Ha; inversion Hb; subst. exact Hfs.
        -- apply (proj1 IH Hc i a b); assumption.
      * intros H. split.
        -- apply (H 0%nat first second); reflexivity.
        -- apply IH. intros i a b Ha Hb. apply (H (S i) a b); assumption.
Qed.

(** *** [reset] *)

Lemma resetLoop_returns (this : Level.t) :
  Level.templates this <> [] ->
  forall (count index : nat) (offset : Q) (segments : list LevelSegment.t),
    chained segments ->
    (segments <> [] ->
     offset = LevelSegment.end_ (last segments (LevelSegment.new (template_of 0 [])))) ->
    Forall (fun s => In (LevelSegment.template s) (Level.templates this)) segments ->
    exists segments',
      Level.resetLoop this count index offset segments = Returned segments'
      /\ length segments' = (length segments + count)%nat
      /\ chained segments'
      /\ Forall (fun s => In (LevelSegment.template s) (Level.templates this))
                segments'.
Proof.
  intros Hne. induction count as [| count IH];
    intros index offset segments Hc Hoff Hin; simpl.
  - exists segments. rewrite Nat.add_0_r. auto.
  - unfold Level.template_at.
    destruct (nth_error (Level.templates this)
                (index mod length (Level.templates this))) as [template |] eqn:E.
    + set (segment := LevelSegment.reset offset (LevelSegment.new template)).
      destruct (IH (index + 1)%nat (offset + t_width template)
                   (segments ++ [segment])) as (segments' & R & L & C & F).
      * apply chained_snoc with (d := LevelSegment.new (template_of 0 []));
          [exact Hc | exact Hoff].
      * intros _. rewrite last_last. reflexivity.
      * apply Forall_app. split; [exact Hin |].
        constructor; [| constructor]. simpl. eapply nth_error_In. exact E.
      * exists segments'. rewrite R. repeat split; try assumption.
        rewrite L, length_app. simpl. lia.
    + exfalso. apply nth_error_None in E.
      assert (length (Level.templates this) <> 0%nat)
        by (destruct (Level.templates this); [congruence | discriminate]).
      pose proof (Nat.mod_upper_bound index (length (Level.templates this)) H).
      lia.
Qed.

Lemma reset_returns (this : Level.t) :
  Level.templates this <> [] ->
  exists l,
    Level.reset this = Returned l
    /\ Level.templates l = Level.templates this
    /\ Level.baseSpeed l = Level.baseSpeed this
    /\ Level.currentSpeed l = Level.baseSpeed this
    /\ Level.scrollX l = 0
    /\ length (Level.activeSegments l) = 4%nat
    /\ chained (Level.activeSegments l)
    /\ Forall (fun s => In (LevelSegment.template s) (Level.templates l))
              (Level.activeSegments l).
Proof.
  intro Hne. unfold Level.reset.
  set (this' := Level.set_activeSegments [] _).
  destruct (resetLoop_returns this' Hne 4 0 0 []) as (segments & R & L & C & F).
  - exact I.
  - intro H. congruence.
  - constructor.
  - rewrite R. eexists. split; [reflexivity |]. simpl.
    repeat split; assumption.
Qed.

(** *** The recycling loop *)

Lemma next_in_unit_interval (rng : Random.t) :
  Random.in_unit_interval rng ->
  Random.in_unit_interval (snd (Random.next rng)).
Proof. intros H n. apply H. Qed.

Lemma pickNextTemplate_in (this : Level.t) (rng : Random.t) :
  Level.templates this <> [] ->
  Random.in_unit_interval rng ->
  exists t,
    Level.pickNextTemplate this rng = (Some t, snd (Random.next rng))
    /\ In t (Level.templates this).
Proof.
  intros Hne Hrng. unfold Level.pickNextTemplate, Random.next.
  cbv beta iota zeta. unfold snd.
  set (r := Random.sample rng (Random.cursor rng)).
  set (n := length (Level.templates this)).
  destruct (Hrng (Random.cursor rng)) as [H0 H1]. fold r in H0, H1.
  assert (Hn : (0 < n)%nat).
  { subst n. destruct (Level.templates this); [congruence | simpl; lia]. }
  assert (Hq : 0 < inject_Z (Z.of_nat n)).
  { change 0 with (inject_Z 0). rewrite <- Zlt_Qlt. lia. }
  assert (Hlo : (0 <= Qfloor (r * inject_Z (Z.of_nat n)))%Z).
  { change 0%Z with (Qfloor 0). apply Qfloor_resp_le. nra. }
  assert (Hhi : (Qfloor (r * inject_Z (Z.of_nat n)) < Z.of_nat n)%Z).
  { rewrite Zlt_Qlt.
    apply Qle_lt_trans with (r * inject_Z (Z.of_nat n));
      [apply Qfloor_le | nra]. }
  destruct (Z.ltb_spec (Qfloor (r * inject_Z (Z.of_nat n))) 0); [lia |].
  unfold Level.template_at.
  destruct (nth_error (Level.templates this)
              (Z.to_nat (Qfloor (r * inject_Z (Z.of_nat n))))) as [t |] eqn:E.
  - exists t. split; [reflexivity |]. eapply nth_error_In. exact E.
  - apply nth_error_None in E. fold n in E. lia.
Qed.

(** Whatever template the pick returns belongs to the list, and the
    oracle keeps its samples. *)
Lemma pickNextTemplate_some (this : Level.t) (rng rng' : Random.t)
      (t : SegmentTemplate) :
  Level.pickNextTemplate this rng = (Some t, rng') ->
  In t (Level.templates this) /\ Random.sample rng' = Random.sample rng.
Proof.
  unfold Level.pickNextTemplate, Random.next. cbv beta iota zeta.
  intro H. inversion H as [[P S]]. split; [| reflexivity].
  destruct (_ <? 0)%Z; [discriminate |]. eapply nth_error_In. exact P.
Qed.

Lemma last_nonempty (first : LevelSegment.t) (rest : list LevelSegment.t)
      (d d' : LevelSegment.t) :
  last (first :: rest) d = last (first :: rest) d'.
Proof.
  revert first. induction rest as [| second rest IH]; intro first;
    [reflexivity |].
  change (last (second :: rest) d = last (second :: rest) d'). apply IH.
Qed.

Lemma recycle_cons (fuel : nat) (this : Level.t) (recycleThreshold : Q)
      (first : LevelSegment.t) (rest : list LevelSegment.t) (rng : Random.t) :
  Level.recycle fuel this recycleThreshold (first :: rest) rng
  = if LevelSegment.end_ first <? recycleThreshold then
      match fuel with
      | O => OutOfFuel
      | S fuel' =>
          match Level.pickNextTemplate this rng with
          | (Some template, rng) =>
              Level.recycle fuel' this recycleThreshold
                (rest ++ [Level.recycleSegment first rest template]) rng
          | (None, _) => TypeError
          end
      end
    else Returned (first :: rest, rng).
Proof. destruct fuel; reflexivity. Qed.

Lemma recycle_nil (fuel : nat) (this : Level.t) (recycleThreshold : Q)
      (rng : Random.t) :
  Level.recycle fuel this recycleThreshold [] rng = Returned ([], rng).
Proof. destruct fuel; reflexivity. Qed.

(** The pushed segment starts where the last remaining one ends. *)
Lemma recycleSegment_offset (first second : LevelSegment.t)
      (rest : list LevelSegment.t) (template : SegmentTemplate)
      (d : LevelSegment.t) :
  LevelSegment.offset (Level.recycleSegment first (second :: rest) template)
  = LevelSegment.end_ (last (second :: rest) d).
Proof.
  unfold Level.recycleSegment. cbv zeta. unfold LevelSegment.reset.
  simpl LevelSegment.offset. f_equal. apply last_nonempty.
Qed.

Lemma recycleSegment_template (first : LevelSegment.t)
      (rest : list LevelSegment.t) (template : SegmentTemplate) :
  LevelSegment.template (Level.recycleSegment first rest template) = template.
Proof. reflexivity. Qed.

Lemma chained_recycled (first : LevelSegment.t) (rest : list LevelSegment.t)
      (template : SegmentTemplate) :
  chained (first :: rest) ->
  chained (rest ++ [Level.recycleSegment first rest template]).
Proof.
  intro Hc. apply chained_snoc with (d := first).
  - eapply chained_tail. exact Hc.
  - destruct rest as [| second rest']; [congruence |]. intros _.
    apply recycleSegment_offset.
Qed.

(** Whatever the loop returns has the length of what it was given, is
    chained if that was, and instantiates templates of the level. *)
Lemma recycle_preserves (this : Level.t) (recycleThreshold : Q) (fuel : nat) :
  forall (segments : list LevelSegment.t) (rng : Random.t)
         (segments' : list LevelSegment.t) (rng' : Random.t),
    Level.recycle fuel this recycleThreshold segments rng
    = Returned (segments', rng') ->
    chained segments ->
    Forall (fun s => In (LevelSegment.template s) (Level.templates this))
           segments ->
    length segments' = length segments
    /\ chained segments'
    /\ Forall (fun s => In (LevelSegment.template s) (Level.templates this))
              segments'
    /\ Random.sample rng' = Random.sample rng.
Proof.
  induction fuel as [| fuel IH]; intros segments rng segments' rng' R Hc Hin;
    destruct segments as [| first rest];
    rewrite ?recycle_nil, ?recycle_cons in R;
    try (inversion R; subst; auto; fail).
  - destruct (_ <? _); [discriminate |]. inversion R; subst. auto.
  - destruct (_ <? _); [| inversion R; subst; auto].
    destruct (Level.pickNextTemplate this rng) as [[template |] rng1] eqn:P;
      [| discriminate].
    destruct (pickNextTemplate_some this rng rng1 template P) as [Ht Hs].
    apply IH in R.
    + destruct R as (L & C & F & S).
      rewrite L, length_app. simpl. repeat split; try assumption; [lia |].
      congruence.
    + apply chained_recycled. exact Hc.
    + apply Forall_app. inversion Hin; subst. split; [assumption |].
      constructor; [exact Ht | constructor].
Qed.

(** More fuel does not change a returned result. *)
Lemma recycle_fuel_mono (this : Level.t) (recycleThreshold : Q) (fuel : nat) :
  forall (fuel' : nat) (segments : list LevelSegment.t) (rng : Random.t)
         (result : list LevelSegment.t * Random.t),
    (fuel <= fuel')%nat ->
    Level.recycle fuel this recycleThreshold segments rng = Returned result ->
    Level.recycle fuel' this recycleThreshold segments rng = Returned result.
Proof.
  induction fuel as [| fuel IH]; intros fuel' segments rng result Hle R;
    destruct segments as [| first rest];
    rewrite ?recycle_nil, ?recycle_cons in *; try exact R.
  - destruct (_ <? _); [discriminate | exact R].
  - destruct (_ <? _); [| exact R].
    destruct fuel' as [| fuel']; [lia |].
    destruct (Level.pickNextTemplate this rng) as [[template |] rng1];
      [| exact R].
    apply IH; [lia | exact R].
Qed.

Lemma inject_succ (n : nat) :
  inject_Z (Z.of_nat (S n)) == inject_Z (Z.of_nat n) + 1.
Proof.
  rewrite Nat2Z.inj_succ. unfold Z.succ. rewrite inject_Z_plus. reflexivity.
Qed.

(** With templates at least [w > 0] wide, a window of two or more chained
    segments is recycled in at most [fuel] iterations as soon as
    [fuel * w] exceeds the distance from the first segment's end to the
    threshold: every iteration moves that end forward by [w] or more. *)
Lemma recycle_terminates (this : Level.t) (recycleThreshold w : Q) :
  Level.templates this <> [] ->
  0 < w ->
  (forall t, In t (Level.templates this) -> w <= t_width t) ->
  forall (fuel : nat) (segments : list LevelSegment.t) (rng : Random.t),
    Random.in_unit_interval rng ->
    chained segments ->
    Forall (fun s => In (LevelSegment.template s) (Level.templates this))
           segments ->
    (2 <= length segments)%nat ->
    (forall first, hd_error segments = Some first ->
                   recycleThreshold - LevelSegment.end_ first
                   < inject_Z (Z.of_nat fuel) * w) ->
    exists result,
      Level.recycle fuel this recycleThreshold segments rng = Returned result.
Proof.
  intros Hne Hw Hwide.
  induction fuel as [| fuel IH]; intros segments rng Hrng Hc Hin Hlen Hbound;
    destruct segments as [| first rest]; try (simpl in Hlen; lia);
    rewrite recycle_cons;
    specialize (Hbound first eq_refl);
    destruct (lt_reflect (LevelSegment.end_ first) recycleThreshold)
      as [Hbehind | Hvisible];
    try (eexists; reflexivity).
  - change (inject_Z (Z.of_nat 0)) with 0 in Hbound. lra.
  - destruct (pickNextTemplate_in this rng Hne Hrng) as (t & -> & Ht).
    destruct rest as [| second rest']; [simpl in Hlen; lia |].
    apply IH.
    + apply next_in_unit_interval. exact Hrng.
    + apply chained_recycled. exact Hc.
    + apply Forall_app. inversion Hin; subst. split; [assumption |].
      constructor; [exact Ht | constructor].
    + rewrite length_app. simpl in *. lia.
    + intros first' Hfirst. simpl in Hfirst. inversion Hfirst; subst first'.
      destruct Hc as [Hoff _].
      inversion Hin as [| ? ? _ Hrest]; subst.
      inversion Hrest as [| ? ? Hsecond _]; subst.
      apply Hwide in Hsecond.
      rewrite inject_succ in Hbound.
      unfold LevelSegment.end_ at 1. rewrite Hoff. lra.
Qed.

(** Some multiple of a positive step exceeds any given distance. *)
Lemma archimedes (x w : Q) :
  0 < w -> exists n : nat, x < inject_Z (Z.of_nat n) * w.
Proof.
  intro Hw. exists (Z.to_nat (Qceiling (x / w)) + 1)%nat.
  rewrite Nat2Z.inj_add, inject_Z_plus.
  assert (Hc : x / w <= inject_Z (Z.of_nat (Z.to_nat (Qceiling (x / w))))).
  { apply Qle_trans with (inject_Z (Qceiling (x / w))); [apply Qle_ceiling |].
    rewrite <- Zle_Qle. lia. }
  assert (Hx : x == x / w * w) by (field; lra).
  change (inject_Z (Z.of_nat 1)) with 1.
  rewrite Hx at 1.
  set (c := inject_Z (Z.of_nat (Z.to_nat (Qceiling (x / w))))) in *.
  nra.
Qed.

(** Positive widths of a finite template list have a positive lower
    bound. *)
Lemma widths_bounded_below (templates : list SegmentTemplate) :
  (forall t, In t templates -> 0 < t_width t) ->
  exists w, 0 < w /\ forall t, In t templates -> w <= t_width t.
Proof.
  induction templates as [| t0 rest IH]; intro Hpos.
  - exists 1. split; [lra | intros t []].
  - destruct IH as (w & Hw & Hall).
    + intros t Ht. apply Hpos. right. exact Ht.
    + exists (Qmin w (t_width t0)). split.
      * apply Q.min_glb_lt; [exact Hw | apply Hpos; left; reflexivity].
      * intros t [<- | Ht].
        -- apply Q.le_min_r.
        -- eapply Qle_trans; [apply Q.le_min_l | apply Hall; exact Ht].
Qed.

(** *** [update] and runs of it *)

Lemma advance_frame (Math_exp : Q -> Q) (dt : Q) (player : Player.t)
      (l : Level.t) :
  Level.templates (Level.advance Math_exp dt player l) = Level.templates l
  /\ Level.activeSegments (Level.advance Math_exp dt player l)
     = Level.activeSegments l
  /\ Level.baseSpeed (Level.advance Math_exp dt player l) = Level.baseSpeed l.
Proof. repeat split; reflexivity. Qed.

(** What a returning [update] leaves: the scroll state computed by
    [advance], and the recycled window. *)
Lemma update_returned (Math_exp : Q -> Q) (fuel : nat) (dt : Q)
      (player : Player.t) (rng rng' : Random.t) (l l' : Level.t) :
  Level.update Math_exp fuel dt player rng l = Returned (l', rng') ->
  let moved := Level.advance Math_exp dt player l in
  Level.recycle fuel moved (Level.scrollX moved - Level.recycleMargin moved)
                (Level.activeSegments l) rng
  = Returned (Level.activeSegments l', rng')
  /\ Level.templates l' = Level.templates l
  /\ Level.baseSpeed l' = Level.baseSpeed l
  /\ Level.currentSpeed l' = Level.currentSpeed moved
  /\ Level.scrollX l' = Level.scrollX moved.
Proof.
  unfold Level.update. cbv zeta.
  set (moved := Level.advance Math_exp dt player l).
  change (Level.activeSegments moved) with (Level.activeSegments l).
  destruct (Level.recycle fuel moved _ (Level.activeSegments l) rng)
    as [[segments rng1] | |]; try discriminate.
  intro H. inversion H; subst. repeat split; reflexivity.
Qed.

Lemma update_preserves_inv (Math_exp : Q -> Q) (templates : list SegmentTemplate)
      (fuel : nat) (dt : Q) (player : Player.t) (rng rng' : Random.t)
      (l l' : Level.t) :
  level_inv templates l ->
  Level.update Math_exp fuel dt player rng l = Returned (l', rng') ->
  level_inv templates l' /\ Random.sample rng' = Random.sample rng.
Proof.
  intros (Ht & Hlen & Hc & Hin) R.
  apply update_returned in R. cbv zeta in R.
  destruct R as (R & Ht' & _).
  apply recycle_preserves in R.
  - destruct R as (L & C & F & S). unfold level_inv.
    rewrite Ht', Ht in *. simpl in F. rewrite Ht in F.
    repeat split; try assumption. congruence.
  - exact Hc.
  - simpl. rewrite Ht. exact Hin.
Qed.

Lemma update_fuel_mono (Math_exp : Q -> Q) (fuel fuel' : nat) (dt : Q)
      (player : Player.t) (rng : Random.t) (l : Level.t)
      (result : Level.t * Random.t) :
  (fuel <= fuel')%nat ->
  Level.update Math_exp fuel dt player rng l = Returned result ->
  Level.update Math_exp fuel' dt player rng l = Returned result.
Proof.
  intros Hle. unfold Level.update. cbv zeta.
  destruct (Level.recycle fuel _ _ _ rng) as [[segments rng1] | |] eqn:R;
    try discriminate.
  rewrite (recycle_fuel_mono _ _ fuel fuel' _ _ _ Hle R). tauto.
Qed.

(** With well-formed templates every [update] of a well-formed window
    returns, given enough fuel. *)
Lemma update_returns (Math_exp : Q -> Q) (templates : list SegmentTemplate)
      (dt : Q) (player : Player.t) (rng : Random.t) (l : Level.t) :
  well_formed templates ->
  level_inv templates l ->
  Random.in_unit_interval rng ->
  exists fuel result,
    Level.update Math_exp fuel dt player rng l = Returned result.
Proof.
  intros [Hne Hpos] (Ht & Hlen & Hc & Hin) Hrng.
  destruct (widths_bounded_below templates Hpos) as (w & Hw & Hwide).
  set (moved := Level.advance Math_exp dt player l).
  set (threshold := Level.scrollX moved - Level.recycleMargin moved).
  destruct (Level.activeSegments l) as [| first rest] eqn:Hsegs;
    [simpl in Hlen; lia |].
  destruct (archimedes (threshold - LevelSegment.end_ first) w Hw)
    as [fuel Hfuel].
  destruct (recycle_terminates moved threshold w) with
    (fuel := fuel) (segments := first :: rest) (rng := rng)
    as [[segments rng1] R]; try assumption.
  - simpl. rewrite Ht. exact Hne.
  - simpl. rewrite Ht. exact Hwide.
  - simpl. rewrite Ht. exact Hin.
  - rewrite Hlen. lia.
  - intros first' H. inversion H; subst. exact Hfuel.
  - exists fuel. eexists. unfold Level.update. cbv zeta.
    fold moved. fold threshold.
    change (Level.activeSegments moved) with (Level.activeSegments l).
    rewrite Hsegs, R. reflexivity.
Qed.

Lemma level_updates_preserve_inv (Math_exp : Q -> Q)
      (templates : list SegmentTemplate) (fuel : nat)
      (frames : list (Q * Player.t)) :
  forall (rng rng' : Random.t) (l l' : Level.t),
    level_inv templates l ->
    level_updates Math_exp fuel frames rng l = Returned (l', rng') ->
    level_inv templates l'.
Proof.
  induction frames as [| [dt player] rest IH]; intros rng rng' l l' Hinv R;
    simpl in R.
  - inversion R; subst. exact Hinv.
  - destruct (Level.update Math_exp fuel dt player rng l)
      as [[l1 rng1] | |] eqn:U; try discriminate.
    apply (IH rng1 rng' l1 l'); [| exact R].
    eapply update_preserves_inv; eassumption.
Qed.

Lemma level_updates_return (Math_exp : Q -> Q)
      (templates : list SegmentTemplate) (frames : list (Q * Player.t)) :
  well_formed templates ->
  forall (rng : Random.t) (l : Level.t),
    level_inv templates l ->
    Random.in_unit_interval rng ->
    exists fuel,
    forall fuel', (fuel <= fuel')%nat ->
    exists l' rng',
      level_updates Math_exp fuel' frames rng l = Returned (l', rng')
      /\ level_inv templates l'.
Proof.
  intro Hwf. induction frames as [| [dt player] rest IH];
    intros rng l Hinv Hrng.
  - exists 0%nat. intros fuel' _. exists l, rng. split; [reflexivity | exact Hinv].
  - destruct (update_returns Math_exp templates dt player rng l Hwf Hinv Hrng)
      as (fuel1 & [l1 rng1] & U).
    destruct (update_preserves_inv _ _ _ _ _ _ _ _ _ Hinv U) as [Hinv1 Hs].
    assert (Hrng1 : Random.in_unit_interval rng1).
    { intro n. rewrite Hs. apply Hrng. }
    destruct (IH rng1 l1 Hinv1 Hrng1) as [fuel2 Hrest].
    exists (Nat.max fuel1 fuel2). intros fuel' Hle. simpl.
    rewrite (update_fuel_mono _ fuel1 fuel' _ _ _ _ _ ltac:(lia) U).
    apply Hrest. lia.
Qed.

Lemma level_inv_window (templates : list SegmentTemplate) (l : Level.t) :
  level_inv templates l -> window l.
Proof.
  intros (_ & Hlen & Hc & _). split; [exact Hlen |].
  apply chained_adjacent. exact Hc.
Qed.

(** C2.  Segment window invariant.  For well-formed level data, [reset]
    returns a level with exactly four active segments, each starting where
    its predecessor ends ([end = offset + template.width]).  Every run of
    [update] steps from there, whatever the time steps, the players and
    the random draws, keeps both properties whenever it returns; and with
    draws in [0, 1) the run does return once each step is granted enough
    loop iterations. *)
Theorem level_segment_window_invariant (Math_exp : Q -> Q) (this : Level.t) :
  well_formed (Level.templates this) ->
  exists l0,
    Level.reset this = Returned l0
    /\ window l0
    /\ (forall (frames : list (Q * Player.t)) (rng rng' : Random.t)
               (fuel : nat) (l' : Level.t),
           level_updates Math_exp fuel frames rng l0 = Returned (l', rng') ->
           window l')
    /\ (forall (frames : list (Q * Player.t)) (rng : Random.t),
           Random.in_unit_interval rng ->
           exists fuel,
           forall fuel', (fuel <= fuel')%nat ->
           exists l' rng',
             level_updates Math_exp fuel' frames rng l0 = Returned (l', rng')
             /\ window l').
Proof.
  intros Hwf.
  destruct (reset_returns this (proj1 Hwf))
    as (l0 & R & Ht & _ & _ & _ & Hlen & Hc & Hin).
  assert (Hinv : level_inv (Level.templates this) l0).
  { rewrite Ht in Hin. unfold level_inv. auto. }
  exists l0. split; [exact R |]. split; [eapply level_inv_window; exact Hinv |].
  split.
  - intros frames rng rng' fuel l' U.
    eapply level_inv_window.
    eapply level_updates_preserve_inv; eassumption.
  - intros frames rng Hrng.
    destruct (level_updates_return Math_exp _ frames Hwf rng l0 Hinv Hrng)
      as [fuel H].
    exists fuel. intros fuel' Hle.
    destruct (H fuel' Hle) as (l' & rng' & U & Hinv').
    exists l', rng'. split; [exact U | eapply level_inv_window; exact Hinv'].
Qed.

Lemma segment_library_well_formed : well_formed SEGMENT_LIBRARY.
Proof.
  split; [discriminate |].
  intros t [<- | [<- | [<- | [<- | []]]]]; reflexivity.
Qed.

Lemma level_segment_window_invariant_witness :
  exists l0,
    Level.reset (Level.new SEGMENT_LIBRARY) = Returned l0
    /\ length (Level.activeSegments l0) = 4%nat
    /\ map LevelSegment.offset (Level.activeSegments l0)
       = [0; 0 + 1400; 0 + 1400 + 1200; 0 + 1400 + 1200 + 1360].
Proof.
  destruct (level_segment_window_invariant rational_exp
              (Level.new SEGMENT_LIBRARY) segment_library_well_formed)
    as (l0 & R & [Hlen _] & _).
  exists l0. split; [exact R |]. split; [exact Hlen |].
  vm_compute in R. inversion R. reflexivity.
Defined.

(** ** Scrolling *)

(** [applyBoost], [update] and [reset] keep the speed multiplier at one or
    above. *)
Lemma applyBoost_keeps_multiplier (b : Player.Boost) (p : Player.t) :
  1 <= Player.speedMultiplier p ->
  1 <= Player.speedMultiplier (Player.applyBoost b p).
Proof.
  intro H. rewrite applyBoost_speedMultiplier.
  apply Q.max_le_iff. right. exact H.
Qed.

Lemma update_keeps_multiplier (dt : Q) (input : InputManager.t) (p : Player.t) :
  1 <= Player.speedMultiplier p ->
  1 <= Player.speedMultiplier (fst (Player.update dt input p)).
Proof.
  intro H. destruct (update_boost_fields dt input p) as (Hdead & _ & Hlive).
  destruct (Player.isAlive p).
  - destruct (Hlive eq_refl) as [_ ->].
    destruct (_ >? _); [destruct (_ === _) |]; lra.
  - rewrite (Hdead eq_refl). exact H.
Qed.

Section Scrolling.

(** [Math.exp], with the one property used: on non-positive arguments its
    value lies between zero and one. *)
Variable Math_exp : Q -> Q.
Hypothesis Math_exp_range : forall x, x <= 0 -> 0 <= Math_exp x /\ Math_exp x <= 1.

Lemma advance_moves_forward (dt : Q) (player : Player.t) (l : Level.t) :
  0 < Level.baseSpeed l ->
  0 < Level.currentSpeed l ->
  0 <= dt ->
  1 <= Player.speedMultiplier player ->
  let moved := Level.advance Math_exp dt player l in
  0 < Level.currentSpeed moved /\ Level.scrollX l <= Level.scrollX moved.
Proof.
  intros Hb Hc Hdt Hm. cbv zeta. unfold Level.advance. simpl.
  destruct (Math_exp_range (- dt * 6)) as [He0 He1]; [lra |].
  set (e := Math_exp (- dt * 6)) in *.
  set (m := Player.speedMultiplier player) in *.
  set (b := Level.baseSpeed l) in *.
  set (c := Level.currentSpeed l) in *.
  assert (Hbm : b <= b * m) by nra.
  assert (Hspeed : 0 < c + (b * m - c) * (1 - e)).
  { assert (E : c + (b * m - c) * (1 - e) == c * e + b * m * (1 - e)) by ring.
    rewrite E.
    destruct (Qlt_le_dec 0 e) as [Hpos | Hzero].
    - assert (0 < c * e) by nra.
      assert (0 <= b * m * (1 - e)) by nra. lra.
    - assert (e == 0) by lra.
      assert (0 <= c * e) by nra.
      assert (b <= b * m * (1 - e)) by nra. lra. }
  split; [exact Hspeed |]. nra.
Qed.

End Scrolling.

Lemma rational_exp_range (x : Q) :
  x <= 0 -> 0 <= rational_exp x /\ rational_exp x <= 1.
Proof.
  intro Hx. unfold rational_exp.
  assert (Hd : 1 <= 1 - x + x * x / 2) by (literal_div; nra).
  split.
  - apply Qinv_le_0_compat. lra.
  - apply Qle_shift_inv_r; lra.
Qed.

(** * Further properties of the geometry, the input and the player *)

(** X1.  [Rectangle.intersects] is symmetric: [A.intersects(B)] and
    [B.intersects(A)] always agree. *)
Theorem rectangle_intersects_symmetric (A B : Rectangle.t) :
  Rectangle.intersects A B = Rectangle.intersects B A.
Proof.
  apply eq_true_iff_eq. rewrite !intersects_true_iff. tauto.
Qed.

Lemma square_le_abs (d r : Q) : d * d <= r * r -> Qabs d <= Qabs r.
Proof.
  intro H.
  apply (Qabs_case d (fun a => a <= Qabs r)); intro Hd;
    apply (Qabs_case r (fun b => _ <= b)); intro Hr; nra.
Qed.

(** X2.  [Circle.intersectsRect] against a rectangle of non-negative width
    and height: a circle whose centre lies in the closed rectangle
    intersects it whatever its radius, and a circle that intersects has its
    centre within the radius of the rectangle on each axis. *)
Theorem circle_intersectsRect_bounds (c : Circle.t) (rect : Rectangle.t) :
  0 <= Rectangle.width rect ->
  0 <= Rectangle.height rect ->
  (Rectangle.left rect <= Circle.x c /\ Circle.x c <= Rectangle.right rect ->
   Rectangle.top rect <= Circle.y c /\ Circle.y c <= Rectangle.bottom rect ->
   Circle.intersectsRect c rect = true)
  /\ (Circle.intersectsRect c rect = true ->
      (Rectangle.left rect - Qabs (Circle.radius c) <= Circle.x c
       /\ Circle.x c <= Rectangle.right rect + Qabs (Circle.radius c))
      /\ (Rectangle.top rect - Qabs (Circle.radius c) <= Circle.y c
          /\ Circle.y c <= Rectangle.bottom rect + Qabs (Circle.radius c))).
Proof.
  intros Hw Hh. unfold Circle.intersectsRect. cbv zeta.
  assert (Hlr : Rectangle.left rect <= Rectangle.right rect)
    by (unfold Rectangle.left, Rectangle.right; lra).
  assert (Htb : Rectangle.top rect <= Rectangle.bottom rect)
    by (unfold Rectangle.top, Rectangle.bottom; lra).
  set (l := Rectangle.left rect) in *. set (r := Rectangle.right rect) in *.
  set (t := Rectangle.top rect) in *. set (b := Rectangle.bottom rect) in *.
  set (cx := Qmax l (Qmin (Circle.x c) r)).
  set (cy := Qmax t (Qmin (Circle.y c) b)).
  assert (Hcx : (Circle.x c < l /\ cx == l)
                \/ (l <= Circle.x c /\ Circle.x c <= r /\ cx == Circle.x c)
                \/ (r < Circle.x c /\ cx == r)).
  { subst cx.
    destruct (Q.min_spec (Circle.x c) r) as [[? E]|[? E]];
      destruct (Q.max_spec l (Qmin (Circle.x c) r)) as [[? E']|[? E']];
      rewrite E in *; rewrite E';
      destruct (Qlt_le_dec (Circle.x c) l);
      destruct (Qlt_le_dec r (Circle.x c));
      try lra; first [ left; split; lra
                     | right; left; repeat split; lra
                     | right; right; split; lra ]. }
  assert (Hcy : (Circle.y c < t /\ cy == t)
                \/ (t <= Circle.y c /\ Circle.y c <= b /\ cy == Circle.y c)
                \/ (b < Circle.y c /\ cy == b)).
  { subst cy.
    destruct (Q.min_spec (Circle.y c) b) as [[? E]|[? E]];
      destruct (Q.max_spec t (Qmin (Circle.y c) b)) as [[? E']|[? E']];
      rewrite E in *; rewrite E';
      destruct (Qlt_le_dec (Circle.y c) t);
      destruct (Qlt_le_dec b (Circle.y c));
      try lra; first [ left; split; lra
                     | right; left; repeat split; lra
                     | right; right; split; lra ]. }
  split.
  - intros [Hx1 Hx2] [Hy1 Hy2].
    destruct (le_reflect ((Circle.x c - cx) * (Circle.x c - cx)
                          + (Circle.y c - cy) * (Circle.y c - cy))
                (Circle.radius c * Circle.radius c)) as [_ | Hn];
      [reflexivity |].
    exfalso. apply Hn.
    assert (Ex : cx == Circle.x c) by (destruct Hcx as [[? ?]|[[? [? ?]]|[? ?]]]; lra).
    assert (Ey : cy == Circle.y c) by (destruct Hcy as [[? ?]|[[? [? ?]]|[? ?]]]; lra).
    rewrite Ex, Ey. nra.
  - intro H.
    destruct (le_reflect ((Circle.x c - cx) * (Circle.x c - cx)
                          + (Circle.y c - cy) * (Circle.y c - cy))
                (Circle.radius c * Circle.radius c)) as [Hle | _];
      [| discriminate].
    assert (Hdx : Qabs (Circle.x c - cx) <= Qabs (Circle.radius c)).
    { apply square_le_abs.
      assert (0 <= (Circle.y c - cy) * (Circle.y c - cy)) by nra. lra. }
    assert (Hdy : Qabs (Circle.y c - cy) <= Qabs (Circle.radius c)).
    { apply square_le_abs.
      assert (0 <= (Circle.x c - cx) * (Circle.x c - cx)) by nra. lra. }
    apply Qabs_Qle_condition in Hdx. apply Qabs_Qle_condition in Hdy.
    pose proof (Qabs_nonneg (Circle.radius c)).
    split; split;
      destruct Hcx as [[? ?]|[[? [? ?]]|[? ?]]];
      destruct Hcy as [[? ?]|[[? [? ?]]|[? ?]]]; lra.
Qed.

Lemma circle_intersectsRect_bounds_witness :
  Circle.intersectsRect (Circle.new 5 5 0) (Rectangle.new 0 0 10 10) = true.
Proof.
  apply (proj1 (circle_intersectsRect_bounds (Circle.new 5 5 0)
                  (Rectangle.new 0 0 10 10) ltac:(discriminate)
                  ltac:(discriminate)));
    split; discriminate.
Defined.

(** X3.  The jump request is consumed at most once: however many presses
    were queued by pointer or key events, the first [consumeJumpRequest]
    after at least one press returns true and empties the queue, and the
    next one returns false.  Consuming leaves the held and
    pressed-this-frame signals alone. *)
Theorem input_jump_request_one_shot (input : InputManager.t) :
  (forall n : nat,
      fst (InputManager.consumeJumpRequest
             (Nat.iter (S n) InputManager.handleJumpPress input)) = true)
  /\ (forall events : list InputManager.Event,
         fst (InputManager.consumeJumpRequest
                (dispatch_all (InputManager.PointerDown :: events) input))
         = true)
  /\ (let consumed := snd (InputManager.consumeJumpRequest input) in
      InputManager.jumpQueue consumed = 0%nat
      /\ fst (InputManager.consumeJumpRequest consumed) = false
      /\ InputManager.isJumpHeld consumed = InputManager.isJumpHeld input
      /\ InputManager.didPressJumpThisFrame consumed
         = InputManager.didPressJumpThisFrame input).
Proof.
  assert (Hcons : forall i, (0 < InputManager.jumpQueue i)%nat ->
                            fst (InputManager.consumeJumpRequest i) = true).
  { intros i Hi. unfold InputManager.consumeJumpRequest.
    apply Nat.ltb_lt in Hi. rewrite Hi. reflexivity. }
  assert (Hmono : forall events i,
             (InputManager.jumpQueue i
              <= InputManager.jumpQueue (dispatch_all events i))%nat).
  { induction events as [| e rest IH]; intro i; simpl; [lia |].
    eapply Nat.le_trans; [| apply IH].
    destruct e; simpl; try lia;
      unfold InputManager.onKeyDown, InputManager.onKeyUp;
      repeat match goal with
        | |- context [if ?c then _ else _] => destruct c; simpl
        end; lia. }
  split; [| split].
  - intro n. apply Hcons. simpl. lia.
  - intro events. apply Hcons. simpl.
    eapply Nat.lt_le_trans; [| apply Hmono]. simpl. lia.
  - cbv zeta. unfold InputManager.consumeJumpRequest.
    destruct (0 <? InputManager.jumpQueue input)%nat eqn:E; simpl.
    + repeat split; reflexivity.
    + rewrite E. apply Nat.ltb_ge in E. repeat split; try reflexivity. lia.
Qed.

(** X4.  Keyboard auto-repeat does not queue jumps: while a jump key is
    held, further key-downs of jump keys leave the input state as it is, so
    a burst of jump key-downs starting from a released state queues exactly
    one jump.  Releasing the pointer clears the held signal even if a key
    is still down. *)
Theorem input_key_repeat_queues_once (input : InputManager.t) :
  (forall code, JUMP_KEYS_has code = true ->
                InputManager.jumpHeld input = true ->
                InputManager.onKeyDown code input = input)
  /\ (forall (first : InputManager.Event) (repeats : list InputManager.Event),
         InputManager.jumpHeld input = false ->
         jump_key_down first ->
         Forall jump_key_down repeats ->
         let after := dispatch_all (first :: repeats) input in
         InputManager.jumpQueue after = S (InputManager.jumpQueue input)
         /\ InputManager.isJumpHeld after = true)
  /\ (forall events : list InputManager.Event,
         InputManager.isJumpHeld
           (InputManager.onPointerUp (dispatch_all events input)) = false).
Proof.
  assert (Hheld : forall code i,
             JUMP_KEYS_has code = true -> InputManager.jumpHeld i = true ->
             InputManager.onKeyDown code i = i).
  { intros code i Hc Hh. unfold InputManager.onKeyDown.
    rewrite Hc, Hh. simpl. destruct i; simpl in *. subst. reflexivity. }
  split; [| split].
  - intros code Hc Hh. apply Hheld; assumption.
  - intros first repeats Hreleased (code & -> & Hcode) Hall. cbv zeta.
    assert (Hfirst : InputManager.jumpHeld (InputManager.onKeyDown code input)
                     = true
                     /\ InputManager.jumpQueue (InputManager.onKeyDown code input)
                        = S (InputManager.jumpQueue input)).
    { unfold InputManager.onKeyDown. rewrite Hcode, Hreleased. simpl.
      split; [reflexivity | lia]. }
    destruct Hfirst as [Hh Hq].
    assert (Hsame : dispatch_all repeats (InputManager.onKeyDown code input)
                    = InputManager.onKeyDown code input).
    { generalize dependent (InputManager.onKeyDown code input).
      intros held Hh _. induction repeats as [| e rest IH]; [reflexivity |].
      inversion Hall as [| ? ? (code' & -> & Hcode') Hrest]; subst. simpl.
      rewrite (Hheld code' held Hcode' Hh). apply IH. exact Hrest. }
    change (dispatch_all (InputManager.KeyDown code :: repeats) input)
      with (dispatch_all repeats (InputManager.onKeyDown code input)).
    rewrite Hsame. split; [exact Hq |].
    unfold InputManager.isJumpHeld. rewrite Hh. reflexivity.
  - intro events. reflexivity.
Qed.

Lemma input_key_repeat_queues_once_witness :
  let after :=
    dispatch_all [InputManager.KeyDown (hd KeyCode.KeyR JUMP_KEYS);
                  InputManager.KeyDown (hd KeyCode.KeyR JUMP_KEYS);
                  InputManager.KeyDown (last JUMP_KEYS KeyCode.KeyR)]
                 InputManager.new in
  InputManager.jumpQueue after = 1%nat /\ InputManager.isJumpHeld after = true.
Proof.
  apply (proj1 (proj2 (input_key_repeat_queues_once InputManager.new))
           (InputManager.KeyDown (hd KeyCode.KeyR JUMP_KEYS))
           [InputManager.KeyDown (hd KeyCode.KeyR JUMP_KEYS);
            InputManager.KeyDown (last JUMP_KEYS KeyCode.KeyR)]).
  - reflexivity.
  - eexists. split; reflexivity.
  - repeat constructor; eexists; split; reflexivity.
Defined.

Lemma update_copies_position (dt : Q) (input : InputManager.t) (p : Player.t) :
  Player.isAlive p = true ->
  Player.previousPosition (fst (Player.update dt input p)) = Player.position p
  /\ vx (Player.position (fst (Player.update dt input p)))
     = vx (Player.position p).
Proof.
  intro Halive. unfold Player.update. rewrite Halive. simpl negb. cbv iota.
  destruct (InputManager.consumeJumpRequest input) as [requested input'].
  cbv zeta. simpl fst.
  destruct requested; simpl;
    repeat match goal with
      | |- context [if ?c then _ else _] => destruct c; simpl
      end;
    destruct (Player.position p); split; reflexivity.
Qed.

(** X5.  Speed limits of the integration step.  After [update] a live
    player whose limits satisfy [-maxRiseSpeed <= maxFallSpeed] has a
    vertical velocity within [-maxRiseSpeed, maxFallSpeed]; for a
    non-negative time step its height changes by at most
    [maxFallSpeed * dt] downwards and [maxRiseSpeed * dt] upwards, the old
    position is kept as [previousPosition], the horizontal position is not
    touched, and the jump buffer and the coyote timer are not negative. *)
Theorem player_update_speed_limits (dt : Q) (input : InputManager.t)
        (p : Player.t) :
  Player.isAlive p = true ->
  - Player.maxRiseSpeed p <= Player.maxFallSpeed p ->
  let p1 := fst (Player.update dt input p) in
  (- Player.maxRiseSpeed p <= vy (Player.velocity p1)
   /\ vy (Player.velocity p1) <= Player.maxFallSpeed p)
  /\ (0 <= dt ->
      vy (Player.position p) - Player.maxRiseSpeed p * dt
      <= vy (Player.position p1)
      /\ vy (Player.position p1)
         <= vy (Player.position p) + Player.maxFallSpeed p * dt)
  /\ Player.previousPosition p1 = Player.position p
  /\ vx (Player.position p1) = vx (Player.position p)
  /\ 0 <= Player.jumpBuffer p1
  /\ 0 <= Player.coyoteTimer p1.
Proof.
  intros Halive Hlimits. cbv zeta.
  pose proof (update_fields dt input p Halive) as F. cbv zeta in F.
  destruct F as (_ & _ & _ & _ & _ & Fbuf & Fcoy & Fv & Fy).
  destruct (update_copies_position dt input p Halive) as [Fprev Fx].
  set (p1 := fst (Player.update dt input p)) in *.
  assert (Hv : - Player.maxRiseSpeed p <= vy (Player.velocity p1)
               /\ vy (Player.velocity p1) <= Player.maxFallSpeed p).
  { rewrite Fv. split; [| apply Q.le_min_l].
    apply Q.min_glb; [exact Hlimits | apply Q.le_max_l]. }
  split; [exact Hv |]. split.
  - intro Hdt. rewrite Fy. destruct Hv as [Hlo Hhi]. split; nra.
  - split; [exact Fprev |]. split; [exact Fx |].
    rewrite Fbuf, Fcoy. split; apply Q.le_max_l.
Qed.

Lemma player_update_speed_limits_witness :
  let p1 := fst (Player.update (1 / 30) InputManager.new Player.new) in
  - 1200 <= vy (Player.velocity p1) /\ vy (Player.velocity p1) <= 1800.
Proof.
  exact (proj1 (player_update_speed_limits (1 / 30) InputManager.new
                  Player.new eq_refl ltac:(discriminate))).
Defined.

(** X6.  A dead player is frozen: [update] returns the player and the
    input object unchanged, so a queued jump request is not consumed, and
    [postResolve] does nothing, over any number of frames. *)
Theorem player_dead_is_frozen (p : Player.t) :
  Player.isAlive p = false ->
  (forall dt input, Player.update dt input p = (p, input))
  /\ Player.postResolve p = p
  /\ (forall frames, airborne frames p = p)
  /\ (forall frames, updates frames p = p).
Proof.
  intro Hdead.
  assert (Hu : forall dt input, Player.update dt input p = (p, input))
    by (intros; unfold Player.update; rewrite Hdead; reflexivity).
  assert (Hp : Player.postResolve p = p)
    by (unfold Player.postResolve; rewrite Hdead; reflexivity).
  split; [exact Hu |]. split; [exact Hp |]. split.
  - induction frames as [| [dt input] rest IH]; [reflexivity |].
    simpl. rewrite Hu. simpl. rewrite Hp. exact IH.
  - induction frames as [| [dt input] rest IH]; [reflexivity |].
    simpl. rewrite Hu. exact IH.
Qed.

Lemma player_dead_is_frozen_witness :
  Player.update (1 / 60) (InputManager.handleJumpPress InputManager.new)
                (Player.die Player.new)
  = (Player.die Player.new, InputManager.handleJumpPress InputManager.new).
Proof.
  apply (proj1 (player_dead_is_frozen (Player.die Player.new) eq_refl)).
Defined.

(** ** Jump buffering *)

Lemma postResolve_idle (p : Player.t) :
  Player.jumpBuffer p <= 0
  \/ (Player.isGrounded p = false /\ Player.coyoteTimer p <= 0) ->
  Player.postResolve p = p.
Proof.
  intro H. unfold Player.postResolve.
  destruct (negb (Player.isAlive p)); [reflexivity |].
  destruct H as [Hb | [Hg Hc]].
  - rewrite (gt_false _ _ Hb). reflexivity.
  - rewrite Hg, (gt_false _ _ Hc), andb_false_r. reflexivity.
Qed.

Lemma max0_sub_sub (a b c : Q) :
  0 <= b -> 0 <= c -> Qmax 0 (Qmax 0 (a - b) - c) == Qmax 0 (a - (b + c)).
Proof.
  intros Hb Hc.
  destruct (Q.max_spec 0 (a - b)) as [[? E]|[? E]];
    destruct (Q.max_spec 0 (a - (b + c))) as [[? E']|[? E']];
    rewrite E, E';
    [destruct (Q.max_spec 0 (a - b - c)) as [[? E2]|[? E2]]; rewrite E2; lra
    | rewrite Q.max_l by lra; lra
    | lra
    | rewrite Q.max_l by lra; lra].
Qed.

(** Frames without press and without contact, for a player that is in the
    air with no coyote time left: nothing happens but the decay of the
    jump buffer. *)
Lemma airborne_decays_buffer (frames : list (Q * InputManager.t)) :
  forall p : Player.t,
    Player.isAlive p = true ->
    Player.isGrounded p = false ->
    Player.coyoteTimer p <= 0 ->
    (forall frame, In frame frames ->
                   0 <= fst frame /\ InputManager.jumpQueue (snd frame) = 0%nat) ->
    let q := airborne frames p in
    Player.isAlive q = true
    /\ Player.isGrounded q = false
    /\ Player.coyoteTimer q <= 0
    /\ Player.gravityDirection q = Player.gravityDirection p
    /\ Player.jumpStrength q = Player.jumpStrength p
    /\ Qmax 0 (Player.jumpBuffer q)
       == Qmax 0 (Player.jumpBuffer p - elapsed frames).
Proof.
  induction frames as [| [dt input] rest IH]; intros p Halive Hg Hc Hframes;
    simpl.
  - repeat split; try assumption; try reflexivity.
    setoid_replace (Player.jumpBuffer p - 0) with (Player.jumpBuffer p) by ring.
    reflexivity.
  - destruct (Hframes (dt, input) (or_introl eq_refl)) as [Hdt Hidle].
    simpl in Hdt, Hidle.
    pose proof (update_fields dt input p Halive) as F. cbv zeta in F.
    destruct F as (Falive & Fg & Fdir & Fjs & _ & Fbuf & Fcoy & _).
    rewrite (consumeJumpRequest_idle input Hidle) in Fbuf.
    set (p1 := fst (Player.update dt input p)) in *.
    assert (Hc1 : Player.coyoteTimer p1 <= 0).
    { rewrite Fcoy. apply Q.max_lub; lra. }
    rewrite (postResolve_idle p1) by (right; split; [congruence | exact Hc1]).
    destruct (IH p1) as (A & B & C & D & E & G); try congruence.
    + intros f Hf. apply Hframes. right. exact Hf.
    + assert (Hrest : 0 <= elapsed rest)
        by (apply elapsed_nonneg; intros g Hg'; apply Hframes; right; exact Hg').
      repeat split; try congruence.
      rewrite G, Fbuf. apply max0_sub_sub; assumption.
Qed.

Lemma jump_applied (strength : Q) (q : Player.t) :
  let r := Player.set_jumpBuffer 0 (Player.performJump strength q) in
  vy (Player.velocity r) = - strength * Player.gravityDirection q
  /\ Player.jumpBuffer r = 0
  /\ Player.isGrounded r = false.
Proof. repeat split; reflexivity. Qed.

(** The jump buffer is never left negative by a frame. *)
Lemma airborne_buffer_nonneg (frames : list (Q * InputManager.t)) :
  forall p : Player.t,
    0 <= Player.jumpBuffer p ->
    0 <= Player.jumpBuffer (airborne frames p).
Proof.
  induction frames as [| [dt input] rest IH]; intros p Hp; simpl;
    [exact Hp |].
  apply IH.
  assert (H1 : 0 <= Player.jumpBuffer (fst (Player.update dt input p))).
  { destruct (Player.isAlive p) eqn:Halive.
    - pose proof (update_fields dt input p Halive) as F. cbv zeta in F.
      destruct F as (_ & _ & _ & _ & _ & -> & _). apply Q.le_max_l.
    - destruct (update_boost_fields dt input p) as (Hdead & _).
      rewrite (Hdead Halive). exact Hp. }
  unfold Player.postResolve.
  destruct (negb _); [exact H1 |].
  destruct (_ && _); [apply Qle_refl | exact H1].
Qed.

(** X7.  Jump buffering.  A live player in the air, with no coyote time
    left, presses jump: the frame of the press stores [jumpBufferTime] and
    takes its time step off.  Frames without press and without contact
    follow: the buffer only decays, never below zero.  Then a frame lands
    the player on a surface.  If the buffer that is left exceeds the time
    step of the landing frame, the [postResolve] of that frame applies the
    jump ([velocity.y = -jumpStrength * gravityDirection], buffer
    consumed, not grounded); if it does not, the press has expired and the
    player stays landed. *)
Theorem player_jump_buffer (p : Player.t) (dt0 : Q) (pressed : InputManager.t)
        (frames : list (Q * InputManager.t)) (dt : Q) (idle : InputManager.t)
        (surfaceY : Q) :
  Player.isAlive p = true ->
  Player.isGrounded p = false ->
  Player.coyoteTimer p <= 0 ->
  (0 < InputManager.jumpQueue pressed)%nat ->
  0 <= dt0 ->
  (forall frame, In frame frames ->
                 0 <= fst frame /\ InputManager.jumpQueue (snd frame) = 0%nat) ->
  0 <= dt ->
  InputManager.jumpQueue idle = 0%nat ->
  let press := Player.postResolve (fst (Player.update dt0 pressed p)) in
  let falling := airborne frames press in
  let landed := Player.land surfaceY (fst (Player.update dt idle falling)) in
  Player.jumpBuffer press = Qmax 0 (Player.jumpBufferTime p - dt0)
  /\ (0 <= Player.jumpBuffer falling
      /\ Player.jumpBuffer falling <= Player.jumpBuffer press)
  /\ (dt < Player.jumpBuffer falling ->
      vy (Player.velocity (Player.postResolve landed))
      = - Player.jumpStrength p * Player.gravityDirection p
      /\ Player.jumpBuffer (Player.postResolve landed) = 0
      /\ Player.isGrounded (Player.postResolve landed) = false)
  /\ (Player.jumpBuffer falling <= dt ->
      Player.postResolve landed = landed
      /\ Player.isGrounded landed = true).
Proof.
  intros Halive Hg Hc Hq Hdt0 Hframes Hdt Hidle. cbv zeta.
  pose proof (update_fields dt0 pressed p Halive) as F. cbv zeta in F.
  destruct F as (Falive & Fg & Fdir & Fjs & _ & Fbuf & Fcoy & _).
  rewrite (consumeJumpRequest_pressed pressed Hq) in Fbuf.
  set (p1 := fst (Player.update dt0 pressed p)) in *.
  assert (Hc1 : Player.coyoteTimer p1 <= 0).
  { rewrite Fcoy. apply Q.max_lub; lra. }
  rewrite (postResolve_idle p1) by (right; split; [congruence | exact Hc1]).
  assert (Hp1 : 0 <= Player.jumpBuffer p1)
    by (rewrite Fbuf; apply Q.le_max_l).
  destruct (airborne_decays_buffer frames p1) as (A & B & C & D & E & G);
    try congruence; try assumption.
  pose proof (airborne_buffer_nonneg frames p1 Hp1) as Hq0.
  set (q := airborne frames p1) in *.
  assert (Hrest : 0 <= elapsed frames) by (apply elapsed_nonneg; apply Hframes).
  assert (Hle : Player.jumpBuffer q <= Player.jumpBuffer p1).
  { rewrite (Q.max_r 0 (Player.jumpBuffer q)) in G by exact Hq0.
    rewrite G. apply Q.max_lub; lra. }
  pose proof (update_fields dt idle q A) as F2. cbv zeta in F2.
  destruct F2 as (F2alive & _ & F2dir & F2js & _ & F2buf & _).
  rewrite (consumeJumpRequest_idle idle Hidle) in F2buf.
  set (q1 := fst (Player.update dt idle q)) in *.
  assert (Hbuf : Player.jumpBuffer (Player.land surfaceY q1)
                 = Qmax 0 (Player.jumpBuffer q - dt)).
  { rewrite land_jumpBuffer. exact F2buf. }
  split; [exact Fbuf |]. split; [split; assumption |].
  split.
  - intro Hfresh.
    rewrite (postResolve_jumps (Player.land surfaceY q1)).
    + destruct (jump_applied (Player.jumpStrength (Player.land surfaceY q1))
                  (Player.land surfaceY q1)) as (V & J & I).
      rewrite V, J, I, land_jumpStrength, land_gravityDirection.
      repeat split. congruence.
    + rewrite land_isAlive. exact F2alive.
    + rewrite Hbuf. apply Q.max_lt_iff. right. lra.
    + left. apply land_isGrounded.
  - intro Hstale. split; [| apply land_isGrounded].
    apply postResolve_idle. left. rewrite Hbuf. apply Q.max_lub; lra.
Qed.

Lemma player_jump_buffer_witness :
  let airborne_player :=
    Player.set_position_y 300 Player.new in
  let falling :=
    airborne (repeat (1 / 64, InputManager.new) 3)
      (Player.postResolve
         (fst (Player.update (1 / 64)
                 (InputManager.handleJumpPress InputManager.new)
                 airborne_player))) in
  let landed :=
    Player.land 400 (fst (Player.update (1 / 64) InputManager.new falling)) in
  vy (Player.velocity (Player.postResolve landed)) = - 900 * 1.
Proof.
  refine (proj1 (proj1 (proj2 (proj2 (player_jump_buffer
                   (Player.set_position_y 300 Player.new) (1 / 64)
                   (InputManager.handleJumpPress InputManager.new)
                   (repeat (1 / 64, InputManager.new) 3) (1 / 64)
                   InputManager.new 400 _ _ _ _ _ _ _ _))) _)).
  - reflexivity.
  - reflexivity.
  - discriminate.
  - simpl. lia.
  - discriminate.
  - intros frame H. apply repeat_spec in H. subst frame.
    split; [discriminate | reflexivity].
  - discriminate.
  - reflexivity.
  - vm_compute. reflexivity.
Defined.

(** ** Reset, landing and the world band *)

(** [reset] reads the anchor, the size and the tuning constants only. *)
Lemma reset_eq (p q : Player.t) :
  Player.anchorX p = Player.anchorX q ->
  Player.size p = Player.size q ->
  Player.gravity p = Player.gravity q ->
  Player.maxFallSpeed p = Player.maxFallSpeed q ->
  Player.maxRiseSpeed p = Player.maxRiseSpeed q ->
  Player.jumpStrength p = Player.jumpStrength q ->
  Player.coyoteTime p = Player.coyoteTime q ->
  Player.jumpBufferTime p = Player.jumpBufferTime q ->
  Player.gravityScaleDuringBoost p = Player.gravityScaleDuringBoost q ->
  Player.respawnY p = Player.respawnY q ->
  Player.reset p = Player.reset q.
Proof.
  destruct p, q.
  cbn [Player.anchorX Player.size Player.gravity Player.maxFallSpeed
       Player.maxRiseSpeed Player.jumpStrength Player.coyoteTime
       Player.jumpBufferTime Player.gravityScaleDuringBoost Player.respawnY].
  intros. subst. reflexivity.
Qed.

Lemma reset_set_gravityScaleDuringBoost (g : Q) (p : Player.t) :
  Player.reset (Player.set_gravityScaleDuringBoost g p)
  = Player.set_gravityScaleDuringBoost g (Player.reset p).
Proof. destruct p. reflexivity. Qed.

(** X8.  [reset] restores every mutable field of the player except the
    gravity scale stored by a boost: it is idempotent, it erases the effect
    of [die], [land], both jumps, [flipGravity], [update] and
    [postResolve], and after [applyBoost] it differs from a plain reset
    only in [gravityScaleDuringBoost], which a boost with a nonzero
    [gravityScale] has replaced for good. *)
Theorem player_reset_erases (p : Player.t) :
  Player.reset (Player.reset p) = Player.reset p
  /\ Player.reset (Player.die p) = Player.reset p
  /\ (forall surfaceY, Player.reset (Player.land surfaceY p) = Player.reset p)
  /\ (forall strength,
         Player.reset (Player.performJump strength p) = Player.reset p
         /\ Player.reset (Player.performOrbJump strength p) = Player.reset p)
  /\ (forall target, Player.reset (Player.flipGravity target p) = Player.reset p)
  /\ (forall dt input,
         Player.reset (fst (Player.update dt input p)) = Player.reset p)
  /\ Player.reset (Player.postResolve p) = Player.reset p
  /\ (forall b,
         Player.reset (Player.applyBoost b p)
         = if Js.truthy (Player.gravityScale b)
           then Player.set_gravityScaleDuringBoost
                  (Player.gravityScale b ?? 0) (Player.reset p)
           else Player.reset p)
  /\ Player.gravityScaleDuringBoost (Player.reset p)
     = Player.gravityScaleDuringBoost p.
Proof.
  split; [apply reset_eq; reflexivity |].
  split; [apply reset_eq; reflexivity |].
  split; [| split; [intro; split; apply reset_eq; reflexivity |]].
  2: split; [| split; [| split; [| split; [| reflexivity]]]].
  - intro surfaceY. unfold Player.land.
    destruct (_ === _); apply reset_eq; reflexivity.
  - intro target. unfold Player.flipGravity.
    destruct (_ === _); [reflexivity |].
    destruct (_ === _); apply reset_eq; reflexivity.
  - intros dt input. unfold Player.update.
    destruct (negb (Player.isAlive p)); [reflexivity |].
    destruct (InputManager.consumeJumpRequest input) as [requested input'].
    cbv zeta. unfold fst.
    destruct requested;
      repeat match goal with
        | |- context [if ?c then _ else _] => destruct c
        end; apply reset_eq; reflexivity.
  - unfold Player.postResolve.
    destruct (negb (Player.isAlive p)); [reflexivity |].
    destruct (_ && _); apply reset_eq; reflexivity.
  - intro b. unfold Player.applyBoost.
    destruct (Js.truthy _); [| apply reset_eq; reflexivity].
    rewrite reset_set_gravityScaleDuringBoost.
    apply (f_equal (Player.set_gravityScaleDuringBoost _)).
    apply reset_eq; reflexivity.
Qed.

Lemma land_bounds (surfaceY : Q) (p : Player.t) :
  let landed := Player.getBounds (Player.land surfaceY p) in
  (Player.gravityDirection p == 1 -> Rectangle.bottom landed == surfaceY)
  /\ (~ Player.gravityDirection p == 1 -> Rectangle.top landed == surfaceY)
  /\ Rectangle.left landed = Rectangle.left (Player.getBounds p)
  /\ Rectangle.width landed = Player.size p
  /\ Rectangle.height landed = Player.size p.
Proof.
  cbv zeta. unfold Player.land.
  destruct (seq_reflect (Player.gravityDirection p) 1) as [E | E];
    unfold Player.getBounds, Rectangle.bottom, Rectangle.top, Rectangle.left,
      Player.halfSize; simpl;
    (split; [| split; [| repeat split]]); intros; try contradiction;
    try reflexivity; literal_div; lra.
Qed.

(** X9.  [land] puts the edge of the hitbox that faces gravity exactly on
    the surface: the bottom edge under gravity [+1], the top edge
    otherwise; the horizontal extent and the size of the hitbox are
    unchanged. *)
Theorem player_land_touches_surface (surfaceY : Q) (p : Player.t) :
  let landed := Player.getBounds (Player.land surfaceY p) in
  (Player.gravityDirection p == 1 -> Rectangle.bottom landed == surfaceY)
  /\ (~ Player.gravityDirection p == 1 -> Rectangle.top landed == surfaceY)
  /\ Rectangle.left landed = Rectangle.left (Player.getBounds p)
  /\ Rectangle.width landed = Player.size p
  /\ Rectangle.height landed = Player.size p.
Proof. exact (land_bounds surfaceY p). Qed.

Lemma player_land_touches_surface_witness :
  Rectangle.bottom (Player.getBounds (Player.land 400 Player.new)) == 400.
Proof.
  apply (proj1 (player_land_touches_surface 400 Player.new)). reflexivity.
Defined.

(** X10.  The floor and ceiling clamp of the resolver.  After the opening
    clamp a player under gravity [+1] has its bottom edge at or above the
    floor line ([<= FLOOR_Y]) and a player under any other gravity has its
    top edge at or below the ceiling line ([>= CEILING_Y]); a player
    strictly inside is left untouched.  The closing re-validation gives
    the same guarantee to a grounded player under gravity [+1] or [-1]. *)
Theorem level_clamp_keeps_player_in_world (p : Player.t) :
  (Player.gravityDirection p == 1 ->
   Rectangle.bottom (Player.getBounds (Level.clampToWorld p)) <= FLOOR_Y)
  /\ (~ Player.gravityDirection p == 1 ->
      CEILING_Y <= Rectangle.top (Player.getBounds (Level.clampToWorld p)))
  /\ (Rectangle.bottom (Player.getBounds p) < FLOOR_Y ->
      CEILING_Y < Rectangle.top (Player.getBounds p) ->
      Level.clampToWorld p = p)
  /\ (Player.isGrounded p = true ->
      (Player.gravityDirection p == 1 ->
       Rectangle.bottom (Player.getBounds (Level.revalidate p)) <= FLOOR_Y)
      /\ (Player.gravityDirection p == -1 ->
          CEILING_Y <= Rectangle.top (Player.getBounds (Level.revalidate p)))).
Proof.
  pose proof (land_bounds FLOOR_Y p) as [LF _].
  pose proof (land_bounds CEILING_Y p) as [_ [LC _]].
  split; [| split; [| split]].
  - intro Hd. unfold Level.clampToWorld. rewrite (seq_true _ _ Hd).
    destruct (ge_reflect (Rectangle.bottom (Player.getBounds p)) FLOOR_Y).
    + specialize (LF Hd). lra.
    + lra.
  - intro Hd. unfold Level.clampToWorld. rewrite (seq_false _ _ Hd).
    destruct (le_reflect (Rectangle.top (Player.getBounds p)) CEILING_Y).
    + specialize (LC Hd). lra.
    + lra.
  - intros Hb Ht. unfold Level.clampToWorld.
    destruct (_ === _).
    + destruct (ge_reflect (Rectangle.bottom (Player.getBounds p)) FLOOR_Y);
        [lra | reflexivity].
    + destruct (le_reflect (Rectangle.top (Player.getBounds p)) CEILING_Y);
        [lra | reflexivity].
  - intro Hg. unfold Level.revalidate. rewrite Hg. cbn [andb]. split.
    + intro Hd. rewrite (seq_true _ _ Hd). cbn [andb].
      destruct (gt_reflect (Rectangle.bottom (Player.getBounds p)) FLOOR_Y).
      * rewrite land_isGrounded, land_gravityDirection.
        rewrite (seq_false (Player.gravityDirection p) (-1)) by lra.
        cbn [andb]. cbv iota. specialize (LF Hd). lra.
      * rewrite Hg. rewrite (seq_false (Player.gravityDirection p) (-1)) by lra.
        cbn [andb]. cbv iota. lra.
    + intro Hd. rewrite (seq_false (Player.gravityDirection p) 1) by lra.
      cbn [andb]. cbv iota. rewrite Hg, (seq_true _ _ Hd). cbn [andb].
      destruct (lt_reflect (Rectangle.top (Player.getBounds p)) CEILING_Y).
      * assert (Hn : ~ Player.gravityDirection p == 1) by lra.
        specialize (LC Hn). lra.
      * lra.
Qed.

Lemma level_clamp_keeps_player_in_world_witness :
  Rectangle.bottom
    (Player.getBounds (Level.clampToWorld (Player.set_position_y 900 Player.new)))
  <= FLOOR_Y.
Proof.
  apply (proj1 (level_clamp_keeps_player_in_world
                  (Player.set_position_y 900 Player.new))).
  reflexivity.
Defined.

(** X11.  [flipGravity] without a target toggles: a direction of [+1] or
    [-1] is negated, and a second call gives the original direction back;
    each flip leaves the player in the band of its new direction with no
    vertical velocity, not grounded and without coyote time. *)
Theorem player_flipGravity_toggles (p : Player.t) :
  Player.gravityDirection p == 1 \/ Player.gravityDirection p == -1 ->
  let once := Player.flipGravity None p in
  let twice := Player.flipGravity None once in
  Player.gravityDirection once == - Player.gravityDirection p
  /\ Player.gravityDirection twice == Player.gravityDirection p
  /\ vy (Player.velocity once) = 0
  /\ Player.isGrounded once = false
  /\ Player.coyoteTimer once = 0
  /\ (Player.gravityDirection p == -1 ->
      vy (Player.position once) <= FLOOR_Y - Player.halfSize p)
  /\ (Player.gravityDirection p == 1 ->
      CEILING_Y + Player.halfSize p <= vy (Player.position once)).
Proof.
  intro Hd. cbv zeta.
  assert (Hflip : forall q : Player.t,
             Player.gravityDirection q == 1 \/ Player.gravityDirection q == -1 ->
             let r := Player.flipGravity None q in
             Player.gravityDirection r = - Player.gravityDirection q
             /\ vy (Player.velocity r) = 0
             /\ Player.isGrounded r = false
             /\ Player.coyoteTimer r = 0
             /\ (Player.gravityDirection q == -1 ->
                 vy (Player.position r) <= FLOOR_Y - Player.halfSize q)
             /\ (Player.gravityDirection q == 1 ->
                 CEILING_Y + Player.halfSize q <= vy (Player.position r))).
  { intros q Hq. cbv zeta. unfold Player.flipGravity. simpl Js.nullish.
    rewrite (seq_false (- Player.gravityDirection q) (Player.gravityDirection q))
      by (destruct Hq; lra).
    destruct (seq_reflect (- Player.gravityDirection q) 1) as [E | E]; simpl;
      repeat split; intros; try lra;
      solve [apply Q.le_min_r | apply Q.le_max_r]. }
  destruct (Hflip p Hd) as (D1 & V & G & C & B1 & B2). cbv zeta in *.
  destruct (Hflip (Player.flipGravity None p)) as (D2 & _).
  { rewrite D1. destruct Hd; [right | left]; lra. }
  cbv zeta in D2.
  repeat split; try assumption.
  - rewrite D1. reflexivity.
  - rewrite D2, D1. ring.
Qed.

Lemma player_flipGravity_toggles_witness :
  Player.gravityDirection
    (Player.flipGravity None (Player.flipGravity None Player.new)) == 1.
Proof.
  apply (player_flipGravity_toggles Player.new). left. reflexivity.
Defined.

(** * Further properties of the entities and the resolver *)

Lemma updateCooldown_blueprint (dt : Q) (e : SegmentEntity.t) :
  blueprint_of (SegmentEntity.updateCooldown dt e) = blueprint_of e.
Proof. unfold SegmentEntity.updateCooldown. destruct (_ >? _); reflexivity. Qed.

Lemma updateCooldown_type (dt : Q) (e : SegmentEntity.t) :
  SegmentEntity.type (SegmentEntity.updateCooldown dt e) = SegmentEntity.type e.
Proof. unfold SegmentEntity.updateCooldown. destruct (_ >? _); reflexivity. Qed.

Lemma updateCooldown_value (dt : Q) (e : SegmentEntity.t) :
  0 <= SegmentEntity.cooldown e -> 0 <= dt ->
  SegmentEntity.cooldown (SegmentEntity.updateCooldown dt e)
  == Qmax 0 (SegmentEntity.cooldown e - dt).
Proof.
  intros Hc Hdt. unfold SegmentEntity.updateCooldown.
  destruct (gt_reflect (SegmentEntity.cooldown e) 0); [reflexivity |].
  rewrite Q.max_l by lra. lra.
Qed.

(** X12.  Cooldown decay.  One cooldown update with a non-negative time
    step brings a non-negative cooldown to zero when the step is at least
    the cooldown, and takes the step off it otherwise.  Over any number
    of frames with non-negative time steps in which an entity is only
    cooled down, its cooldown never goes below zero and never grows, a
    cooldown of zero stays zero, and nothing else of the entity
    changes. *)
Theorem entity_cooldown_decay (steps : list Q) (e : SegmentEntity.t) :
  0 <= SegmentEntity.cooldown e ->
  (forall dt, In dt steps -> 0 <= dt) ->
  (forall dt, 0 <= dt ->
      (SegmentEntity.cooldown e <= dt ->
       SegmentEntity.cooldown (SegmentEntity.updateCooldown dt e) == 0)
      /\ (dt < SegmentEntity.cooldown e ->
          SegmentEntity.cooldown (SegmentEntity.updateCooldown dt e)
          == SegmentEntity.cooldown e - dt))
  /\ 0 <= SegmentEntity.cooldown (cool steps e)
  /\ SegmentEntity.cooldown (cool steps e) <= SegmentEntity.cooldown e
  /\ (SegmentEntity.cooldown e == 0 ->
      SegmentEntity.cooldown (cool steps e) == 0)
  /\ blueprint_of (cool steps e) = blueprint_of e.
Proof.
  intros Hc Hsteps.
  assert (Hmain : (0 <= SegmentEntity.cooldown (cool steps e)
                   /\ SegmentEntity.cooldown (cool steps e)
                      <= SegmentEntity.cooldown e)
                  /\ blueprint_of (cool steps e) = blueprint_of e).
  { revert e Hc. induction steps as [| dt rest IH]; intros e Hc; simpl.
    - split; [split; lra | reflexivity].
    - assert (Hdt : 0 <= dt) by (apply Hsteps; left; reflexivity).
      pose proof (updateCooldown_value dt e Hc Hdt) as E.
      destruct (IH (fun d Hd => Hsteps d (or_intror Hd))
                   (SegmentEntity.updateCooldown dt e)) as [[IH1 IH2] IH3].
      + rewrite E. apply Q.le_max_l.
      + split.
        * split; [exact IH1 |].
          eapply Qle_trans; [exact IH2 |].
          rewrite E. apply Q.max_lub; lra.
        * rewrite IH3. apply updateCooldown_blueprint. }
  destruct Hmain as [[Hlo Hhi] B].
  split.
  - intros dt Hdt. rewrite (updateCooldown_value dt e Hc Hdt).
    split; intro H; [apply Q.max_l | apply Q.max_r]; lra.
  - split; [exact Hlo |]. split; [exact Hhi |].
    split; [intro Hzero; lra | exact B].
Qed.

Lemma entity_cooldown_decay_witness :
  SegmentEntity.cooldown
    (cool [1 / 2; 1 / 2]
       (SegmentEntity.set_cooldown 1
          (SegmentEntity.new (portal_at 1120 400 64 200 (-1) 1))))
  <= 1.
Proof.
  exact (proj1 (proj2 (proj2
           (entity_cooldown_decay [1 / 2; 1 / 2]
              (SegmentEntity.set_cooldown 1
                 (SegmentEntity.new (portal_at 1120 400 64 200 (-1) 1)))
              ltac:(discriminate)
              ltac:(intros dt [<- | [<- | []]]; discriminate))))).
Defined.

Lemma land_keeps_alive_flag (s : Q) (p : Player.t) :
  Player.isAlive (Player.land s p) = Player.isAlive p.
Proof. apply land_isAlive. Qed.

Lemma flipGravity_isAlive (target : option Q) (p : Player.t) :
  Player.isAlive (Player.flipGravity target p) = Player.isAlive p.
Proof.
  unfold Player.flipGravity. destruct (_ === _); [reflexivity |].
  destruct (_ === _); reflexivity.
Qed.

Lemma applyBoost_isAlive (b : Player.Boost) (p : Player.t) :
  Player.isAlive (Player.applyBoost b p) = Player.isAlive p.
Proof. unfold Player.applyBoost. destruct (Js.truthy _); reflexivity. Qed.

Lemma resolvePlatform_isAlive (player : Player.t) (entity : SegmentEntity.t)
      (offset : Q) (currentRect previousRect : Rectangle.t) :
  Player.isAlive
    (fst (Level.resolvePlatform player entity offset currentRect previousRect))
  = Player.isAlive player.
Proof.
  unfold Level.resolvePlatform.
  destruct (negb _); [reflexivity |].
  destruct (_ === _); destruct (_ && _); simpl; try reflexivity;
    apply land_isAlive.
Qed.

(** One entity: it keeps everything but its cooldown; only a spike can end
    the resolution, and then the player is dead; otherwise the player is
    as alive as before. *)
Lemma resolveEntity_frame (input : InputManager.t) (dt offset : Q)
      (previousRect : Rectangle.t) (player : Player.t)
      (playerRect : Rectangle.t) (entity : SegmentEntity.t) :
  let result := Level.resolveEntity input dt offset previousRect player
                                    playerRect entity in
  blueprint_of (snd result) = blueprint_of entity
  /\ (Level.r_returned (fst result) = true ->
      SegmentEntity.type entity = spike
      /\ Player.isAlive (Level.r_player (fst result)) = false)
  /\ (Level.r_returned (fst result) = false ->
      Player.isAlive (Level.r_player (fst result)) = Player.isAlive player).
Proof.
  cbv zeta. unfold Level.resolveEntity.
  pose proof (updateCooldown_blueprint dt entity) as B.
  pose proof (updateCooldown_type dt entity) as T.
  set (e := SegmentEntity.updateCooldown dt entity) in *.
  rewrite <- B, <- T.
  destruct (SegmentEntity.type e).
  - pose proof (resolvePlatform_isAlive player e offset playerRect previousRect)
      as A.
    destruct (Level.resolvePlatform player e offset playerRect previousRect)
      as [player' rect'].
    simpl in *. repeat split; try discriminate. intros _. exact A.
  - destruct (Level.checkSpikeCollision playerRect offset e); simpl;
      repeat split; try discriminate; reflexivity.
  - destruct (_ && _); simpl; repeat split; try discriminate; intros _;
      try reflexivity. apply applyBoost_isAlive.
  - destruct (_ && _); [destruct (_ || _) |]; simpl; repeat split;
      try discriminate; reflexivity.
  - destruct (_ && _); simpl; repeat split; try discriminate; intros _;
      try reflexivity. apply flipGravity_isAlive.
  - simpl. repeat split; try discriminate; reflexivity.
Qed.

Lemma resolveEntities_frame (input : InputManager.t) (dt offset : Q)
      (previousRect : Rectangle.t) (entities : list SegmentEntity.t) :
  forall (player : Player.t) (playerRect : Rectangle.t),
    let result := Level.resolveEntities input dt offset previousRect player
                                        playerRect entities in
    map blueprint_of (snd result) = map blueprint_of entities
    /\ (Level.r_returned (fst result) = true ->
        exists e, In e entities /\ SegmentEntity.type e = spike)
    /\ (Level.r_returned (fst result) = false ->
        Player.isAlive (Level.r_player (fst result)) = Player.isAlive player).
Proof.
  induction entities as [| entity rest IH]; intros player playerRect; simpl.
  - repeat split; try discriminate; reflexivity.
  - pose proof (resolveEntity_frame input dt offset previousRect player
                  playerRect entity) as F. cbv zeta in F.
    destruct (Level.resolveEntity input dt offset previousRect player
                playerRect entity) as [state entity'].
    simpl in F. destruct F as (B & R & A).
    destruct (Level.r_returned state) eqn:Hret.
    + simpl. rewrite B, Hret. repeat split; try discriminate.
      intros _. exists entity. split; [left; reflexivity | apply R; reflexivity].
    + specialize (IH (Level.r_player state) (Level.r_rect state)).
      cbv zeta in IH.
      destruct (Level.resolveEntities input dt offset previousRect
                  (Level.r_player state) (Level.r_rect state) rest)
        as [state' rest'].
      simpl in *. destruct IH as (B' & R' & A').
      rewrite B, B'. repeat split.
      * intro H. destruct (R' H) as (e & He & Hs). exists e. auto.
      * intro H. rewrite (A' H). apply A. reflexivity.
Qed.

Lemma resolveSegments_frame (input : InputManager.t)
      (dt visibleStart visibleEnd : Q) (previousRect : Rectangle.t)
      (segments : list LevelSegment.t) :
  forall (player : Player.t) (playerRect : Rectangle.t),
    let result := Level.resolveSegments input dt visibleStart visibleEnd
                    previousRect player playerRect segments in
    map layout_of (snd result) = map layout_of segments
    /\ (Level.r_returned (fst result) = true ->
        exists s e, In s segments /\ In e (LevelSegment.entities s)
                    /\ SegmentEntity.type e = spike)
    /\ (Level.r_returned (fst result) = false ->
        Player.isAlive (Level.r_player (fst result)) = Player.isAlive player).
Proof.
  induction segments as [| segment rest IH]; intros player playerRect; simpl.
  - repeat split; try discriminate; reflexivity.
  - destruct (_ || _).
    + specialize (IH player playerRect). cbv zeta in IH.
      destruct (Level.resolveSegments input dt visibleStart visibleEnd
                  previousRect player playerRect rest) as [state rest'].
      simpl in *. destruct IH as (B & R & A).
      rewrite B. repeat split; [| exact A].
      intro H. destruct (R H) as (s & e & Hs & He & Ht). exists s, e. auto.
    + pose proof (resolveEntities_frame input dt (LevelSegment.offset segment)
                    previousRect (LevelSegment.entities segment) player
                    playerRect) as F. cbv zeta in F.
      destruct (Level.resolveEntities input dt (LevelSegment.offset segment)
                  previousRect player playerRect
                  (LevelSegment.entities segment)) as [state entities'].
      simpl in F. destruct F as (B & R & A).
      destruct (Level.r_returned state) eqn:Hret.
      * simpl. unfold layout_of at 1. simpl. rewrite B, Hret.
        repeat split; try discriminate.
        intros _. destruct (R eq_refl) as (e & He & Ht).
        exists segment, e. auto.
      * specialize (IH (Level.r_player state) (Level.r_rect state)).
        cbv zeta in IH.
        destruct (Level.resolveSegments input dt visibleStart visibleEnd
                    previousRect (Level.r_player state) (Level.r_rect state)
                    rest) as [state' rest'].
        simpl in *. destruct IH as (B' & R' & A').
        unfold layout_of at 1. simpl. rewrite B, B'. repeat split.
        -- intro H. destruct (R' H) as (s & e & Hs & He & Ht).
           exists s, e. auto.
        -- intro H. rewrite (A' H). apply A. reflexivity.
Qed.

Lemma clampToWorld_isAlive (p : Player.t) :
  Player.isAlive (Level.clampToWorld p) = Player.isAlive p.
Proof. apply (clampToWorld_keeps_jump_fields p). Qed.

Lemma revalidate_isAlive (p : Player.t) :
  Player.isAlive (Level.revalidate p) = Player.isAlive p.
Proof. apply (revalidate_keeps_jump_fields p). Qed.

Lemma layout_adjacent (segments segments' : list LevelSegment.t) :
  map layout_of segments' = map layout_of segments ->
  length segments' = length segments
  /\ (adjacent segments -> adjacent segments').
Proof.
  intro H. split.
  - rewrite <- (length_map layout_of segments'), H. apply length_map.
  - intros Hadj i a b Ha Hb.
    assert (Hnth : forall j x, nth_error segments' j = Some x ->
                     exists y, nth_error segments j = Some y
                               /\ layout_of y = layout_of x).
    { intros j x Hx.
      pose proof (map_nth_error layout_of j segments' Hx) as M.
      rewrite H, nth_error_map in M.
      destruct (nth_error segments j) as [y |]; [| discriminate].
      simpl in M. exists y. split; [reflexivity | congruence]. }
    destruct (Hnth i a Ha) as (a0 & Ha0 & Ea).
    destruct (Hnth (S i) b Hb) as (b0 & Hb0 & Eb).
    pose proof (Hadj i a0 b0 Ha0 Hb0) as Hoff.
    unfold layout_of in Ea, Eb. inversion Ea. inversion Eb.
    unfold LevelSegment.end_ in *. congruence.
Qed.

(** X13.  The resolver changes nothing of the level but entity cooldowns:
    templates, scroll state and viewport are kept, and so are the layout of
    every segment (its template, its offset, and the type, geometry,
    orientation and properties of each entity).  In particular the number
    of active segments and their adjacency survive [resolvePlayer]. *)
Theorem level_resolvePlayer_keeps_layout (player : Player.t)
        (input : InputManager.t) (dt : Q) (l : Level.t) :
  let l' := snd (Level.resolvePlayer player input dt l) in
  Level.templates l' = Level.templates l
  /\ Level.scrollX l' = Level.scrollX l
  /\ Level.currentSpeed l' = Level.currentSpeed l
  /\ Level.baseSpeed l' = Level.baseSpeed l
  /\ Level.viewportWorldWidth l' = Level.viewportWorldWidth l
  /\ Level.recycleMargin l' = Level.recycleMargin l
  /\ map layout_of (Level.activeSegments l')
     = map layout_of (Level.activeSegments l)
  /\ (window l -> window l').
Proof.
  cbv zeta. unfold Level.resolvePlayer.
  pose proof (resolveSegments_frame input dt
                (Level.scrollX l - Level.recycleMargin l)
                (Level.scrollX l + Level.viewportWorldWidth l
                 + Level.recycleMargin l)
                (Player.getPreviousBounds player) (Level.activeSegments l)
                (Level.clampToWorld player)
                (Player.getBounds (Level.clampToWorld player))) as F.
  cbv zeta in F.
  destruct (Level.resolveSegments _ _ _ _ _ _ _ _) as [state segments].
  simpl in F. destruct F as (B & _ & _).
  destruct (Level.r_returned state); simpl;
    (repeat split; try reflexivity; try exact B);
    destruct (layout_adjacent _ _ B) as [L A]; unfold window in *; simpl;
    intuition congruence.
Qed.

Lemma level_resolvePlayer_keeps_layout_witness :
  match Level.reset (Level.new SEGMENT_LIBRARY) with
  | Returned l0 =>
      window (snd (Level.resolvePlayer (Player.set_position_x 350 Player.new)
                     InputManager.new (1 / 60) l0))
  | _ => False
  end.
Proof.
  destruct (reset_returns (Level.new SEGMENT_LIBRARY) ltac:(discriminate))
    as (l0 & R & _ & _ & _ & _ & L & C & _).
  rewrite R.
  apply (level_resolvePlayer_keeps_layout
           (Player.set_position_x 350 Player.new) InputManager.new (1 / 60) l0).
  split; [exact L | apply chained_adjacent; exact C].
Defined.

(** X14.  Only spikes kill, and the resolver never revives: a player that
    comes out of [resolvePlayer] alive went in alive, a player that went in
    alive and comes out dead has met a spike of an active segment, and on
    a level without spikes the alive flag is unchanged. *)
Theorem level_only_spikes_kill (player : Player.t) (input : InputManager.t)
        (dt : Q) (l : Level.t) :
  let player' := fst (Level.resolvePlayer player input dt l) in
  (Player.isAlive player' = true -> Player.isAlive player = true)
  /\ (Player.isAlive player = true -> Player.isAlive player' = false ->
      exists s e, In s (Level.activeSegments l)
                  /\ In e (LevelSegment.entities s)
                  /\ SegmentEntity.type e = spike)
  /\ (spike_free l -> Player.isAlive player' = Player.isAlive player).
Proof.
  cbv zeta. unfold Level.resolvePlayer.
  pose proof (resolveSegments_frame input dt
                (Level.scrollX l - Level.recycleMargin l)
                (Level.scrollX l + Level.viewportWorldWidth l
                 + Level.recycleMargin l)
                (Player.getPreviousBounds player) (Level.activeSegments l)
                (Level.clampToWorld player)
                (Player.getBounds (Level.clampToWorld player))) as F.
  cbv zeta in F.
  pose proof (resolveSegments_returned_dead input dt
                (Level.scrollX l - Level.recycleMargin l)
                (Level.scrollX l + Level.viewportWorldWidth l
                 + Level.recycleMargin l)
                (Player.getPreviousBounds player) (Level.activeSegments l)
                (Level.clampToWorld player)
                (Player.getBounds (Level.clampToWorld player))) as D.
  cbv zeta in D.
  destruct (Level.resolveSegments _ _ _ _ _ _ _ _) as [state segments].
  simpl in F, D. destruct F as (_ & R & A).
  rewrite clampToWorld_isAlive in A.
  destruct (Level.r_returned state) eqn:Hret; simpl.
  - specialize (D eq_refl). destruct (R eq_refl) as (s & e & Hs & He & Ht).
    split; [congruence |]. split; [intros; exists s, e; auto |].
    intro Hfree. exfalso. exact (Hfree s e Hs He Ht).
  - rewrite revalidate_isAlive, (A eq_refl).
    split; [tauto |]. split; [congruence | reflexivity].
Qed.

Lemma level_only_spikes_kill_witness :
  Player.isAlive
    (fst (Level.resolvePlayer Player.new InputManager.new (1 / 60)
            (Level.new SEGMENT_LIBRARY)))
  = true.
Proof.
  rewrite (proj2 (proj2 (level_only_spikes_kill Player.new InputManager.new
                           (1 / 60) (Level.new SEGMENT_LIBRARY))));
    [reflexivity |].
  intros s e [].
Defined.

(** While an entity's cooldown outlasts the frame it cannot trigger. *)
Lemma cooling_entity_idle (input : InputManager.t) (dt offset : Q)
      (previousRect : Rectangle.t) (player : Player.t)
      (playerRect : Rectangle.t) (entity : SegmentEntity.t) :
  SegmentEntity.type entity = booster \/ SegmentEntity.type entity = orb
  \/ SegmentEntity.type entity = portal ->
  0 < SegmentEntity.cooldown entity ->
  dt < SegmentEntity.cooldown entity ->
  Level.resolveEntity input dt offset previousRect player playerRect entity
  = (Level.resolving player playerRect false,
     SegmentEntity.updateCooldown dt entity).
Proof.
  intros Htype Hpos Hdt. unfold Level.resolveEntity.
  pose proof (updateCooldown_type dt entity) as T.
  assert (Hc : (SegmentEntity.cooldown (SegmentEntity.updateCooldown dt entity)
                === 0) = false).
  { apply seq_false. unfold SegmentEntity.updateCooldown.
    rewrite (gt_true _ _ Hpos). simpl.
    destruct (Q.max_spec 0 (SegmentEntity.cooldown entity - dt))
      as [[? E]|[? E]]; rewrite E; lra. }
  set (e := SegmentEntity.updateCooldown dt entity) in *.
  rewrite T.
  destruct Htype as [-> | [-> | ->]]; rewrite Hc;
    rewrite ?andb_false_r; simpl; reflexivity.
Qed.

(** X15.  Cooldown gating.  A booster, orb or portal whose positive
    cooldown is larger than the time step of the frame does not trigger,
    whatever the overlap and the input: the player and its rectangle are
    unchanged and the entity is only cooled down.  An entity of an unknown
    type never acts on the player. *)
Theorem level_cooldown_gates_entities (input : InputManager.t) (dt offset : Q)
        (previousRect : Rectangle.t) (player : Player.t)
        (playerRect : Rectangle.t) (entity : SegmentEntity.t) :
  (SegmentEntity.type entity = booster \/ SegmentEntity.type entity = orb
   \/ SegmentEntity.type entity = portal ->
   0 < SegmentEntity.cooldown entity ->
   dt < SegmentEntity.cooldown entity ->
   Level.resolveEntity input dt offset previousRect player playerRect entity
   = (Level.resolving player playerRect false,
      SegmentEntity.updateCooldown dt entity))
  /\ (SegmentEntity.type entity = unknown ->
      Level.resolveEntity input dt offset previousRect player playerRect entity
      = (Level.resolving player playerRect false,
         SegmentEntity.updateCooldown dt entity)).
Proof.
  split; [apply cooling_entity_idle |].
  intro Htype. unfold Level.resolveEntity.
  rewrite (updateCooldown_type dt entity), Htype. reflexivity.
Qed.

Lemma level_cooldown_gates_entities_witness :
  let portal_entity :=
    SegmentEntity.set_cooldown 1
      (SegmentEntity.new (portal_at 1120 400 64 200 (-1) 1)) in
  fst (Level.resolveEntity InputManager.new (1 / 30) 0
         (Rectangle.new 1120 500 64 64) Player.new
         (Rectangle.new 1120 500 64 64) portal_entity)
  = Level.resolving Player.new (Rectangle.new 1120 500 64 64) false.
Proof.
  cbv zeta.
  rewrite (proj1 (level_cooldown_gates_entities InputManager.new (1 / 30) 0
                    (Rectangle.new 1120 500 64 64) Player.new
                    (Rectangle.new 1120 500 64 64)
                    (SegmentEntity.set_cooldown 1
                       (SegmentEntity.new (portal_at 1120 400 64 200 (-1) 1)))));
    [reflexivity | right; right; reflexivity | reflexivity | reflexivity].
Defined.

(** X16.  Booster debounce.  A booster that the player overlaps while its
    cooldown is zero applies its boost (with the defaults 1.2, 1 and 0.7
    for missing properties) and is given the cooldown
    [(cooldown ?? duration ?? 1) + 0.2]; when that base is not negative the
    booster cannot fire again in a following frame whose time step is at
    most [MAX_DELTA_TIME]. *)
Theorem level_booster_fires_then_rests (input : InputManager.t) (dt offset : Q)
        (previousRect : Rectangle.t) (player : Player.t)
        (playerRect : Rectangle.t) (entity : SegmentEntity.t) :
  SegmentEntity.type entity = booster ->
  SegmentEntity.cooldown (SegmentEntity.updateCooldown dt entity) == 0 ->
  Level.checkEntityOverlap playerRect offset
    (SegmentEntity.updateCooldown dt entity) = true ->
  let properties := SegmentEntity.properties entity in
  let base := match p_cooldown properties with
              | Some c => c
              | None => p_duration properties ?? 1
              end in
  let result := Level.resolveEntity input dt offset previousRect player
                                    playerRect entity in
  Level.r_player (fst result)
  = Player.applyBoost
      (Player.boost (Some (p_multiplier properties ?? 1.2))
                    (Some (p_duration properties ?? 1))
                    (Some (p_gravityScale properties ?? 0.7)))
      player
  /\ SegmentEntity.cooldown (snd result) = base + 0.2
  /\ (0 <= base ->
      forall input' dt' offset' previousRect' player' playerRect',
        dt' <= MAX_DELTA_TIME ->
        fst (Level.resolveEntity input' dt' offset' previousRect' player'
                                 playerRect' (snd result))
        = Level.resolving player' playerRect' false).
Proof.
  intros Htype Hzero Hover. cbv zeta.
  assert (Hp : SegmentEntity.properties (SegmentEntity.updateCooldown dt entity)
               = SegmentEntity.properties entity).
  { unfold SegmentEntity.updateCooldown. destruct (_ >? _); reflexivity. }
  assert (E : Level.resolveEntity input dt offset previousRect player
                playerRect entity
              = (Level.resolving
                   (Player.applyBoost
                      (Player.boost
                         (Some (p_multiplier (SegmentEntity.properties entity) ?? 1.2))
                         (Some (p_duration (SegmentEntity.properties entity) ?? 1))
                         (Some (p_gravityScale (SegmentEntity.properties entity) ?? 0.7)))
                      player)
                   playerRect false,
                 SegmentEntity.set_cooldown
                   (match p_cooldown (SegmentEntity.properties entity) with
                    | Some c => c
                    | None => p_duration (SegmentEntity.properties entity) ?? 1
                    end + 0.2)
                   (SegmentEntity.updateCooldown dt entity))).
  { unfold Level.resolveEntity.
    rewrite (updateCooldown_type dt entity), Htype, Hover,
      (seq_true _ _ Hzero), Hp. reflexivity. }
  rewrite E. simpl fst. simpl snd.
  split; [reflexivity |]. split; [reflexivity |].
  intros Hbase input' dt' offset' previousRect' player' playerRect' Hdt'.
  rewrite cooling_entity_idle; [reflexivity | | |].
  - left. simpl. rewrite (updateCooldown_type dt entity). exact Htype.
  - simpl. lra.
  - simpl. unfold MAX_DELTA_TIME in Hdt'.
    assert (1 / 30 < 0.2) by reflexivity. lra.
Qed.

Lemma level_booster_fires_then_rests_witness :
  let entity := SegmentEntity.new (booster_at 320 480 80 80 1.35 1.2 0.55) in
  let result :=
    Level.resolveEntity InputManager.new (1 / 60) 0
      (Rectangle.new 330 490 64 64) Player.new
      (Rectangle.new 330 490 64 64) entity in
  Player.speedMultiplier (Level.r_player (fst result)) = 1.35
  /\ SegmentEntity.cooldown (snd result) = 1.2 + 0.2.
Proof.
  cbv zeta.
  destruct (level_booster_fires_then_rests InputManager.new (1 / 60) 0
              (Rectangle.new 330 490 64 64) Player.new
              (Rectangle.new 330 490 64 64)
              (SegmentEntity.new (booster_at 320 480 80 80 1.35 1.2 0.55)))
    as (P & C & _); try reflexivity.
  cbv zeta in P, C. rewrite P, C. split; reflexivity.
Defined.

(** X17.  Orbs need intent.  Without a press in this frame and without a
    held jump an orb does nothing to the player and keeps its cooldown
    decay only; with either signal, a zero cooldown and a collision, the
    orb jump is applied at once ([velocity.y = -power * gravityDirection]
    with the default power 1000, not grounded) and the orb is given its
    cooldown (default 0.3). *)
Theorem level_orb_needs_intent (input : InputManager.t) (dt offset : Q)
        (previousRect : Rectangle.t) (player : Player.t)
        (playerRect : Rectangle.t) (entity : SegmentEntity.t) :
  SegmentEntity.type entity = orb ->
  (InputManager.didPressJumpThisFrame input = false ->
   InputManager.isJumpHeld input = false ->
   Level.resolveEntity input dt offset previousRect player playerRect entity
   = (Level.resolving player playerRect false,
      SegmentEntity.updateCooldown dt entity))
  /\ (InputManager.didPressJumpThisFrame input = true
      \/ InputManager.isJumpHeld input = true ->
      SegmentEntity.cooldown (SegmentEntity.updateCooldown dt entity) == 0 ->
      Level.checkOrbCollision playerRect offset
        (SegmentEntity.updateCooldown dt entity) = true ->
      let power := p_power (SegmentEntity.properties entity) ?? 1000 in
      let result := Level.resolveEntity input dt offset previousRect player
                                        playerRect entity in
      Level.r_player (fst result) = Player.performOrbJump power player
      /\ vy (Player.velocity (Level.r_player (fst result)))
         = - power * Player.gravityDirection player
      /\ Player.isGrounded (Level.r_player (fst result)) = false
      /\ Level.r_returned (fst result) = false
      /\ SegmentEntity.cooldown (snd result)
         = p_cooldown (SegmentEntity.properties entity) ?? 0.3).
Proof.
  intro Htype.
  assert (Hp : SegmentEntity.properties (SegmentEntity.updateCooldown dt entity)
               = SegmentEntity.properties entity).
  { unfold SegmentEntity.updateCooldown. destruct (_ >? _); reflexivity. }
  split.
  - intros Hpress Hheld. unfold Level.resolveEntity.
    rewrite (updateCooldown_type dt entity), Htype, Hpress, Hheld.
    destruct (_ && _); reflexivity.
  - intros Hintent Hzero Hhit. cbv zeta. unfold Level.resolveEntity.
    rewrite (updateCooldown_type dt entity), Htype, Hhit,
      (seq_true _ _ Hzero), Hp.
    assert (Hi : InputManager.didPressJumpThisFrame input
                 || InputManager.isJumpHeld input = true)
      by (destruct Hintent as [-> | ->]; [reflexivity | apply orb_true_r]).
    rewrite Hi. simpl. repeat split; reflexivity.
Qed.

Lemma level_orb_needs_intent_witness :
  let entity := SegmentEntity.new (orb_at 720 360 28 1050 0.35) in
  Level.resolveEntity InputManager.new (1 / 60) 0
    (Rectangle.new 700 340 64 64) Player.new (Rectangle.new 700 340 64 64)
    entity
  = (Level.resolving Player.new (Rectangle.new 700 340 64 64) false,
     SegmentEntity.updateCooldown (1 / 60) entity).
Proof.
  apply (proj1 (level_orb_needs_intent InputManager.new (1 / 60) 0
                  (Rectangle.new 700 340 64 64) Player.new
                  (Rectangle.new 700 340 64 64)
                  (SegmentEntity.new (orb_at 720 360 28 1050 0.35)) eq_refl));
    reflexivity.
Defined.

(** X18.  Platforms are one-way.  Under gravity [+1] a player whose
    previous bottom edge was lower than the platform's top by more than
    the tolerance [|velocity.y| * 0.02] is not landed, whatever the
    overlap; a player that overlaps the platform and was above it within
    that tolerance is landed on its top, and the caller's rectangle becomes
    the new bounds.  Under any other gravity the same holds mirrored at
    the platform's bottom.  A platform that is not overlapped does
    nothing. *)
Theorem level_platform_is_one_way (player : Player.t) (entity : SegmentEntity.t)
        (offset : Q) (currentRect previousRect : Rectangle.t) :
  let rect := Level.entityRect offset entity in
  let tolerance := Qabs (vy (Player.velocity player)) * 0.02 in
  let result :=
    Level.resolvePlatform player entity offset currentRect previousRect in
  (Rectangle.intersects currentRect rect = false ->
   result = (player, currentRect))
  /\ (Player.gravityDirection player == 1 ->
      (Rectangle.top rect + tolerance < Rectangle.bottom previousRect ->
       result = (player, currentRect))
      /\ (Rectangle.intersects currentRect rect = true ->
          Rectangle.bottom previousRect <= Rectangle.top rect + tolerance ->
          result = (Player.land (Rectangle.top rect) player,
                    Player.getBounds (Player.land (Rectangle.top rect) player))
          /\ Rectangle.bottom (snd result) == Rectangle.top rect))
  /\ (~ Player.gravityDirection player == 1 ->
      (Rectangle.top previousRect < Rectangle.bottom rect - tolerance ->
       result = (player, currentRect))
      /\ (Rectangle.intersects currentRect rect = true ->
          Rectangle.bottom rect - tolerance <= Rectangle.top previousRect ->
          result = (Player.land (Rectangle.bottom rect) player,
                    Player.getBounds (Player.land (Rectangle.bottom rect) player))
          /\ Rectangle.top (snd result) == Rectangle.bottom rect)).
Proof.
  cbv zeta. unfold Level.resolvePlatform.
  set (rect := Level.entityRect offset entity).
  set (tolerance := Qabs (vy (Player.velocity player)) * 0.02).
  split; [| split].
  - intros ->. reflexivity.
  - intro Hd. rewrite (seq_true _ _ Hd). split.
    + intro Hbelow. destruct (negb _); [reflexivity |].
      destruct (le_reflect (Rectangle.bottom previousRect)
                  (Rectangle.top rect + tolerance)); [lra | reflexivity].
    + intros Hover Habove. rewrite Hover. simpl negb. cbv iota.
      apply intersects_true_iff in Hover. destruct Hover as [_ [_ Hv]].
      destruct (le_reflect (Rectangle.bottom previousRect)
                  (Rectangle.top rect + tolerance)); [| contradiction].
      destruct (ge_reflect (Rectangle.bottom currentRect) (Rectangle.top rect));
        [| lra].
      simpl andb. cbv iota. split; [reflexivity |].
      simpl snd.
      apply (proj1 (land_bounds (Rectangle.top rect) player) Hd).
  - intro Hd. rewrite (seq_false _ _ Hd). split.
    + intro Hbelow. destruct (negb _); [reflexivity |].
      destruct (ge_reflect (Rectangle.top previousRect)
                  (Rectangle.bottom rect - tolerance)); [lra | reflexivity].
    + intros Hover Habove. rewrite Hover. simpl negb. cbv iota.
      apply intersects_true_iff in Hover. destruct Hover as [_ [Hv _]].
      destruct (ge_reflect (Rectangle.top previousRect)
                  (Rectangle.bottom rect - tolerance)); [| contradiction].
      destruct (le_reflect (Rectangle.top currentRect) (Rectangle.bottom rect));
        [| lra].
      simpl andb. cbv iota. split; [reflexivity |].
      simpl snd.
      apply (proj1 (proj2 (land_bounds (Rectangle.bottom rect) player)) Hd).
Qed.

Lemma level_platform_is_one_way_witness :
  let entity := SegmentEntity.new (platform_at 280 440 200 32) in
  let rising := Player.set_velocity_y (-600) Player.new in
  Level.resolvePlatform rising entity 0
    (Rectangle.new 300 420 64 64) (Rectangle.new 300 480 64 64)
  = (rising, Rectangle.new 300 420 64 64).
Proof.
  apply (proj1 (proj1 (proj2 (level_platform_is_one_way
           (Player.set_velocity_y (-600) Player.new)
           (SegmentEntity.new (platform_at 280 440 200 32)) 0
           (Rectangle.new 300 420 64 64) (Rectangle.new 300 480 64 64)))
           ltac:(reflexivity)));
    reflexivity.
Defined.

(** * Further properties of the level *)

Lemma template_lookup (templates : list SegmentTemplate) (i : nat) :
  templates <> [] ->
  exists t, nth_error templates (i mod length templates) = Some t.
Proof.
  intro Hne.
  destruct (nth_error templates (i mod length templates)) as [t |] eqn:E;
    [exists t; reflexivity |].
  exfalso. apply nth_error_None in E.
  assert (length templates <> 0%nat)
    by (destruct templates; [congruence | discriminate]).
  pose proof (Nat.mod_upper_bound i (length templates) H). lia.
Qed.

(** X19.  [reset] builds the opening window from the template list alone.
    With an empty list it throws.  Otherwise it returns a level at scroll
    position zero moving at the base speed, whose four segments
    instantiate the templates in list order, wrapping around
    ([templates[i % length]]), each with fresh entities, the first at
    offset zero; the window and the scroll state the level had before play
    no part. *)
Theorem level_reset_structure (this : Level.t) :
  (Level.templates this = [] -> Level.reset this = TypeError)
  /\ (Level.templates this <> [] ->
      exists l,
        Level.reset this = Returned l
        /\ Level.scrollX l = 0
        /\ Level.currentSpeed l = Level.baseSpeed this
        /\ Level.templates l = Level.templates this
        /\ Level.viewportWorldWidth l = Level.viewportWorldWidth this
        /\ Level.recycleMargin l = Level.recycleMargin this
        /\ (forall i, (i < 4)%nat ->
            exists s t,
              nth_error (Level.activeSegments l) i = Some s
              /\ nth_error (Level.templates this)
                           (i mod length (Level.templates this)) = Some t
              /\ LevelSegment.template s = t
              /\ LevelSegment.entities s
                 = map SegmentEntity.new (t_entities t))
        /\ (forall s, nth_error (Level.activeSegments l) 0 = Some s ->
                      LevelSegment.offset s = 0))
  /\ (forall segments scroll speed,
         Level.reset
           (Level.set_activeSegments segments
              (Level.set_scrollX scroll (Level.set_currentSpeed speed this)))
         = Level.reset this).
Proof.
  split; [| split].
  - intro Hempty. unfold Level.reset. simpl. unfold Level.template_at. simpl.
    rewrite Hempty. reflexivity.
  - intro Hne.
    destruct (template_lookup (Level.templates this) 0 Hne) as [t0 E0].
    destruct (template_lookup (Level.templates this) 1 Hne) as [t1 E1].
    destruct (template_lookup (Level.templates this) 2 Hne) as [t2 E2].
    destruct (template_lookup (Level.templates this) 3 Hne) as [t3 E3].
    assert (Hfresh : forall t,
               map SegmentEntity.reset (map SegmentEntity.new (t_entities t))
               = map SegmentEntity.new (t_entities t)).
    { intro t. induction (t_entities t) as [| b rest IH]; [reflexivity |].
      simpl. rewrite IH. reflexivity. }
    assert (Hstep : forall that count index offset segments t,
               Level.templates that = Level.templates this ->
               nth_error (Level.templates this)
                         (index mod length (Level.templates this)) = Some t ->
               Level.resetLoop that (S count) index offset segments
               = Level.resetLoop that count (index + 1) (offset + t_width t)
                   (segments
                    ++ [LevelSegment.reset offset (LevelSegment.new t)])).
    { intros that count index offset segments t Ht Hl. simpl.
      unfold Level.template_at. rewrite Ht, Hl. reflexivity. }
    unfold Level.reset.
    set (that := Level.set_activeSegments [] _).
    rewrite (Hstep that 3%nat 0%nat 0 [] t0 eq_refl E0).
    rewrite (Hstep that 2%nat 1%nat _ _ t1 eq_refl E1).
    rewrite (Hstep that 1%nat 2%nat _ _ t2 eq_refl E2).
    rewrite (Hstep that 0%nat 3%nat _ _ t3 eq_refl E3).
    unfold Level.resetLoop.
    eexists. split; [reflexivity |].
    repeat (split; [reflexivity |]).
    split.
    + intros i Hi.
      destruct i as [| [| [| [| i]]]]; [| | | | lia];
        eexists; eexists; (split; [reflexivity |]);
        (split; [eassumption |]); (split; [reflexivity |]);
        unfold LevelSegment.reset, LevelSegment.new;
        cbn [LevelSegment.entities]; apply Hfresh.
    + intros s Hs. inversion Hs. reflexivity.
  - intros segments scroll speed. reflexivity.
Qed.

Lemma level_reset_structure_witness :
  exists l,
    Level.reset (Level.new SEGMENT_LIBRARY) = Returned l
    /\ map LevelSegment.template (Level.activeSegments l) = SEGMENT_LIBRARY.
Proof.
  destruct (proj1 (proj2 (level_reset_structure (Level.new SEGMENT_LIBRARY)))
              ltac:(discriminate)) as (l & R & _).
  exists l. split; [exact R |].
  vm_compute in R. inversion R. reflexivity.
Defined.

(** X20.  [pickNextTemplate] draws exactly one random number.  With a
    non-empty template list and a draw in [0, 1) it returns a template of
    the list; with an empty list, or with a negative draw, it returns
    [undefined]. *)
Theorem level_pickNextTemplate_contract (this : Level.t) (rng : Random.t) :
  snd (Level.pickNextTemplate this rng) = snd (Random.next rng)
  /\ Random.cursor (snd (Level.pickNextTemplate this rng))
     = S (Random.cursor rng)
  /\ (Level.templates this <> [] ->
      0 <= fst (Random.next rng) /\ fst (Random.next rng) < 1 ->
      exists t, fst (Level.pickNextTemplate this rng) = Some t
                /\ In t (Level.templates this))
  /\ (Level.templates this = [] ->
      fst (Level.pickNextTemplate this rng) = None)
  /\ (Level.templates this <> [] -> fst (Random.next rng) < 0 ->
      fst (Level.pickNextTemplate this rng) = None).
Proof.
  unfold Level.pickNextTemplate, Random.next. cbv beta iota zeta.
  unfold fst, snd.
  set (r := Random.sample rng (Random.cursor rng)).
  set (n := length (Level.templates this)).
  split; [reflexivity |]. split; [reflexivity |].
  split; [| split].
  - intros Hne [H0 H1].
    assert (Hn : (0 < n)%nat).
    { subst n. destruct (Level.templates this); [congruence | simpl; lia]. }
    assert (Hq : 0 < inject_Z (Z.of_nat n)).
    { change 0 with (inject_Z 0). rewrite <- Zlt_Qlt. lia. }
    assert (Hlo : (0 <= Qfloor (r * inject_Z (Z.of_nat n)))%Z).
    { change 0%Z with (Qfloor 0). apply Qfloor_resp_le. nra. }
    assert (Hhi : (Qfloor (r * inject_Z (Z.of_nat n)) < Z.of_nat n)%Z).
    { rewrite Zlt_Qlt.
      apply Qle_lt_trans with (r * inject_Z (Z.of_nat n));
        [apply Qfloor_le | nra]. }
    destruct (Z.ltb_spec (Qfloor (r * inject_Z (Z.of_nat n))) 0); [lia |].
    unfold Level.template_at.
    destruct (nth_error (Level.templates this)
                (Z.to_nat (Qfloor (r * inject_Z (Z.of_nat n))))) as [t |] eqn:E.
    + exists t. split; [reflexivity |]. eapply nth_error_In. exact E.
    + apply nth_error_None in E. fold n in E. lia.
  - intro Hempty. destruct (_ <? 0)%Z; [reflexivity |].
    unfold Level.template_at. rewrite Hempty.
    destruct (Z.to_nat _); reflexivity.
  - intros Hne Hneg.
    assert (Hn : (0 < n)%nat).
    { subst n. destruct (Level.templates this); [congruence | simpl; lia]. }
    assert (Hq : 1 <= inject_Z (Z.of_nat n)).
    { change 1 with (inject_Z 1). rewrite <- Zle_Qle. lia. }
    assert (Hfl : (Qfloor (r * inject_Z (Z.of_nat n)) < 0)%Z).
    { rewrite Zlt_Qlt.
      apply Qle_lt_trans with (r * inject_Z (Z.of_nat n));
        [apply Qfloor_le | change (inject_Z 0) with 0; nra]. }
    apply Z.ltb_lt in Hfl. rewrite Hfl. reflexivity.
Qed.

Lemma level_pickNextTemplate_contract_witness :
  exists t,
    fst (Level.pickNextTemplate (Level.new SEGMENT_LIBRARY)
           (constant_random 0.5)) = Some t
    /\ In t SEGMENT_LIBRARY.
Proof.
  apply (proj1 (proj2 (proj2 (level_pickNextTemplate_contract
                                (Level.new SEGMENT_LIBRARY)
                                (constant_random 0.5)))));
    [discriminate | split; [discriminate | reflexivity]].
Defined.

(** The loop stops only in front of a segment that is not behind the
    threshold. *)
Lemma recycle_head_in_range (this : Level.t) (recycleThreshold : Q)
      (fuel : nat) :
  forall (segments : list LevelSegment.t) (rng : Random.t)
         (segments' : list LevelSegment.t) (rng' : Random.t),
    Level.recycle fuel this recycleThreshold segments rng
    = Returned (segments', rng') ->
    forall first, hd_error segments' = Some first ->
                  recycleThreshold <= LevelSegment.end_ first.
Proof.
  induction fuel as [| fuel IH]; intros segments rng segments' rng' R;
    destruct segments as [| head rest];
    rewrite ?recycle_nil, ?recycle_cons in R.
  - inversion R; subst. discriminate.
  - destruct (lt_reflect (LevelSegment.end_ head) recycleThreshold);
      [discriminate |].
    inversion R; subst. intros first H. inversion H; subst. lra.
  - inversion R; subst. discriminate.
  - destruct (lt_reflect (LevelSegment.end_ head) recycleThreshold).
    + destruct (Level.pickNextTemplate this rng) as [[template |] rng1];
        [| discriminate].
      eapply IH. exact R.
    + inversion R; subst. intros first H. inversion H; subst. lra.
Qed.

(** X21.  Recycling touches only segments that are behind the window.
    When [update] returns, the first active segment ends at or after
    [scrollX - recycleMargin]; and if the first segment already did so
    after the camera advance, the window is left exactly as it was and no
    random number is drawn. *)
Theorem level_update_recycles_only_behind (Math_exp : Q -> Q) (fuel : nat)
        (dt : Q) (player : Player.t) (rng rng' : Random.t) (l l' : Level.t) :
  Level.update Math_exp fuel dt player rng l = Returned (l', rng') ->
  (forall first, hd_error (Level.activeSegments l') = Some first ->
                 Level.scrollX l' - Level.recycleMargin l'
                 <= LevelSegment.end_ first)
  /\ (forall first, hd_error (Level.activeSegments l) = Some first ->
                    Level.scrollX l' - Level.recycleMargin l'
                    <= LevelSegment.end_ first ->
                    Level.activeSegments l' = Level.activeSegments l
                    /\ rng' = rng).
Proof.
  intro U. pose proof U as U0.
  apply update_returned in U. cbv zeta in U.
  destruct U as (R & _ & _ & _ & Hs).
  assert (Hm : Level.recycleMargin l' = Level.recycleMargin l).
  { unfold Level.update in U0. cbv zeta in U0.
    destruct (Level.recycle _ _ _ _ _) as [[segments rng1] | |];
      try discriminate.
    inversion U0; subst. reflexivity. }
  rewrite Hs, Hm. split.
  - intros first Hfirst.
    eapply recycle_head_in_range; [exact R | exact Hfirst].
  - intros first Hfirst Hin.
    destruct (Level.activeSegments l) as [| head rest]; [discriminate |].
    inversion Hfirst; subst head.
    rewrite recycle_cons in R.
    change (Level.recycleMargin (Level.advance Math_exp dt player l))
      with (Level.recycleMargin l) in R.
    destruct (lt_reflect (LevelSegment.end_ first)
                (Level.scrollX (Level.advance Math_exp dt player l)
                 - Level.recycleMargin l)); [lra |].
    inversion R. split; reflexivity.
Qed.

Lemma level_update_recycles_only_behind_witness :
  match Level.reset (Level.new SEGMENT_LIBRARY) with
  | Returned l0 =>
      match Level.update rational_exp 0 (1 / 60) Player.new
                         (constant_random 0.5) l0 with
      | Returned (l1, rng1) =>
          Level.activeSegments l1 = Level.activeSegments l0
          /\ rng1 = constant_random 0.5
      | _ => False
      end
  | _ => False
  end.
Proof.
  destruct (Level.reset (Level.new SEGMENT_LIBRARY)) as [l0 | |] eqn:R;
    try (vm_compute in R; discriminate).
  destruct (Level.update rational_exp 0 (1 / 60) Player.new
              (constant_random 0.5) l0) as [[l1 rng1] | |] eqn:U;
    try (vm_compute in R; inversion R; subst l0; vm_compute in U;
         discriminate).
  vm_compute in R. inversion R; subst l0. clear R.
  eapply (proj2 (level_update_recycles_only_behind _ _ _ _ _ _ _ _ U)).
  - reflexivity.
  - vm_compute in U. inversion U. vm_compute. discriminate.
Defined.

(** The end of the last of four chained segments is the end of the first
    plus the widths of the three that follow. *)
Lemma window_right_edge (templates : list SegmentTemplate) (w : Q)
      (segments : list LevelSegment.t) :
  (forall t, In t templates -> w <= t_width t) ->
  length segments = 4%nat ->
  chained segments ->
  Forall (fun s => In (LevelSegment.template s) templates) segments ->
  forall first final,
    hd_error segments = Some first ->
    last segments first = final ->
    LevelSegment.end_ first + 3 * w <= LevelSegment.end_ final.
Proof.
  intros Hwide Hlen Hc Hin first final Hfirst Hlast.
  destruct segments as [| s0 [| s1 [| s2 [| s3 [| s4 rest]]]]];
    simpl in Hlen; try lia.
  inversion Hfirst; subst s0. simpl in Hlast. subst final.
  destruct Hc as (C1 & C2 & C3 & _).
  inversion Hin as [| ? ? _ H1]; subst.
  inversion H1 as [| ? ? W1 H2]; subst.
  inversion H2 as [| ? ? W2 H3]; subst.
  inversion H3 as [| ? ? W3 _]; subst.
  apply Hwide in W1, W2, W3.
  unfold LevelSegment.end_ in *. rewrite C3, C2, C1. lra.
Qed.

(** X22.  The track never runs out on the right.  Take templates that are
    all at least [w] wide and a viewport with
    [viewportWorldWidth + 2 * recycleMargin <= 3 * w].  Then after every
    returning [update] of a level with four chained segments the last
    active segment ends at or beyond the right edge of the visible window,
    [scrollX + viewportWorldWidth + recycleMargin]. *)
Theorem level_window_covers_right_edge (Math_exp : Q -> Q)
        (templates : list SegmentTemplate) (w : Q) (fuel : nat) (dt : Q)
        (player : Player.t) (rng rng' : Random.t) (l l' : Level.t) :
  (forall t, In t templates -> w <= t_width t) ->
  level_inv templates l ->
  Level.viewportWorldWidth l + 2 * Level.recycleMargin l <= 3 * w ->
  Level.update Math_exp fuel dt player rng l = Returned (l', rng') ->
  exists final,
    last (Level.activeSegments l') final = final
    /\ In final (Level.activeSegments l')
    /\ Level.scrollX l' + Level.viewportWorldWidth l' + Level.recycleMargin l'
       <= LevelSegment.end_ final.
Proof.
  intros Hwide Hinv Hview U.
  destruct (update_preserves_inv _ _ _ _ _ _ _ _ _ Hinv U)
    as [(Ht & Hlen & Hc & Hin) _].
  assert (Hhead : forall first,
             hd_error (Level.activeSegments l') = Some first ->
             Level.scrollX l' - Level.recycleMargin l'
             <= LevelSegment.end_ first).
  { pose proof U as U1. apply update_returned in U1. cbv zeta in U1.
    destruct U1 as (R & _ & _ & _ & Hs).
    assert (Hm : Level.recycleMargin l' = Level.recycleMargin l).
    { unfold Level.update in U. cbv zeta in U.
      destruct (Level.recycle _ _ _ _ _) as [[segments rng1] | |];
        try discriminate.
      inversion U; subst. reflexivity. }
    rewrite Hs, Hm. intros first Hfirst.
    eapply recycle_head_in_range; [exact R | exact Hfirst]. }
  assert (Hv : Level.viewportWorldWidth l' = Level.viewportWorldWidth l
               /\ Level.recycleMargin l' = Level.recycleMargin l).
  { unfold Level.update in U. cbv zeta in U.
    destruct (Level.recycle _ _ _ _ _) as [[segments rng1] | |];
      try discriminate.
    inversion U; subst. split; reflexivity. }
  destruct Hv as [Hvw Hm].
  destruct (Level.activeSegments l') as [| first rest] eqn:Hsegs;
    [simpl in Hlen; lia |].
  exists (last (first :: rest) first).
  split; [apply last_nonempty |].
  split.
  - destruct (@exists_last _ (first :: rest) ltac:(discriminate))
      as (front & x & E).
    rewrite E, last_last. apply in_or_app. right. left. reflexivity.
  - pose proof (window_right_edge templates w (first :: rest) Hwide Hlen Hc Hin
                  first (last (first :: rest) first) eq_refl eq_refl) as Hedge.
    specialize (Hhead first eq_refl).
    rewrite Hvw, Hm in *. lra.
Qed.

Lemma level_window_covers_right_edge_witness :
  match Level.reset (Level.new SEGMENT_LIBRARY) with
  | Returned l0 =>
      match Level.update rational_exp 4 10 Player.new
                         (constant_random 0.5) l0 with
      | Returned (l1, _) =>
          exists final,
            In final (Level.activeSegments l1)
            /\ Level.scrollX l1 + 1280 + 640 <= LevelSegment.end_ final
      | _ => False
      end
  | _ => False
  end.
Proof.
  destruct (reset_returns (Level.new SEGMENT_LIBRARY) ltac:(discriminate))
    as (l0 & R & T & _ & _ & _ & L & C & F).
  rewrite R.
  destruct (Level.update rational_exp 4 10 Player.new (constant_random 0.5) l0)
    as [[l1 rng1] | |] eqn:U;
    try (vm_compute in R; inversion R; subst l0; vm_compute in U;
         discriminate).
  destruct (level_window_covers_right_edge rational_exp SEGMENT_LIBRARY 1200
              4 10 Player.new (constant_random 0.5) rng1 l0 l1)
    as (final & _ & Hin & Hedge).
  - intros t [<- | [<- | [<- | [<- | []]]]]; discriminate.
  - unfold level_inv. simpl in T. rewrite T in F. auto.
  - vm_compute in R. inversion R. vm_compute. discriminate.
  - exact U.
  - exists final. split; [exact Hin |].
    assert (Hv : Level.viewportWorldWidth l1 = 1280
                 /\ Level.recycleMargin l1 = 640).
    { vm_compute in R. inversion R; subst l0. vm_compute in U.
      inversion U. split; reflexivity. }
    destruct Hv as [-> ->] in Hedge. exact Hedge.
Defined.

Section Smoothing.

Variable Math_exp : Q -> Q.
Hypothesis Math_exp_range : forall x, x <= 0 -> 0 <= Math_exp x /\ Math_exp x <= 1.

(** X23.  Speed smoothing never overshoots.  For a non-negative time step
    the current speed after [update] lies between the previous current
    speed and the target speed [baseSpeed * speedMultiplier]; a level
    already moving at the target speed keeps it; and the camera advances
    by exactly the new speed times the time step. *)
Theorem level_speed_smoothing_bounds (fuel : nat) (dt : Q) (player : Player.t)
        (rng rng' : Random.t) (l l' : Level.t) :
  0 <= dt ->
  Level.update Math_exp fuel dt player rng l = Returned (l', rng') ->
  let target := Level.baseSpeed l * Player.speedMultiplier player in
  Qmin (Level.currentSpeed l) target <= Level.currentSpeed l'
  /\ Level.currentSpeed l' <= Qmax (Level.currentSpeed l) target
  /\ (Level.currentSpeed l == target -> Level.currentSpeed l' == target)
  /\ Level.scrollX l' = Level.scrollX l + Level.currentSpeed l' * dt.
Proof.
  intros Hdt U. cbv zeta.
  apply update_returned in U. cbv zeta in U.
  destruct U as (_ & _ & _ & Hc & Hs). rewrite Hc, Hs.
  unfold Level.advance. simpl.
  destruct (Math_exp_range (- dt * 6)) as [He0 He1]; [lra |].
  set (e := Math_exp (- dt * 6)) in *.
  set (c := Level.currentSpeed l).
  set (t := Level.baseSpeed l * Player.speedMultiplier player).
  assert (E : c + (t - c) * (1 - e) == c * e + t * (1 - e)) by ring.
  split; [| split; [| split; [| reflexivity]]].
  - rewrite E.
    destruct (Q.min_spec c t) as [[Hlt ->] | [Hle ->]]; nra.
  - rewrite E.
    destruct (Q.max_spec c t) as [[Hlt ->] | [Hle ->]]; nra.
  - intro Heq. rewrite E. nra.
Qed.

End Smoothing.

Lemma level_speed_smoothing_bounds_witness :
  match Level.update rational_exp 0 (1 / 60)
          (Player.set_speedMultiplier 1.35 Player.new) (constant_random 0.5)
          (Level.new SEGMENT_LIBRARY) with
  | Returned (l1, _) =>
      360 <= Level.currentSpeed l1 /\ Level.currentSpeed l1 <= 360 * 1.35
  | _ => False
  end.
Proof.
  destruct (Level.update rational_exp 0 (1 / 60)
              (Player.set_speedMultiplier 1.35 Player.new)
              (constant_random 0.5) (Level.new SEGMENT_LIBRARY))
    as [[l1 rng1] | |] eqn:U; try (vm_compute in U; discriminate).
  destruct (level_speed_smoothing_bounds rational_exp rational_exp_range
              0 (1 / 60) (Player.set_speedMultiplier 1.35 Player.new)
              (constant_random 0.5) rng1 (Level.new SEGMENT_LIBRARY) l1
              ltac:(discriminate) U) as (Hlo & Hhi & _).
  split.
  - eapply Qle_trans; [| exact Hlo]. vm_compute. discriminate.
  - eapply Qle_trans; [exact Hhi |]. vm_compute. discriminate.
Defined.

(** * Further properties of the HUD and the game loop *)

Lemma hud_update_best (distance dt : Q) (h : Hud.t) :
  Hud.bestDistance h <= Hud.bestDistance (Hud.update distance dt h)
  /\ distance <= Hud.bestDistance (Hud.update distance dt h)
  /\ Hud.bestDistance (Hud.update distance dt h)
     == Qmax (Hud.bestDistance h) distance.
Proof.
  unfold Hud.update. simpl.
  destruct (gt_reflect distance (Hud.bestDistance h)); simpl.
  - rewrite Q.max_r by lra. repeat split; lra.
  - rewrite Q.max_l by lra. repeat split; lra.
Qed.

(** X24.  The best distance of the HUD never decreases, over any sequence
    of updates and resets; after an update it is the larger of the
    previous best and the reported distance, and the best time is the run
    time of the update that set the best.  A reset clears the distance and
    the run time and keeps both records. *)
Theorem hud_best_distance_monotone (h : Hud.t) :
  (forall calls, Hud.bestDistance h <= Hud.bestDistance (hud_run calls h))
  /\ (forall distance dt,
         let h' := Hud.update distance dt h in
         Hud.distance h' = distance
         /\ Hud.runTime h' = Hud.runTime h + dt
         /\ distance <= Hud.bestDistance h'
         /\ Hud.bestDistance h' == Qmax (Hud.bestDistance h) distance
         /\ (Hud.bestDistance h < distance -> Hud.bestTime h' = Hud.runTime h')
         /\ (distance <= Hud.bestDistance h -> Hud.bestTime h' = Hud.bestTime h))
  /\ (forall attempt,
         let h' := Hud.reset attempt h in
         Hud.distance h' = 0 /\ Hud.runTime h' = 0
         /\ Hud.attempt h' = attempt
         /\ Hud.bestDistance h' = Hud.bestDistance h
         /\ Hud.bestTime h' = Hud.bestTime h).
Proof.
  split; [| split].
  - intro calls. revert h.
    induction calls as [| [distance dt | attempt] rest IH]; intro h; simpl.
    + lra.
    + eapply Qle_trans; [| apply IH].
      apply (hud_update_best distance dt h).
    + eapply Qle_trans; [| apply IH]. simpl. lra.
  - intros distance dt. cbv zeta.
    destruct (hud_update_best distance dt h) as (_ & Hd & Hm).
    split; [| split; [| split; [exact Hd | split; [exact Hm |]]]];
      unfold Hud.update; simpl;
      destruct (gt_reflect distance (Hud.bestDistance h)); simpl;
      try reflexivity; split; intros; try reflexivity; lra.
  - intro attempt. cbv zeta. repeat split; reflexivity.
Qed.

Lemma hud_best_distance_monotone_witness :
  let h := hud_run [HudUpdate 120 (1 / 60); HudReset 2; HudUpdate 30 (1 / 60)]
                   Hud.new in
  Hud.bestDistance Hud.new <= Hud.bestDistance h.
Proof.
  apply (proj1 (hud_best_distance_monotone Hud.new)).
Defined.

Lemma land_x (s : Q) (p : Player.t) :
  vx (Player.position (Player.land s p)) = vx (Player.position p).
Proof. unfold Player.land. destruct (_ === _); reflexivity. Qed.

Lemma flipGravity_x (target : option Q) (p : Player.t) :
  vx (Player.position (Player.flipGravity target p)) = vx (Player.position p).
Proof.
  unfold Player.flipGravity. destruct (_ === _); [reflexivity |].
  destruct (_ === _); reflexivity.
Qed.

Lemma applyBoost_x (b : Player.Boost) (p : Player.t) :
  vx (Player.position (Player.applyBoost b p)) = vx (Player.position p).
Proof. unfold Player.applyBoost. destruct (Js.truthy _); reflexivity. Qed.

Lemma postResolve_x (p : Player.t) :
  vx (Player.position (Player.postResolve p)) = vx (Player.position p).
Proof.
  unfold Player.postResolve. destruct (negb _); [reflexivity |].
  destruct (_ && _); reflexivity.
Qed.

Lemma clampToWorld_x (p : Player.t) :
  vx (Player.position (Level.clampToWorld p)) = vx (Player.position p).
Proof.
  unfold Level.clampToWorld.
  destruct (_ === _); [destruct (_ >=? _) | destruct (_ <=? _)];
    try reflexivity; apply land_x.
Qed.

Lemma revalidate_x (p : Player.t) :
  vx (Player.position (Level.revalidate p)) = vx (Player.position p).
Proof.
  unfold Level.revalidate.
  destruct (_ && _); destruct (_ && _); rewrite ?land_x; reflexivity.
Qed.

Lemma resolveEntity_x (input : InputManager.t) (dt offset : Q)
      (previousRect : Rectangle.t) (player : Player.t)
      (playerRect : Rectangle.t) (entity : SegmentEntity.t) :
  vx (Player.position
        (Level.r_player
           (fst (Level.resolveEntity input dt offset previousRect player
                                     playerRect entity))))
  = vx (Player.position player).
Proof.
  unfold Level.resolveEntity.
  destruct (SegmentEntity.type _).
  - unfold Level.resolvePlatform.
    destruct (negb _); [reflexivity |].
    destruct (_ === _); destruct (_ && _); simpl; try reflexivity;
      apply land_x.
  - destruct (Level.checkSpikeCollision _ _ _); reflexivity.
  - destruct (_ && _); simpl; [apply applyBoost_x | reflexivity].
  - destruct (_ && _); [destruct (_ || _) |]; reflexivity.
  - destruct (_ && _); simpl; [apply flipGravity_x | reflexivity].
  - reflexivity.
Qed.

Lemma resolveEntities_x (input : InputManager.t) (dt offset : Q)
      (previousRect : Rectangle.t) (entities : list SegmentEntity.t) :
  forall (player : Player.t) (playerRect : Rectangle.t),
    vx (Player.position
          (Level.r_player
             (fst (Level.resolveEntities input dt offset previousRect player
                                         playerRect entities))))
    = vx (Player.position player).
Proof.
  induction entities as [| entity rest IH]; intros player playerRect; simpl;
    [reflexivity |].
  pose proof (resolveEntity_x input dt offset previousRect player playerRect
                entity) as X.
  destruct (Level.resolveEntity input dt offset previousRect player playerRect
              entity) as [state entity'].
  simpl in X. destruct (Level.r_returned state); [exact X |].
  specialize (IH (Level.r_player state) (Level.r_rect state)).
  destruct (Level.resolveEntities input dt offset previousRect
              (Level.r_player state) (Level.r_rect state) rest)
    as [state' rest'].
  simpl in *. congruence.
Qed.

Lemma resolveSegments_x (input : InputManager.t)
      (dt visibleStart visibleEnd : Q) (previousRect : Rectangle.t)
      (segments : list LevelSegment.t) :
  forall (player : Player.t) (playerRect : Rectangle.t),
    vx (Player.position
          (Level.r_player
             (fst (Level.resolveSegments input dt visibleStart visibleEnd
                     previousRect player playerRect segments))))
    = vx (Player.position player).
Proof.
  induction segments as [| segment rest IH]; intros player playerRect; simpl;
    [reflexivity |].
  destruct (_ || _).
  - specialize (IH player playerRect).
    destruct (Level.resolveSegments input dt visibleStart visibleEnd
                previousRect player playerRect rest) as [state rest'].
    exact IH.
  - pose proof (resolveEntities_x input dt (LevelSegment.offset segment)
                  previousRect (LevelSegment.entities segment) player
                  playerRect) as X.
    destruct (Level.resolveEntities input dt (LevelSegment.offset segment)
                previousRect player playerRect (LevelSegment.entities segment))
      as [state entities'].
    simpl in X. destruct (Level.r_returned state); [exact X |].
    specialize (IH (Level.r_player state) (Level.r_rect state)).
    destruct (Level.resolveSegments input dt visibleStart visibleEnd
                previousRect (Level.r_player state) (Level.r_rect state) rest)
      as [state' rest'].
    simpl in *. congruence.
Qed.

Lemma resolvePlayer_x (player : Player.t) (input : InputManager.t) (dt : Q)
      (l : Level.t) :
  vx (Player.position (fst (Level.resolvePlayer player input dt l)))
  = vx (Player.position player).
Proof.
  unfold Level.resolvePlayer.
  pose proof (resolveSegments_x input dt
                (Level.scrollX l - Level.recycleMargin l)
                (Level.scrollX l + Level.viewportWorldWidth l
                 + Level.recycleMargin l)
                (Player.getPreviousBounds player) (Level.activeSegments l)
                (Level.clampToWorld player)
                (Player.getBounds (Level.clampToWorld player))) as X.
  destruct (Level.resolveSegments _ _ _ _ _ _ _ _) as [state segments].
  simpl in X. rewrite clampToWorld_x in X.
  destruct (Level.r_returned state); simpl; [exact X |].
  rewrite revalidate_x. exact X.
Qed.

(** The resolver keeps the level invariant of a run. *)
Lemma resolvePlayer_level_inv (templates : list SegmentTemplate)
      (player : Player.t) (input : InputManager.t) (dt : Q) (l : Level.t) :
  level_inv templates l ->
  level_inv templates (snd (Level.resolvePlayer player input dt l))
  /\ Level.scrollX (snd (Level.resolvePlayer player input dt l))
     = Level.scrollX l.
Proof.
  intros (Ht & Hlen & Hc & Hin). unfold Level.resolvePlayer.
  pose proof (resolveSegments_frame input dt
                (Level.scrollX l - Level.recycleMargin l)
                (Level.scrollX l + Level.viewportWorldWidth l
                 + Level.recycleMargin l)
                (Player.getPreviousBounds player) (Level.activeSegments l)
                (Level.clampToWorld player)
                (Player.getBounds (Level.clampToWorld player))) as F.
  cbv zeta in F.
  destruct (Level.resolveSegments _ _ _ _ _ _ _ _) as [state segments].
  simpl in F. destruct F as (B & _ & _).
  destruct (layout_adjacent _ _ B) as [L A].
  assert (Hin' : Forall (fun s => In (LevelSegment.template s) templates)
                        segments).
  { apply Forall_forall. intros s Hs.
    apply In_nth_error in Hs. destruct Hs as [i Hi].
    pose proof (map_nth_error layout_of i segments Hi) as M.
    rewrite B, nth_error_map in M.
    destruct (nth_error (Level.activeSegments l) i) as [s0 |] eqn:E;
      [| discriminate].
    simpl in M. injection M as M _ _.
    rewrite <- M. rewrite Forall_forall in Hin. apply Hin.
    eapply nth_error_In. exact E. }
  assert (Hinv : level_inv templates (Level.set_activeSegments segments l)).
  { unfold level_inv. simpl. repeat split; try assumption; [congruence |].
    apply chained_adjacent. apply A. apply chained_adjacent. exact Hc. }
  destruct (Level.r_returned state); simpl; split; try exact Hinv;
    reflexivity.
Qed.

(** A running frame without restart request, step by step. *)
Lemma game_update_running (Math_exp : Q -> Q) (fuel : nat) (timestamp now : Q)
      (rng rng' : Random.t) (g g' : Game.t) :
  Game.isRunning g = true ->
  InputManager.restartRequested (Game.input g) = false ->
  Game.update Math_exp fuel timestamp now rng g = Returned (g', rng') ->
  let dt := Game.deltaTime timestamp g in
  let updated := Player.update dt (Game.input g) (Game.player g) in
  let pinned :=
    Player.set_position_x
      (Level.scrollX (Game.level g) + Player.anchorX (fst updated))
      (fst updated) in
  exists l1,
    Level.update Math_exp fuel dt pinned rng (Game.level g)
    = Returned (l1, rng')
    /\ let resolved := Level.resolvePlayer pinned (snd updated) dt l1 in
       let player' := Player.postResolve (fst resolved) in
       let dead := negb (Player.isAlive player') in
       g' = Game.make (InputManager.finalizeFrame (snd updated)) player'
                      (snd resolved)
                      (Hud.update (Level.scrollX (snd resolved) / 10) dt
                                  (Game.hud g))
                      timestamp
                      (if dead then false else true)
                      (if dead then Game.attempt g + 1 else Game.attempt g)
                      (if dead then S (Game.scheduledResets g)
                       else Game.scheduledResets g).
Proof.
  intros Hrun Hrestart U. cbv zeta.
  unfold Game.update in U. cbv zeta in U.
  cbn [Game.isRunning Game.input Game.player Game.level Game.hud
       Game.lastTimestamp Game.attempt Game.scheduledResets] in U.
  rewrite Hrun in U. cbn [negb] in U.
  unfold InputManager.consumeRestartRequest in U. rewrite Hrestart in U.
  assert (Hinput : InputManager.make
                     (InputManager.jumpQueue (Game.input g))
                     (InputManager.jumpPressedThisFrame (Game.input g))
                     (InputManager.jumpHeld (Game.input g))
                     (InputManager.pointerHeld (Game.input g)) false
                   = Game.input g).
  { destruct (Game.input g). simpl in *. subst. reflexivity. }
  rewrite Hinput in U.
  destruct (Player.update (Game.deltaTime timestamp g) (Game.input g)
              (Game.player g)) as [p1 i1].
  cbn [fst snd] in *.
  destruct (Level.update Math_exp fuel (Game.deltaTime timestamp g) _ rng
              (Game.level g)) as [[l1 rng1] | |]; try discriminate.
  exists l1.
  destruct (Level.resolvePlayer _ i1 (Game.deltaTime timestamp g) l1)
    as [p2 l2].
  cbn [fst snd] in *. inversion U; subst. split; reflexivity.
Qed.

Lemma update_anchorX (dt : Q) (input : InputManager.t) (p : Player.t) :
  Player.anchorX (fst (Player.update dt input p)) = Player.anchorX p.
Proof.
  unfold Player.update. destruct (negb (Player.isAlive p)); [reflexivity |].
  destruct (InputManager.consumeJumpRequest input) as [requested input'].
  cbv zeta. simpl fst.
  destruct requested; simpl;
    repeat match goal with
      | |- context [if ?c then _ else _] => destruct c; simpl
      end; reflexivity.
Qed.

Lemma update_input (dt : Q) (input : InputManager.t) (p : Player.t) :
  snd (Player.update dt input p)
  = if Player.isAlive p then snd (InputManager.consumeJumpRequest input)
    else input.
Proof.
  unfold Player.update. destruct (Player.isAlive p); [| reflexivity].
  simpl negb. cbv iota.
  destruct (InputManager.consumeJumpRequest input) as [requested input'].
  reflexivity.
Qed.

Lemma last_default_irrelevant {A : Type} (x : A) (l : list A) (d d' : A) :
  last (x :: l) d = last (x :: l) d'.
Proof.
  revert x. induction l as [| y l IH]; intro x; [reflexivity |].
  change (last (y :: l) d = last (y :: l) d'). apply IH.
Qed.

Lemma game_update_stopped (Math_exp : Q -> Q) (fuel : nat) (timestamp now : Q)
      (rng : Random.t) (g : Game.t) :
  Game.isRunning g = false ->
  Game.update Math_exp fuel timestamp now rng g
  = Returned (Game.make (Game.input g) (Game.player g) (Game.level g)
                        (Game.hud g) timestamp (Game.isRunning g)
                        (Game.attempt g) (Game.scheduledResets g),
              rng).
Proof.
  intro Hstop. unfold Game.update. cbv zeta. cbn [Game.isRunning].
  rewrite Hstop. reflexivity.
Qed.

(** X25.  A game that is not running is frozen: over any number of
    animation frames [update] returns without drawing random numbers and
    changes nothing but [lastTimestamp]; input, player, level, HUD, attempt
    counter and pending reset timers stay as they are. *)
Theorem game_stopped_is_frozen (Math_exp : Q -> Q) (fuel : nat)
        (ticks : list (Q * Q)) (rng : Random.t) (g : Game.t) :
  Game.isRunning g = false ->
  exists g',
    game_run Math_exp fuel ticks rng g = Returned (g', rng)
    /\ Game.input g' = Game.input g
    /\ Game.player g' = Game.player g
    /\ Game.level g' = Game.level g
    /\ Game.hud g' = Game.hud g
    /\ Game.attempt g' = Game.attempt g
    /\ Game.scheduledResets g' = Game.scheduledResets g
    /\ Game.isRunning g' = false
    /\ Game.lastTimestamp g'
       = last (map fst ticks) (Game.lastTimestamp g).
Proof.
  revert g. induction ticks as [| [timestamp now] rest IH]; intros g Hstop.
  - exists g. simpl. repeat split; try reflexivity. exact Hstop.
  - simpl game_run. rewrite (game_update_stopped _ _ _ _ _ _ Hstop).
    destruct (IH (Game.make (Game.input g) (Game.player g) (Game.level g)
                            (Game.hud g) timestamp (Game.isRunning g)
                            (Game.attempt g) (Game.scheduledResets g)))
      as (g' & R & I & P & L & H & A & S & Run & T); [exact Hstop |].
    exists g'. split; [exact R |].
    repeat split; try assumption.
    rewrite T. cbn [map fst].
    destruct (map fst rest) as [| q l]; [reflexivity |].
    change (last (timestamp :: q :: l) (Game.lastTimestamp g))
      with (last (q :: l) (Game.lastTimestamp g)).
    apply last_default_irrelevant.
Qed.

Lemma game_stopped_is_frozen_witness :
  let g := Game.make InputManager.new (Player.die Player.new)
                     (Level.new SEGMENT_LIBRARY) Hud.new 0 false 2 1 in
  exists g',
    game_run rational_exp 0 [(16, 16); (32, 32)] (constant_random 0.5) g
    = Returned (g', constant_random 0.5)
    /\ Game.player g' = Player.die Player.new
    /\ Game.lastTimestamp g' = 32.
Proof.
  cbv zeta.
  destruct (game_stopped_is_frozen rational_exp 0 [(16, 16); (32, 32)]
              (constant_random 0.5)
              (Game.make InputManager.new (Player.die Player.new)
                         (Level.new SEGMENT_LIBRARY) Hud.new 0 false 2 1)
              eq_refl)
    as (g' & R & _ & P & _ & _ & _ & _ & _ & T).
  exists g'. repeat split; assumption.
Defined.

(** X26.  Bookkeeping of a running frame.  When the game is running and no
    restart is requested, a returning [update] uses a time step of at most
    [MAX_DELTA_TIME], records the timestamp, reports [scrollX / 10] to the
    HUD, clears the pressed-this-frame signal and, for a player alive at
    the start of the frame, the jump queue.  The game keeps running exactly
    when the player ends the frame alive; a death adds one to the attempt
    counter and schedules one reset, a survived frame leaves both alone. *)
Theorem game_running_frame_bookkeeping (Math_exp : Q -> Q) (fuel : nat)
        (timestamp now : Q) (rng rng' : Random.t) (g g' : Game.t) :
  Game.isRunning g = true ->
  InputManager.restartRequested (Game.input g) = false ->
  Game.update Math_exp fuel timestamp now rng g = Returned (g', rng') ->
  Game.deltaTime timestamp g <= MAX_DELTA_TIME
  /\ Game.lastTimestamp g' = timestamp
  /\ Hud.distance (Game.hud g') = Level.scrollX (Game.level g') / 10
  /\ InputManager.jumpPressedThisFrame (Game.input g') = false
  /\ (Player.isAlive (Game.player g) = true ->
      InputManager.jumpQueue (Game.input g') = 0%nat)
  /\ Game.isRunning g' = Player.isAlive (Game.player g')
  /\ (Player.isAlive (Game.player g') = true ->
      Game.attempt g' = Game.attempt g
      /\ Game.scheduledResets g' = Game.scheduledResets g)
  /\ (Player.isAlive (Game.player g') = false ->
      Game.attempt g' = Game.attempt g + 1
      /\ Game.scheduledResets g' = S (Game.scheduledResets g)).
Proof.
  intros Hrun Hrestart U.
  destruct (game_update_running Math_exp fuel timestamp now rng rng' g g'
              Hrun Hrestart U) as (l1 & _ & E).
  cbv zeta in E. subst g'.
  cbn [Game.lastTimestamp Game.hud Game.level Game.input Game.player
       Game.isRunning Game.attempt Game.scheduledResets].
  split; [apply Q.le_min_l |]. split; [reflexivity |].
  split.
  { unfold Hud.update. cbn [Hud.distance Hud.bestDistance].
    destruct (_ >? _); reflexivity. }
  split; [reflexivity |].
  split.
  { intro Halive. rewrite update_input, Halive.
    unfold InputManager.finalizeFrame, InputManager.consumeJumpRequest.
    destruct (0 <? InputManager.jumpQueue (Game.input g))%nat eqn:Q0;
      cbn [snd InputManager.jumpQueue]; [reflexivity |].
    apply Nat.ltb_ge in Q0. lia. }
  destruct (Player.isAlive (Player.postResolve _)); cbn [negb];
    repeat split; try reflexivity; discriminate.
Qed.

Lemma game_running_frame_bookkeeping_witness :
  let g := Game.make (InputManager.handleJumpPress InputManager.new)
                     Player.new (Level.new SEGMENT_LIBRARY) Hud.new
                     0 true 1 0 in
  match Game.update rational_exp 0 16 16 (constant_random 0.5) g with
  | Returned (g', _) =>
      Game.lastTimestamp g' = 16
      /\ InputManager.jumpQueue (Game.input g') = 0%nat
  | _ => False
  end.
Proof.
  cbv zeta.
  destruct (Game.update rational_exp 0 16 16 (constant_random 0.5)
              (Game.make (InputManager.handleJumpPress InputManager.new)
                         Player.new (Level.new SEGMENT_LIBRARY) Hud.new
                         0 true 1 0))
    as [[g' rng'] | |] eqn:U; try (vm_compute in U; discriminate).
  destruct (game_running_frame_bookkeeping rational_exp 0 16 16
              (constant_random 0.5) rng'
              (Game.make (InputManager.handleJumpPress InputManager.new)
                         Player.new (Level.new SEGMENT_LIBRARY) Hud.new
                         0 true 1 0)
              g' eq_refl eq_refl U)
    as (_ & T & _ & _ & Q0 & _).
  split; [exact T | apply Q0; reflexivity].
Defined.

Lemma reset_position_is_spawn (p : Player.t) :
  Player.set_position_y
    (FLOOR_Y - Player.halfSize
                 (Player.set_position_x (Player.anchorX (Player.reset p))
                                        (Player.reset p)))
    (Player.set_position_x (Player.anchorX (Player.reset p)) (Player.reset p))
  = Player.reset p.
Proof.
  destruct p.
  cbv [Player.reset Player.set_position Player.set_previousPosition
       Player.set_velocity Player.set_gravityDirection Player.set_isGrounded
       Player.set_isAlive Player.set_coyoteTimer Player.set_jumpBuffer
       Player.set_boostTimer Player.set_speedMultiplier Player.set_position_x
       Player.set_position_y Player.halfSize
       Player.anchorX Player.size Player.position Player.previousPosition
       Player.velocity Player.gravityDirection Player.gravity
       Player.maxFallSpeed Player.maxRiseSpeed Player.jumpStrength
       Player.coyoteTime Player.jumpBufferTime Player.coyoteTimer
       Player.jumpBuffer Player.isGrounded Player.isAlive Player.boostTimer
       Player.speedMultiplier Player.gravityScaleDuringBoost Player.respawnY
       vx vy].
  reflexivity.
Qed.

(** What [Game.reset] returns. *)
Lemma game_reset_returns (now : Q) (g : Game.t) :
  Level.templates (Game.level g) <> [] ->
  exists l,
    Level.reset (Game.level g) = Returned l
    /\ Game.reset now g
       = Returned (Game.make (Game.input g) (Player.reset (Game.player g)) l
                             (Hud.reset (Game.attempt g) (Game.hud g))
                             now true (Game.attempt g)
                             (Game.scheduledResets g)).
Proof.
  intro Hne.
  destruct (reset_returns (Game.level g) Hne) as (l & R & _).
  exists l. split; [exact R |].
  unfold Game.reset. rewrite R. rewrite reset_position_is_spawn. reflexivity.
Qed.

(** X27.  Restart and respawn.  For a level with templates, [Game.reset]
    starts a fresh attempt: the player is the reset player, the level is
    the reset level, the HUD shows the attempt number with distance and
    run time at zero, the clock value is recorded and the game runs; the
    input state, with any queued jump, is carried over.  A restart request
    in a running game does exactly this after adding one to the attempt
    counter and clearing the request, without simulating the frame and
    without drawing random numbers; the callback scheduled on death does
    it after removing itself from the pending timers.  With an empty
    template list all three throw. *)
Theorem game_reset_starts_fresh_attempt (Math_exp : Q -> Q) (fuel : nat)
        (timestamp now : Q) (rng : Random.t) (g : Game.t) :
  (Level.templates (Game.level g) <> [] ->
   exists l,
     Level.reset (Game.level g) = Returned l
     /\ Game.reset now g
        = Returned (Game.make (Game.input g) (Player.reset (Game.player g)) l
                              (Hud.reset (Game.attempt g) (Game.hud g))
                              now true (Game.attempt g)
                              (Game.scheduledResets g))
     /\ (Game.isRunning g = true ->
         InputManager.restartRequested (Game.input g) = true ->
         Game.update Math_exp fuel timestamp now rng g
         = Returned
             (Game.make (snd (InputManager.consumeRestartRequest (Game.input g)))
                        (Player.reset (Game.player g)) l
                        (Hud.reset (Game.attempt g + 1) (Game.hud g))
                        now true (Game.attempt g + 1)
                        (Game.scheduledResets g),
              rng))
     /\ Game.onResetTimer now g
        = Returned (Game.make (Game.input g) (Player.reset (Game.player g)) l
                              (Hud.reset (Game.attempt g) (Game.hud g))
                              now true (Game.attempt g)
                              (pred (Game.scheduledResets g))))
  /\ (Level.templates (Game.level g) = [] ->
      Game.reset now g = TypeError
      /\ Game.onResetTimer now g = TypeError
      /\ (Game.isRunning g = true ->
          InputManager.restartRequested (Game.input g) = true ->
          Game.update Math_exp fuel timestamp now rng g = TypeError)).
Proof.
  split.
  - intro Hne.
    destruct (game_reset_returns now g Hne) as (l & R & G).
    exists l. split; [exact R |]. split; [exact G |]. split.
    + intros Hrun Hreq. unfold Game.update. cbv zeta.
      cbn [Game.isRunning Game.input]. rewrite Hrun. cbn [negb].
      unfold InputManager.consumeRestartRequest at 1. rewrite Hreq.
      cbn [Game.player Game.level Game.hud Game.lastTimestamp Game.attempt
           Game.scheduledResets].
      set (g1 := Game.make _ _ _ _ _ _ _ _).
      destruct (game_reset_returns now g1 Hne) as (l1 & R1 & G1).
      rewrite G1. subst g1. cbn [Game.level] in R1.
      rewrite R in R1. inversion R1; subst l1. reflexivity.
    + unfold Game.onResetTimer.
      set (g1 := Game.make _ _ _ _ _ _ _ _).
      destruct (game_reset_returns now g1 Hne) as (l1 & R1 & G1).
      rewrite G1. subst g1. cbn [Game.level] in R1.
      rewrite R in R1. inversion R1; subst l1. reflexivity.
  - intro Hempty.
    assert (Hthrow : Level.reset (Game.level g) = TypeError).
    { unfold Level.reset. simpl. unfold Level.template_at. simpl.
      rewrite Hempty. reflexivity. }
    split; [| split].
    + unfold Game.reset. rewrite Hthrow. reflexivity.
    + unfold Game.onResetTimer, Game.reset. cbn [Game.level].
      rewrite Hthrow. reflexivity.
    + intros Hrun Hreq. unfold Game.update. cbv zeta.
      cbn [Game.isRunning Game.input]. rewrite Hrun. cbn [negb].
      unfold InputManager.consumeRestartRequest at 1. rewrite Hreq.
      unfold Game.reset. cbn [Game.level]. rewrite Hthrow. reflexivity.
Qed.

Lemma game_reset_starts_fresh_attempt_witness :
  exists g',
    Game.reset 1000
      (Game.make (InputManager.handleJumpPress InputManager.new)
                 (Player.die Player.new) (Level.new SEGMENT_LIBRARY) Hud.new
                 0 false 2 0)
    = Returned g'
    /\ Game.isRunning g' = true
    /\ Player.isAlive (Game.player g') = true
    /\ InputManager.jumpQueue (Game.input g') = 1%nat.
Proof.
  destruct (proj1 (game_reset_starts_fresh_attempt rational_exp 0 0 1000
                     (constant_random 0.5)
                     (Game.make (InputManager.handleJumpPress InputManager.new)
                                (Player.die Player.new)
                                (Level.new SEGMENT_LIBRARY) Hud.new
                                0 false 2 0))
              ltac:(discriminate)) as (l & _ & G & _).
  eexists. split; [exact G |]. repeat split; reflexivity.
Defined.

(** X28.  The player is pinned to the camera, and the frame keeps the
    window.  After a running frame without restart request the player's
    horizontal position is the scroll position the level had at the start
    of the frame plus the player's anchor, whatever happened in the
    resolver; and a level with four chained segments over its templates
    is still one, so its window still holds four adjacent segments. *)
Theorem game_frame_pins_player (Math_exp : Q -> Q) (fuel : nat)
        (timestamp now : Q) (rng rng' : Random.t) (g g' : Game.t)
        (templates : list SegmentTemplate) :
  Game.isRunning g = true ->
  InputManager.restartRequested (Game.input g) = false ->
  Game.update Math_exp fuel timestamp now rng g = Returned (g', rng') ->
  vx (Player.position (Game.player g'))
  = Level.scrollX (Game.level g) + Player.anchorX (Game.player g)
  /\ (level_inv templates (Game.level g) ->
      level_inv templates (Game.level g') /\ window (Game.level g')).
Proof.
  intros Hrun Hrestart U.
  destruct (game_update_running Math_exp fuel timestamp now rng rng' g g'
              Hrun Hrestart U) as (l1 & L & E).
  cbv zeta in E, L. subst g'. cbn [Game.player Game.level].
  split.
  - rewrite postResolve_x, resolvePlayer_x. simpl.
    rewrite update_anchorX. reflexivity.
  - intro Hinv.
    destruct (update_preserves_inv _ _ _ _ _ _ _ _ _ Hinv L) as [Hinv1 _].
    destruct (resolvePlayer_level_inv templates
                (Player.set_position_x
                   (Level.scrollX (Game.level g)
                    + Player.anchorX
                        (fst (Player.update (Game.deltaTime timestamp g)
                                (Game.input g) (Game.player g))))
                   (fst (Player.update (Game.deltaTime timestamp g)
                           (Game.input g) (Game.player g))))
                (snd (Player.update (Game.deltaTime timestamp g)
                        (Game.input g) (Game.player g)))
                (Game.deltaTime timestamp g) l1 Hinv1) as [Hinv2 _].
    split; [exact Hinv2 | eapply level_inv_window; exact Hinv2].
Qed.

Lemma game_frame_pins_player_witness :
  let g := Game.make InputManager.new Player.new (Level.new SEGMENT_LIBRARY)
                     Hud.new 0 true 1 0 in
  match Game.update rational_exp 0 16 16 (constant_random 0.5) g with
  | Returned (g', _) => vx (Player.position (Game.player g')) = 0 + 260
  | _ => False
  end.
Proof.
  cbv zeta.
  destruct (Game.update rational_exp 0 16 16 (constant_random 0.5)
              (Game.make InputManager.new Player.new
                         (Level.new SEGMENT_LIBRARY) Hud.new 0 true 1 0))
    as [[g' rng'] | |] eqn:U; try (vm_compute in U; discriminate).
  apply (proj1 (game_frame_pins_player rational_exp 0 16 16
                  (constant_random 0.5) rng'
                  (Game.make InputManager.new Player.new
                             (Level.new SEGMENT_LIBRARY) Hud.new 0 true 1 0)
                  g' SEGMENT_LIBRARY eq_refl eq_refl U)).
Defined.

(** * Reachable levels and scrolling *)

(** The resolver never lowers the speed multiplier of the player: among
    the methods it calls only [applyBoost] writes it. *)
Lemma land_speedMultiplier (s : Q) (p : Player.t) :
  Player.speedMultiplier (Player.land s p) = Player.speedMultiplier p.
Proof. unfold Player.land. destruct (_ === _); reflexivity. Qed.

Lemma flipGravity_speedMultiplier (target : option Q) (p : Player.t) :
  Player.speedMultiplier (Player.flipGravity target p)
  = Player.speedMultiplier p.
Proof.
  unfold Player.flipGravity. destruct (_ === _); [reflexivity |].
  destruct (_ === _); reflexivity.
Qed.

Lemma postResolve_speedMultiplier (p : Player.t) :
  Player.speedMultiplier (Player.postResolve p) = Player.speedMultiplier p.
Proof.
  unfold Player.postResolve. destruct (negb _); [reflexivity |].
  destruct (_ && _); reflexivity.
Qed.

Lemma clampToWorld_speedMultiplier (p : Player.t) :
  Player.speedMultiplier (Level.clampToWorld p) = Player.speedMultiplier p.
Proof.
  unfold Level.clampToWorld.
  destruct (_ === _); [destruct (_ >=? _) | destruct (_ <=? _)];
    try reflexivity; apply land_speedMultiplier.
Qed.

Lemma revalidate_speedMultiplier (p : Player.t) :
  Player.speedMultiplier (Level.revalidate p) = Player.speedMultiplier p.
Proof.
  unfold Level.revalidate.
  destruct (_ && _); destruct (_ && _);
    rewrite ?land_speedMultiplier; reflexivity.
Qed.

Lemma resolveEntity_speedMultiplier (input : InputManager.t) (dt offset : Q)
      (previousRect : Rectangle.t) (player : Player.t)
      (playerRect : Rectangle.t) (entity : SegmentEntity.t) :
  Player.speedMultiplier player
  <= Player.speedMultiplier
       (Level.r_player
          (fst (Level.resolveEntity input dt offset previousRect player
                                    playerRect entity))).
Proof.
  unfold Level.resolveEntity.
  destruct (SegmentEntity.type _).
  - unfold Level.resolvePlatform.
    destruct (negb _); [apply Qle_refl |].
    destruct (_ === _); destruct (_ && _); cbn [fst Level.r_player];
      rewrite ?land_speedMultiplier; apply Qle_refl.
  - destruct (Level.checkSpikeCollision _ _ _); apply Qle_refl.
  - destruct (_ && _); simpl; [| apply Qle_refl].
    rewrite applyBoost_speedMultiplier. apply Q.le_max_r.
  - destruct (_ && _); [destruct (_ || _) |]; apply Qle_refl.
  - destruct (_ && _); simpl; [| apply Qle_refl].
    rewrite flipGravity_speedMultiplier. apply Qle_refl.
  - apply Qle_refl.
Qed.

Lemma resolveEntities_speedMultiplier (input : InputManager.t)
      (dt offset : Q) (previousRect : Rectangle.t)
      (entities : list SegmentEntity.t) :
  forall (player : Player.t) (playerRect : Rectangle.t),
    Player.speedMultiplier player
    <= Player.speedMultiplier
         (Level.r_player
            (fst (Level.resolveEntities input dt offset previousRect player
                                        playerRect entities))).
Proof.
  induction entities as [| entity rest IH]; intros player playerRect; simpl;
    [apply Qle_refl |].
  pose proof (resolveEntity_speedMultiplier input dt offset previousRect
                player playerRect entity) as X.
  destruct (Level.resolveEntity input dt offset previousRect player playerRect
              entity) as [state entity'].
  simpl in X. destruct (Level.r_returned state); [exact X |].
  specialize (IH (Level.r_player state) (Level.r_rect state)).
  destruct (Level.resolveEntities input dt offset previousRect
              (Level.r_player state) (Level.r_rect state) rest)
    as [state' rest'].
  simpl in *. eapply Qle_trans; eassumption.
Qed.

Lemma resolveSegments_speedMultiplier (input : InputManager.t)
      (dt visibleStart visibleEnd : Q) (previousRect : Rectangle.t)
      (segments : list LevelSegment.t) :
  forall (player : Player.t) (playerRect : Rectangle.t),
    Player.speedMultiplier player
    <= Player.speedMultiplier
         (Level.r_player
            (fst (Level.resolveSegments input dt visibleStart visibleEnd
                    previousRect player playerRect segments))).
Proof.
  induction segments as [| segment rest IH]; intros player playerRect; simpl;
    [apply Qle_refl |].
  destruct (_ || _).
  - specialize (IH player playerRect).
    destruct (Level.resolveSegments input dt visibleStart visibleEnd
                previousRect player playerRect rest) as [state rest'].
    exact IH.
  - pose proof (resolveEntities_speedMultiplier input dt
                  (LevelSegment.offset segment) previousRect
                  (LevelSegment.entities segment) player playerRect) as X.
    destruct (Level.resolveEntities input dt (LevelSegment.offset segment)
                previousRect player playerRect (LevelSegment.entities segment))
      as [state entities'].
    simpl in X. destruct (Level.r_returned state); [exact X |].
    specialize (IH (Level.r_player state) (Level.r_rect state)).
    destruct (Level.resolveSegments input dt visibleStart visibleEnd
                previousRect (Level.r_player state) (Level.r_rect state) rest)
      as [state' rest'].
    simpl in *. eapply Qle_trans; eassumption.
Qed.

Lemma resolvePlayer_speedMultiplier (player : Player.t)
      (input : InputManager.t) (dt : Q) (l : Level.t) :
  Player.speedMultiplier player
  <= Player.speedMultiplier (fst (Level.resolvePlayer player input dt l)).
Proof.
  unfold Level.resolvePlayer.
  pose proof (resolveSegments_speedMultiplier input dt
                (Level.scrollX l - Level.recycleMargin l)
                (Level.scrollX l + Level.viewportWorldWidth l
                 + Level.recycleMargin l)
                (Player.getPreviousBounds player) (Level.activeSegments l)
                (Level.clampToWorld player)
                (Player.getBounds (Level.clampToWorld player))) as X.
  destruct (Level.resolveSegments _ _ _ _ _ _ _ _) as [state segments].
  simpl in X. rewrite clampToWorld_speedMultiplier in X.
  destruct (Level.r_returned state); simpl; [exact X |].
  rewrite revalidate_speedMultiplier. exact X.
Qed.

(** Of the level the resolver writes the array of active segments only,
    and a level without active segments has none afterwards. *)
Lemma resolvePlayer_scroll_state (player : Player.t) (input : InputManager.t)
      (dt : Q) (l : Level.t) :
  let l' := snd (Level.resolvePlayer player input dt l) in
  Level.templates l' = Level.templates l
  /\ Level.baseSpeed l' = Level.baseSpeed l
  /\ Level.currentSpeed l' = Level.currentSpeed l
  /\ Level.scrollX l' = Level.scrollX l
  /\ (Level.activeSegments l = [] -> Level.activeSegments l' = []).
Proof.
  cbv zeta. unfold Level.resolvePlayer.
  destruct (Level.resolveSegments _ _ _ _ _ _ _ (Level.activeSegments l))
    as [state segments] eqn:E.
  assert (Hempty : Level.activeSegments l = [] -> segments = []).
  { intro H. rewrite H in E. simpl in E. inversion E. reflexivity. }
  destruct (Level.r_returned state); simpl; repeat split; try reflexivity;
    exact Hempty.
Qed.

(** What [Game.reset] does to the level and to the speed multiplier. *)
Lemma game_reset_level (now : Q) (g g' : Game.t) :
  Game.reset now g = Returned g' ->
  Level.reset (Game.level g) = Returned (Game.level g')
  /\ Player.speedMultiplier (Game.player g') = 1.
Proof.
  unfold Game.reset.
  destruct (Level.reset (Game.level g)) as [l | |]; try discriminate.
  rewrite reset_position_is_spawn.
  intro E. inversion E; subst. split; reflexivity.
Qed.

Lemma deltaTime_nonneg (timestamp : Q) (g : Game.t) :
  Game.lastTimestamp g <= timestamp -> 0 <= Game.deltaTime timestamp g.
Proof.
  intro H. unfold Game.deltaTime.
  apply Q.min_glb; [discriminate |].
  literal_div. lra.
Qed.

Section Reachable.

Variable Math_exp : Q -> Q.
Hypothesis Math_exp_range : forall x, x <= 0 -> 0 <= Math_exp x /\ Math_exp x <= 1.

Lemma reachable_speed_positive (templates : list SegmentTemplate) (l : Level.t) :
  reachable Math_exp templates l ->
  Level.templates l = templates
  /\ 0 < Level.baseSpeed l /\ 0 < Level.currentSpeed l.
Proof.
  induction 1 as [| this l Ht Hb R | l w _ IH
                  | l l' fuel dt player rng rng' _ IH Hdt Hm U
                  | l player input dt _ IH].
  - split; [reflexivity |]. split; reflexivity.
  - unfold Level.reset in R.
    destruct (Level.resetLoop _ 4 0 0 []); try discriminate.
    inversion R; subst. simpl. split; [reflexivity |]. split; exact Hb.
  - exact IH.
  - destruct IH as (Ht & Hb & Hc).
    apply update_returned in U. cbv zeta in U.
    destruct U as (_ & T & -> & -> & _).
    split; [congruence |]. split; [exact Hb |].
    apply advance_moves_forward; assumption.
  - destruct (resolvePlayer_scroll_state player input dt l)
      as (-> & -> & -> & _).
    exact IH.
Qed.

(** A reachable level either has no active segment yet or satisfies the
    window invariant. *)
Lemma reachable_window (templates : list SegmentTemplate) (l : Level.t) :
  templates <> [] ->
  reachable Math_exp templates l ->
  Level.activeSegments l = [] \/ level_inv templates l.
Proof.
  intro Hne.
  induction 1 as [| this l Ht Hb R | l w _ IH
                  | l l' fuel dt player rng rng' Hl IH Hdt Hm U
                  | l player input dt _ IH].
  - left; reflexivity.
  - destruct (reset_returns this) as (l1 & R1 & T & _ & _ & _ & L & C & F);
      [congruence |].
    rewrite R in R1. inversion R1; subst l1.
    right. unfold level_inv.
    rewrite T, Ht in *. auto.
  - exact IH.
  - destruct IH as [Hempty | Hinv].
    + pose proof U as U'. apply update_returned in U'. cbv zeta in U'.
      destruct U' as (R & T & _). rewrite Hempty, recycle_nil in R.
      inversion R. left; congruence.
    + destruct (update_preserves_inv _ _ _ _ _ _ _ _ _ Hinv U) as [Hinv' _].
      right; exact Hinv'.
  - destruct IH as [Hempty | Hinv].
    + left. apply resolvePlayer_scroll_state. exact Hempty.
    + right. apply resolvePlayer_level_inv. exact Hinv.
Qed.

(** C9.  [scrollX] never decreases.  The reachable level states are those
    produced by the constructor, [reset], [setViewport], [update] (with a
    non-negative time step and a player whose speed multiplier is at
    least one) and [resolvePlayer].  In every such state the base speed
    and the smoothed current speed are positive; an [update] with a
    non-negative time step and a player whose speed multiplier is at least
    one therefore returns a level whose [scrollX] is not below the
    previous one, and whose current speed is still positive; with
    well-formed templates and draws in [0, 1) the [update] does return.

    The multiplier condition is established by the constructor and
    [reset] and kept by [applyBoost], [update], [postResolve] and the
    whole of [resolvePlayer].  The game loop stays inside these
    conditions: from a game whose level is reachable and whose player has
    a multiplier of at least one, [Game.reset], the reset callback and
    every frame of [Game.update] whose timestamp is not before the
    previous one lead to such a game again, and a running frame without
    restart does not decrease [scrollX]. *)
Theorem level_scrollX_non_decreasing (templates : list SegmentTemplate) :
  (forall l : Level.t,
      reachable Math_exp templates l ->
      0 < Level.baseSpeed l /\ 0 < Level.currentSpeed l)
  /\ (forall (l l' : Level.t) (fuel : nat) (dt : Q) (player : Player.t)
             (rng rng' : Random.t),
         reachable Math_exp templates l ->
         0 <= dt ->
         1 <= Player.speedMultiplier player ->
         Level.update Math_exp fuel dt player rng l = Returned (l', rng') ->
         Level.scrollX l <= Level.scrollX l' /\ 0 < Level.currentSpeed l')
  /\ (forall (l : Level.t) (dt : Q) (player : Player.t) (rng : Random.t),
         well_formed templates ->
         reachable Math_exp templates l ->
         Random.in_unit_interval rng ->
         exists fuel result,
           Level.update Math_exp fuel dt player rng l = Returned result)
  /\ (Player.speedMultiplier Player.new = 1
      /\ (forall p, Player.speedMultiplier (Player.reset p) = 1)
      /\ (forall b p, 1 <= Player.speedMultiplier p ->
                      1 <= Player.speedMultiplier (Player.applyBoost b p))
      /\ (forall dt input p,
             1 <= Player.speedMultiplier p ->
             1 <= Player.speedMultiplier (fst (Player.update dt input p)))
      /\ (forall p,
             Player.speedMultiplier (Player.postResolve p)
             = Player.speedMultiplier p)
      /\ (forall p input dt l,
             1 <= Player.speedMultiplier p ->
             1 <= Player.speedMultiplier
                    (fst (Level.resolvePlayer p input dt l))))
  /\ (forall (g g' : Game.t) (now : Q),
         reachable Math_exp templates (Game.level g) ->
         (Game.reset now g = Returned g'
          \/ Game.onResetTimer now g = Returned g') ->
         reachable Math_exp templates (Game.level g')
         /\ 1 <= Player.speedMultiplier (Game.player g'))
  /\ (forall (g g' : Game.t) (fuel : nat) (timestamp now : Q)
             (rng rng' : Random.t),
         reachable Math_exp templates (Game.level g) ->
         1 <= Player.speedMultiplier (Game.player g) ->
         Game.lastTimestamp g <= timestamp ->
         Game.update Math_exp fuel timestamp now rng g = Returned (g', rng') ->
         reachable Math_exp templates (Game.level g')
         /\ 1 <= Player.speedMultiplier (Game.player g')
         /\ (Game.isRunning g = true ->
             InputManager.restartRequested (Game.input g) = false ->
             Level.scrollX (Game.level g) <= Level.scrollX (Game.level g'))).
Proof.
  assert (Hreset : forall (g g' : Game.t) (now : Q),
             reachable Math_exp templates (Game.level g) ->
             Game.reset now g = Returned g' ->
             reachable Math_exp templates (Game.level g')
             /\ 1 <= Player.speedMultiplier (Game.player g')).
  { intros g g' now Hl R.
    destruct (game_reset_level now g g' R) as [RL Rm].
    destruct (reachable_speed_positive templates _ Hl) as (Ht & Hb & _).
    split; [| rewrite Rm; discriminate].
    apply reach_reset with (this := Game.level g); assumption. }
  split; [| split; [| split; [| split; [| split]]]].
  - intros l Hl. eapply reachable_speed_positive. exact Hl.
  - intros l l' fuel dt player rng rng' Hl Hdt Hm U.
    destruct (reachable_speed_positive templates l Hl) as (_ & Hb & Hc).
    apply update_returned in U. cbv zeta in U.
    destruct U as (_ & _ & _ & -> & ->).
    destruct (advance_moves_forward Math_exp Math_exp_range dt player l
                Hb Hc Hdt Hm) as [H1 H2].
    split; assumption.
  - intros l dt player rng Hwf Hl Hrng.
    destruct (reachable_speed_positive templates l Hl) as (Ht & _).
    destruct (reachable_window templates l (proj1 Hwf) Hl)
      as [Hempty | Hinv].
    + exists 0%nat. unfold Level.update. cbv zeta.
      change (Level.activeSegments (Level.advance Math_exp dt player l))
        with (Level.activeSegments l).
      rewrite Hempty, recycle_nil. eexists. reflexivity.
    + eapply update_returns; eassumption.
  - split; [reflexivity |]. split; [reflexivity |].
    split; [apply applyBoost_keeps_multiplier |].
    split; [apply update_keeps_multiplier |].
    split; [apply postResolve_speedMultiplier |].
    intros p input dt l Hm.
    eapply Qle_trans; [exact Hm | apply resolvePlayer_speedMultiplier].
  - intros g g' now Hl [R | R]; [exact (Hreset g g' now Hl R) |].
    unfold Game.onResetTimer in R.
    apply Hreset in R; [exact R | exact Hl].
  - intros g g' fuel timestamp now rng rng' Hl Hm Hts U.
    destruct (Game.isRunning g) eqn:Hrun.
    2: { rewrite (game_update_stopped _ _ _ _ _ _ Hrun) in U.
         inversion U; subst. cbn [Game.level Game.player].
         split; [exact Hl |]. split; [exact Hm |]. discriminate. }
    destruct (InputManager.restartRequested (Game.input g)) eqn:Hreq.
    + unfold Game.update in U. cbv zeta in U.
      cbn [Game.isRunning Game.input] in U.
      rewrite Hrun in U. cbn [negb] in U.
      unfold InputManager.consumeRestartRequest in U. rewrite Hreq in U.
      match type of U with
      | match ?r with _ => _ end = _ => destruct r as [g1 | |] eqn:R
      end; try discriminate.
      inversion U; subst g1 rng'.
      apply Hreset in R; [| exact Hl].
      destruct R as [R1 R2].
      split; [exact R1 |]. split; [exact R2 |]. discriminate.
    + destruct (game_update_running Math_exp fuel timestamp now rng rng' g g'
                  Hrun Hreq U) as (l1 & L & E).
      cbv zeta in L, E.
      pose proof (deltaTime_nonneg timestamp g Hts) as Hdt.
      assert (Hpinned :
        1 <= Player.speedMultiplier
               (Player.set_position_x
                  (Level.scrollX (Game.level g)
                   + Player.anchorX
                       (fst (Player.update (Game.deltaTime timestamp g)
                               (Game.input g) (Game.player g))))
                  (fst (Player.update (Game.deltaTime timestamp g)
                          (Game.input g) (Game.player g))))).
      { apply (update_keeps_multiplier (Game.deltaTime timestamp g)
                 (Game.input g) (Game.player g) Hm). }
      pose proof (reach_update Math_exp templates _ _ _ _ _ _ _
                    Hl Hdt Hpinned L) as Hl1.
      destruct (reachable_speed_positive templates _ Hl) as (_ & Hb & Hc).
      pose proof L as L'. apply update_returned in L'. cbv zeta in L'.
      destruct L' as (_ & _ & _ & _ & Hscroll).
      destruct (advance_moves_forward Math_exp Math_exp_range
                  (Game.deltaTime timestamp g) _ (Game.level g)
                  Hb Hc Hdt Hpinned) as [_ Hforward].
      rewrite <- Hscroll in Hforward.
      subst g'. cbn [Game.level Game.player].
      split; [apply reach_resolvePlayer; exact Hl1 |].
      split.
      * rewrite postResolve_speedMultiplier.
        eapply Qle_trans; [exact Hpinned |].
        apply resolvePlayer_speedMultiplier.
      * intros _ _.
        destruct (resolvePlayer_scroll_state
                    (Player.set_position_x
                       (Level.scrollX (Game.level g)
                        + Player.anchorX
                            (fst (Player.update (Game.deltaTime timestamp g)
                                    (Game.input g) (Game.player g))))
                       (fst (Player.update (Game.deltaTime timestamp g)
                               (Game.input g) (Game.player g))))
                    (snd (Player.update (Game.deltaTime timestamp g)
                            (Game.input g) (Game.player g)))
                    (Game.deltaTime timestamp g) l1)
          as (_ & _ & _ & -> & _).
        exact Hforward.
Qed.

End Reachable.

(** The library level after [reset], a resolver pass in which the player
    overlaps the first booster (its cooldown starts and the player is
    boosted), and the [update] of the next frame. *)
Lemma level_scrollX_non_decreasing_witness :
  let player := Player.set_position_x 340 Player.new in
  exists l0 l' rng',
    Level.reset (Level.new SEGMENT_LIBRARY) = Returned l0
    /\ let resolved := Level.resolvePlayer player InputManager.new (1 / 60) l0 in
       Player.speedMultiplier (fst resolved) == 1.35
       /\ Level.update rational_exp 4 (1 / 60) (fst resolved)
                       (constant_random 0.5) (snd resolved)
          = Returned (l', rng')
       /\ Level.scrollX (snd resolved) <= Level.scrollX l'.
Proof.
  cbv zeta.
  destruct (Level.reset (Level.new SEGMENT_LIBRARY)) as [l0 | |] eqn:R;
    try (vm_compute in R; discriminate).
  assert (E0 : l0 = match Level.reset (Level.new SEGMENT_LIBRARY) with
                    | Returned l => l
                    | _ => Level.new SEGMENT_LIBRARY
                    end) by (rewrite R; reflexivity).
  assert (Hm : Player.speedMultiplier
                 (fst (Level.resolvePlayer (Player.set_position_x 340 Player.new)
                         InputManager.new (1 / 60) l0)) == 1.35)
    by (rewrite E0; vm_compute; reflexivity).
  destruct (Level.update rational_exp 4 (1 / 60)
              (fst (Level.resolvePlayer (Player.set_position_x 340 Player.new)
                      InputManager.new (1 / 60) l0))
              (constant_random 0.5)
              (snd (Level.resolvePlayer (Player.set_position_x 340 Player.new)
                      InputManager.new (1 / 60) l0)))
    as [[l' rng'] | |] eqn:U;
    try (rewrite E0 in U; vm_compute in U; discriminate).
  exists l0, l', rng'. split; [reflexivity |]. split; [exact Hm |].
  split; [exact U |].
  apply (proj1 (proj1 (proj2 (level_scrollX_non_decreasing
                                rational_exp rational_exp_range
                                SEGMENT_LIBRARY))
                  _ l' 4%nat (1 / 60) _ (constant_random 0.5) rng'
                  (reach_resolvePlayer rational_exp SEGMENT_LIBRARY l0 _ _ _
                     (reach_reset rational_exp SEGMENT_LIBRARY
                        (Level.new SEGMENT_LIBRARY) l0 eq_refl eq_refl R))
                  ltac:(discriminate)
                  ltac:(rewrite Hm; discriminate)
                  U)).
Defined.
